(** * twitter-utils: publishing service, media upload and token refresh

    A shallow embedding of [src/publishingService.js], [src/mediaUpload.js],
    [src/utils.js] and [src/groups.js].

    The service talks to three outside parties: the provider's REST API
    (post, media upload, OAuth token exchange), the host of the image, and
    the document store.  Every such call is an [Event] appended to a trace;
    the answer it receives comes from an [Env] of oracles that see the whole
    trace so far, the current request included.  Exceptions are results of
    their own ([Throw]); the only unbounded loop of the code, the media
    processing poll, runs on fuel and reports [OutOfFuel] when the fuel is
    spent, which no [try]/[catch] intercepts. *)

From Stdlib Require Import String Ascii List ZArith Bool Arith Lia DecimalString.
From Stdlib Require Import Permutation Sorted.
Import ListNotations.
Local Open Scope string_scope.
Local Open Scope list_scope.

Set Implicit Arguments.

(** ** JavaScript values as the code uses them *)

(** [s.includes(needle)] *)
Fixpoint includes (needle hay : string) : bool :=
  if prefix needle hay then true
  else match hay with
       | EmptyString => false
       | String _ rest => includes needle rest
       end.

(** Truthiness of a possibly absent string: [undefined], [null] and the empty
    string are falsy. *)
Definition truthy (v : option string) : bool :=
  match v with
  | Some s => negb (s =? "")
  | None => false
  end.

(** Truthiness of a possibly absent number. *)
Definition truthyZ (v : option Z) : bool :=
  match v with
  | Some z => negb (z =? 0)%Z
  | None => false
  end.

(** [a || b] on possibly absent strings and numbers. *)
Definition or_else (a b : option string) : option string :=
  if truthy a then a else b.

Definition or_elseZ (a b : option Z) : option Z :=
  if truthyZ a then a else b.

(** [a || 'literal'] *)
Definition or_default (a : option string) (d : string) : string :=
  match a with
  | Some s => if s =? "" then d else s
  | None => d
  end.

Definition or_defaultZ (a : option Z) (d : Z) : Z :=
  match a with
  | Some z => if (z =? 0)%Z then d else z
  | None => d
  end.

(** [x === 401] for a field that may be absent. *)
Definition is401 (v : option Z) : bool :=
  match v with
  | Some z => (z =? 401)%Z
  | None => false
  end.

(** Template literals print numbers in decimal. *)
Definition string_of_Z (z : Z) : string := NilZero.string_of_int (Z.to_int z).
Definition string_of_nat (n : nat) : string := NilZero.string_of_uint (Nat.to_uint n).

(** An [Error] object with the fields the code inspects. *)
Record JsError := mkError {
  message : string;
  code : option Z;
  status : option Z;
  statusCode : option Z
}.

(** [new Error(msg)] *)
Definition Error (msg : string) : JsError := mkError msg None None None.

(** The [TypeError] raised by reading the property [prop] of [undefined] or
    of [null]. *)
Definition TypeError (what prop : string) : JsError :=
  Error ("Cannot read properties of " ++ what ++ " (reading '" ++ prop ++ "')").

(** ** The data model *)

(** The in-memory [twitterCredentials] object.  [oauthCredentials] holds the
    token pair, [credentials] the client id and secret; [userId] is attached
    by the service. *)
Record Credentials := mkCredentials {
  accessToken : string;
  refreshToken : option string;
  clientId : string;
  clientSecret : string;
  userId : option string
}.

(** The body sent to the post endpoint. *)
Record TweetPayload := mkPayload {
  p_text : string;
  p_media_ids : option (list string);
  p_in_reply_to_tweet_id : option string
}.

(** Options of [publishTweetWithRefresh] and [prepareTweetPayload]. *)
Record TweetOptions := mkOptions {
  o_text : string;
  o_mediaIds : option (list string);
  o_replyToTweetId : option string;
  o_imageUrl : option string
}.

Inductive ErrCode :=
| CodeStr (s : string)
| CodeNum (z : Z).

Record ErrorInfo := mkErrorInfo {
  details : option string;
  err_code : option ErrCode;
  err_status : option Z;
  originalError : option string
}.

Record PublishResult := mkResult {
  success : bool;
  twitterTweetId : option string;
  publishedTweetId : option string;
  res_message : string;
  error : option ErrorInfo
}.

(** ** The outside world *)

(** The calls the code makes, with what the claims read off them.  INIT
    declares the total size, which the code parses from the content-length
    header of the image; the event carries that header.  Time stamps written
    to the store are left out. *)
Inductive Event :=
| EvFetchHead (url : string)
| EvUploadInit (bearer media_type content_length : string)
| EvFetchImage (url : string)
| EvUploadAppend (bearer mediaId body : string)
| EvUploadFinalize (bearer mediaId : string)
| EvSleep (secs : Z)
| EvUploadStatus (bearer mediaId : string)
| EvPostTweet (bearer : string) (payload : TweetPayload)
| EvOAuthToken (client_id client_secret : string) (refresh_token : option string)
| EvDbGetProject (projectId : string)
| EvDbGetWorkspace (workspaceId : string)
| EvDbGetCredentials (user : string)
| EvDbUpdateCredentials (user access refresh : string)
| EvDbGetTweet (projectId tweetId : string)
| EvDbUpdateTweet (projectId tweetId publishedId publishedText : string)
| EvDbGetGroup (groupId : string).

Definition Trace := list Event.

(** A call either rejects (network failure, store failure) or delivers. *)
Definition Reply (A : Type) : Type := JsError + A.

(** A document snapshot: [exists] false, or true with [data()] possibly
    [undefined]. *)
Inductive Snapshot (A : Type) :=
| NotExists
| ExistsEmpty
| ExistsData (a : A).
Arguments NotExists {A}.
Arguments ExistsEmpty {A}.

Record HeadResponse := mkHead {
  head_ok : bool;
  head_status : Z;
  head_statusText : string;
  head_content_type : option string;
  head_content_length : option string
}.

(** What [initResponse.json()] gives: a parse failure, [null], an object
    without [data], or [data] with its [id]. *)
Inductive InitJson :=
| InitInvalid (e : JsError)
| InitNull
| InitNoData
| InitData (id : option string).

Record InitResponse := mkInit {
  init_ok : bool;
  init_text : string;
  init_json : InitJson
}.

Record ImageResponse := mkImage {
  img_ok : bool;
  img_status : Z;
  img_statusText : string;
  img_arrayBuffer : Reply string
}.

Record AppendResponse := mkAppend {
  app_ok : bool;
  app_text : string
}.

Record ProcessingInfo := mkProcessing {
  state : string;
  check_after_secs : option Z
}.

Record FinalizeResponse := mkFinalize {
  fin_ok : bool;
  fin_text : string;
  fin_json : Reply (option ProcessingInfo)
}.

Record StatusResponse := mkStatus {
  st_ok : bool;
  st_status : Z;
  st_statusText : string;
  st_json : Reply (option ProcessingInfo)
}.

(** The JSON body of the post endpoint: [errors[i].message], [detail] and
    [data.id], each possibly absent. *)
Record PostJson := mkPostJson {
  pj_errors : list (option string);
  pj_detail : option string;
  pj_data : option (option string)
}.

Record PostResponse := mkPost {
  post_ok : bool;
  post_status : Z;
  post_json : Reply PostJson
}.

Record TokenJson := mkTokenJson {
  error_description : option string;
  access_token : option string;
  refresh_token : option string;
  expires_in : option Z
}.

(** What the body of the token endpoint parses to: [null], a value that is
    not an object, or an object. *)
Inductive TokenBody :=
| BodyNull
| BodyPrimitive
| BodyObject (t : TokenJson).

Record TokenResponse := mkToken {
  tok_ok : bool;
  tok_status : Z;
  tok_json : Reply TokenBody
}.

Record ProjectData := mkProject {
  proj_userId : option string;
  proj_workspaceId : option string
}.

Record WorkspaceData := mkWorkspace {
  ws_members : option (list string);
  ws_ownerId : option string
}.

(** A [twitter_credentials] document. *)
Record CredentialsDoc := mkCredDoc {
  doc_accessToken : option string;
  doc_refreshToken : option string;
  doc_clientId : string;
  doc_clientSecret : string;
  doc_userId : option string
}.

(** A [tweets] document, as far as it overrides publish options when it is
    spread over them: a field is [None] when the document does not have it. *)
Record TweetDoc := mkTweetDoc {
  td_text : option string;
  td_mediaIds : option (option (list string));
  td_replyToTweetId : option (option string);
  td_imageUrl : option (option string)
}.

Record Group := mkGroup {
  isEnabled : option bool
}.

(** The oracles.  Each sees the trace up to and including its request. *)
Record Env := mkEnv {
  net_head : Trace -> Reply HeadResponse;
  net_init : Trace -> Reply InitResponse;
  net_image : Trace -> Reply ImageResponse;
  net_append : Trace -> Reply AppendResponse;
  net_finalize : Trace -> Reply FinalizeResponse;
  net_status : Trace -> Reply StatusResponse;
  net_post : Trace -> Reply PostResponse;
  net_oauth : Trace -> Reply TokenResponse;
  db_project : Trace -> Reply (Snapshot ProjectData);
  db_workspace : Trace -> Reply (Snapshot WorkspaceData);
  db_credentials : Trace -> Reply (Snapshot CredentialsDoc);
  db_update_credentials : Trace -> Reply unit;
  db_tweet : Trace -> Reply (Snapshot TweetDoc);
  db_update_tweet : Trace -> Reply unit;
  db_group : Trace -> Reply (Snapshot Group)
}.

(** ** The monad: state, exceptions and fuel *)

(** The state a call runs in: the trace of calls made so far and the one
    [twitterCredentials] object every function of a publish shares. *)
Record State := mkState {
  trace : Trace;
  creds : Credentials
}.

Inductive Res (A : Type) :=
| Ok (a : A)
| Throw (e : JsError)
| OutOfFuel.
Arguments Throw {A}.
Arguments OutOfFuel {A}.

Definition M (A : Type) : Type := State -> Res A * State.

Definition ret {A} (a : A) : M A := fun s => (Ok a, s).

Definition throw {A} (e : JsError) : M A := fun s => (Throw e, s).

Definition out_of_fuel {A} : M A := fun s => (OutOfFuel, s).

Definition bind {A B} (m : M A) (k : A -> M B) : M B :=
  fun s =>
    match m s with
    | (Ok a, s') => k a s'
    | (Throw e, s') => (Throw e, s')
    | (OutOfFuel, s') => (OutOfFuel, s')
    end.

(** [try { m } catch (e) { h e }] *)
Definition try_catch {A} (m : M A) (h : JsError -> M A) : M A :=
  fun s =>
    match m s with
    | (Ok a, s') => (Ok a, s')
    | (Throw e, s') => h e s'
    | (OutOfFuel, s') => (OutOfFuel, s')
    end.

Declare Scope js_scope.
Delimit Scope js_scope with js.
Notation "x <- m ;; k" := (bind m (fun x => k))
  (at level 61, m at next level, right associativity) : js_scope.
Notation "m ;; k" := (bind m (fun _ => k))
  (at level 61, right associativity) : js_scope.
Local Open Scope js_scope.

(** Performing a call: log the request, then ask the oracle. *)
Definition perform {A} (ev : Event) (oracle : Trace -> Reply A) : M A :=
  fun s =>
    let tr := trace s ++ [ev] in
    let s' := mkState tr (creds s) in
    match oracle tr with
    | inl e => (Throw e, s')
    | inr a => (Ok a, s')
    end.

(** [m] with its exception reified, for a [try] block whose [catch] sees what
    the block has assigned so far. *)
Definition attempt {A} (m : M A) : M (JsError + A) :=
  try_catch (a <- m ;; ret (inr a)) (fun e => ret (inl e)).

(** Reading a body that may fail to parse. *)
Definition parsed {A} (r : Reply A) : M A :=
  match r with
  | inl e => throw e
  | inr a => ret a
  end.

Definition get_creds : M Credentials := fun s => (Ok (creds s), s).

Definition set_creds (c : Credentials) : M unit :=
  fun s => (Ok tt, mkState (trace s) c).

(** A side effect that has no answer ([setTimeout]). *)
Definition log_event (ev : Event) : M unit :=
  fun s => (Ok tt, mkState (trace s ++ [ev]) (creds s)).

(** ** mediaUpload.js *)

Module MediaUpload.
Section WithEnv.
Variable env : Env.

(** One status poll of [checkMediaProcessingStatus]: wait, ask, read. *)
Definition poll_status (mediaId accessToken : string)
    (processingInfo : ProcessingInfo) : M (option ProcessingInfo) :=
  let checkAfterSecs := or_defaultZ (check_after_secs processingInfo) 1 in
  log_event (EvSleep checkAfterSecs) ;;
  statusResponse <- perform (EvUploadStatus accessToken mediaId) (net_status env) ;;
  if negb (st_ok statusResponse) then
    throw (Error ("Failed to check media status: "
                  ++ string_of_Z (st_status statusResponse) ++ " "
                  ++ st_statusText statusResponse))
  else parsed (st_json statusResponse).

(** [checkMediaProcessingStatus]: one unit of fuel pays for one status poll. *)
Fixpoint checkMediaProcessingStatus (fuel : nat) (mediaId accessToken : string)
    (processingInfo : ProcessingInfo) : M unit :=
  if state processingInfo =? "succeeded" then ret tt
  else
    match fuel with
    | O => out_of_fuel
    | S fuel' =>
      statusData <- poll_status mediaId accessToken processingInfo ;;
      match statusData with
      | Some processing_info =>
          checkMediaProcessingStatus fuel' mediaId accessToken processing_info
      | None => ret tt
      end
    end.

(** The phases up to and including FINALIZE: the media handle and the
    [processing_info] of the finalize response. *)
Definition upload_phases (imageUrl accessToken : string)
    : M (string * option ProcessingInfo) :=
  headResponse <- perform (EvFetchHead imageUrl) (net_head env) ;;
  if negb (head_ok headResponse) then
    throw (Error ("Failed to get image headers: "
                  ++ string_of_Z (head_status headResponse) ++ " "
                  ++ head_statusText headResponse))
  else
    let contentType := or_default (head_content_type headResponse) "image/jpeg" in
    if negb (truthy (head_content_length headResponse)) then
      throw (Error "Content length not available, cannot proceed with streaming upload")
    else
      let contentLength := or_default (head_content_length headResponse) "" in
      initResponse <-
        perform (EvUploadInit accessToken contentType contentLength) (net_init env) ;;
      if negb (init_ok initResponse) then
        throw (Error ("Media upload initialization failed: " ++ init_text initResponse))
      else
        mediaId <-
          match init_json initResponse with
          | InitInvalid e => throw e
          | InitNull => throw (Error "Invalid media upload response from Twitter")
          | InitNoData => throw (TypeError "undefined" "id")
          | InitData id =>
              if truthy id then ret (or_default id "")
              else throw (Error "Invalid media upload response from Twitter")
          end ;;
        imageResponse <- perform (EvFetchImage imageUrl) (net_image env) ;;
        if negb (img_ok imageResponse) then
          throw (Error ("Failed to fetch image: "
                        ++ string_of_Z (img_status imageResponse) ++ " "
                        ++ img_statusText imageResponse))
        else
          buffer <- parsed (img_arrayBuffer imageResponse) ;;
          appendResponse <-
            perform (EvUploadAppend accessToken mediaId buffer) (net_append env) ;;
          if negb (app_ok appendResponse) then
            throw (Error ("Media upload append failed: " ++ app_text appendResponse))
          else
            finalizeResponse <-
              perform (EvUploadFinalize accessToken mediaId) (net_finalize env) ;;
            if negb (fin_ok finalizeResponse) then
              throw (Error ("Media upload finalization failed: "
                            ++ fin_text finalizeResponse))
            else
              finalizeData <- parsed (fin_json finalizeResponse) ;;
              ret (mediaId, finalizeData).

(** [uploadMediaToTwitter]: every error caught is an [Error] and is thrown
    again as it is. *)
Definition uploadMediaToTwitter (fuel : nat) (imageUrl accessToken : string)
    : M string :=
  try_catch
    (r <- upload_phases imageUrl accessToken ;;
     let '(mediaId, finalizeData) := r in
     match finalizeData with
     | Some processing_info =>
         checkMediaProcessingStatus fuel mediaId accessToken processing_info ;;
         ret mediaId
     | None => ret mediaId
     end)
    (fun error => throw error).

End WithEnv.
End MediaUpload.

(** ** utils.js *)

Module Utils.
Section WithEnv.
Variable env : Env.

(** [errors?.[0]?.message] *)
Definition first_error_message (errors : list (option string)) : option string :=
  match errors with
  | m :: _ => m
  | [] => None
  end.

(** [errorData.errors?.[0]?.message || errorData.detail ||
    'Failed to publish tweet'] *)
Definition post_error_message (errorData : PostJson) : string :=
  or_default (or_else (first_error_message (pj_errors errorData))
                      (pj_detail errorData))
             "Failed to publish tweet".

(** [publishTweet(accessToken, options)]: the post call.  The error of a
    rejected post carries the HTTP status as its [code]. *)
Definition publishTweet (accessToken : string) (options : TweetPayload)
    : M PostJson :=
  response <- perform (EvPostTweet accessToken options) (net_post env) ;;
  if negb (post_ok response) then
    errorData <- parsed (post_json response) ;;
    throw (mkError (post_error_message errorData)
                   (Some (post_status response)) None None)
  else parsed (post_json response).

Definition refreshOAuthToken (twitterData : Credentials) : M TokenBody :=
  response <-
    perform (EvOAuthToken (clientId twitterData) (clientSecret twitterData)
                          (refreshToken twitterData))
            (net_oauth env) ;;
  if negb (tok_ok response) then
    errorData <- parsed (tok_json response) ;;
    match errorData with
    | BodyNull => throw (TypeError "null" "error_description")
    | BodyPrimitive =>
        throw (mkError "Failed to refresh token" (Some (tok_status response))
                       None None)
    | BodyObject d =>
        throw (mkError (or_default (error_description d) "Failed to refresh token")
                       (Some (tok_status response)) None None)
    end
  else parsed (tok_json response).

(** [refreshTwitterAccessToken]: the new pair and [expires_in]; every failure
    is thrown again as a fresh [Error] that keeps the truthy [code],
    [status] and [statusCode]. *)
Definition refreshTwitterAccessToken (twitterCredentials : Credentials)
    : M (string * string * option Z) :=
  try_catch
    (tokenResponse <- refreshOAuthToken twitterCredentials ;;
     match tokenResponse with
     | BodyNull | BodyPrimitive =>
         throw (Error "Invalid token refresh response format")
     | BodyObject t =>
         if negb (truthy (access_token t)) || negb (truthy (refresh_token t)) then
           throw (Error "Missing tokens in refresh response")
         else
           ret (or_default (access_token t) "", or_default (refresh_token t) "",
                expires_in t)
     end)
    (fun error =>
       throw (mkError
                (or_default (Some (message error))
                            "Failed to refresh Twitter access token.")
                (if truthyZ (code error) then code error else None)
                (if truthyZ (status error) then status error else None)
                (if truthyZ (statusCode error) then statusCode error else None))).

End WithEnv.
End Utils.

(** ** groups.js *)

Module Groups.
Section WithEnv.
Variable env : Env.

Definition getTweetGroup (groupId : string) : M (option Group) :=
  group <- perform (EvDbGetGroup groupId) (db_group env) ;;
  match group with
  | NotExists => ret None
  | ExistsEmpty => ret None
  | ExistsData g => ret (Some g)
  end.

End WithEnv.
End Groups.

(** ** publishingService.js *)

(** Modelled from the spec: [constants.js] is not part of the sources; the
    data model gives a draft's status as one of draft, scheduled, published
    and failed, and [updateTweetStatus] writes the status ['published']. *)
Definition TweetStatus_PUBLISHED : string := "published".

Record ProjectVerificationResult := mkVerification {
  isAuthorized : bool;
  v_error : option string;
  v_statusCode : option Z
}.

(** [{ media_id_string }] *)
Record Media := mkMedia {
  media_id_string : string
}.

(** Options of the service's [publishTweet]. *)
Record PublishOptions := mkPublishOptions {
  po_tweetId : string;
  po_projectId : string;
  po_text : string;
  po_mediaIds : option (list string);
  po_replyToTweetId : option string;
  po_imageUrl : option string;
  po_groupId : option string
}.

(** A tweet of a thread, as [publishThreadTweets] receives it. *)
Record ThreadTweet := mkThreadTweet {
  tweetId : string;
  tw_text : string;
  threadPosition : option Z;
  tw_mediaIds : option (list string);
  tw_status : string;
  tw_publishedTweetId : option string;
  tw_imageUrl : option string;
  tw_replyToTweetId : option string;
  tw_groupId : option string
}.

Record ThreadEntry := mkEntry {
  e_tweetId : string;
  e_publishedTweetId : option string;
  e_success : bool;
  e_message : string
}.

Record ThreadError := mkThreadError {
  te_statusCode : option Z;
  te_details : option string
}.

Record ThreadResult := mkThreadResult {
  t_success : bool;
  t_message : string;
  t_results : option (list ThreadEntry);
  t_error : option ThreadError
}.

(** A stored tweet as the scheduler hands it over: the fields
    [processThreadTweet], [publishScheduledTweet], [groupTweetsByUser] and
    [processAllScheduledTweets] read. *)
Record TweetData := mkTweetData {
  d_id : string;
  d_projectId : string;
  d_userId : option string;
  d_text : string;
  d_threadPosition : option Z;
  d_mediaIds : option (list string);
  d_status : string;
  d_publishedTweetId : option string;
  d_imageUrl : option string;
  d_replyToTweetId : option string;
  d_groupId : option string
}.

(** [processThreadTweet(data)] of [utils.js]: the seven fields it copies; the
    object it builds has no reply target and no group. *)
Definition processThreadTweet (data : TweetData) : ThreadTweet :=
  mkThreadTweet (d_id data) (d_text data)
                (Some (or_defaultZ (d_threadPosition data) 0))
                (d_mediaIds data) (d_status data) (d_publishedTweetId data)
                (d_imageUrl data) None None.

(** The names every object inherits from [Object.prototype]: looking one of
    them up on [{}] gives a function (or, for [__proto__], the prototype),
    never [undefined]. *)
Definition inherited_names : list string :=
  ["constructor"; "__defineGetter__"; "__defineSetter__"; "hasOwnProperty";
   "__lookupGetter__"; "__lookupSetter__"; "isPrototypeOf";
   "propertyIsEnumerable"; "toString"; "valueOf"; "__proto__";
   "toLocaleString"].

Definition is_inherited (name : string) : bool :=
  existsb (String.eqb name) inherited_names.

(** The own properties of the object [groupTweetsByUser] builds, read by key;
    the order of the pairs is not the order in which JavaScript enumerates
    the keys. *)
Definition TweetsByUser := list (string * list TweetData).

Fixpoint get_group (user : string) (g : TweetsByUser) : option (list TweetData) :=
  match g with
  | [] => None
  | (u, ts) :: rest => if u =? user then Some ts else get_group user rest
  end.

(** [g[user].push(t)] on an own key, [g[user] = [t]] on a new one. *)
Fixpoint push_group (user : string) (t : TweetData) (g : TweetsByUser)
    : TweetsByUser :=
  match g with
  | [] => [(user, [t])]
  | (u, ts) :: rest =>
      if u =? user then (u, ts ++ [t]) :: rest
      else (u, ts) :: push_group user t rest
  end.

(** [for (...) { await body }] without [break]. *)
Fixpoint for_each {A} (body : A -> M unit) (l : list A) : M unit :=
  match l with
  | [] => ret tt
  | x :: rest => body x ;; for_each body rest
  end.

(** A loop body either goes on to the next element or leaves the loop. *)
Inductive Ctl (S : Type) :=
| Continue (s : S)
| Break (s : S).

Definition ctl_state {S} (c : Ctl S) : S :=
  match c with
  | Continue s => s
  | Break s => s
  end.

(** [for (const x of l) { body }] with [continue] and [break]. *)
Fixpoint for_of {A S} (body : A -> S -> M (Ctl S)) (l : list A) (s : S)
    : M (Ctl S) :=
  match l with
  | [] => ret (Continue s)
  | x :: rest =>
      c <- body x s ;;
      match c with
      | Continue s' => for_of body rest s'
      | Break s' => ret (Break s')
      end
  end.

(** [Array.prototype.sort] is stable. *)
Fixpoint insert_by {A} (key : A -> Z) (x : A) (l : list A) : list A :=
  match l with
  | [] => [x]
  | y :: rest =>
      if (key x <=? key y)%Z then x :: l else y :: insert_by key x rest
  end.

Definition sort_by {A} (key : A -> Z) (l : list A) : list A :=
  fold_right (insert_by key) [] l.

Module Service.
Section WithEnv.
Variable env : Env.
Variable fuel : nat.

Definition verifyProjectAccess (user projectId : string)
    : M ProjectVerificationResult :=
  try_catch
    (projectDoc <- perform (EvDbGetProject projectId) (db_project env) ;;
     match projectDoc with
     | NotExists => ret (mkVerification false (Some "Project not found") (Some 404%Z))
     | ExistsEmpty =>
         ret (mkVerification false (Some "Project data is empty") (Some 404%Z))
     | ExistsData projectData =>
         if match proj_userId projectData with
            | Some u => u =? user
            | None => false
            end
         then ret (mkVerification true None None)
         else
           let denied :=
             mkVerification false
               (Some "You do not have permission to access this project")
               (Some 403%Z) in
           if truthy (proj_workspaceId projectData) then
             workspaceDoc <-
               perform (EvDbGetWorkspace (or_default (proj_workspaceId projectData) ""))
                       (db_workspace env) ;;
             match workspaceDoc with
             | NotExists =>
                 ret (mkVerification false (Some "Workspace not found") (Some 404%Z))
             | ExistsEmpty =>
                 ret (mkVerification false (Some "Workspace data is empty")
                                     (Some 404%Z))
             | ExistsData workspaceData =>
                 let isMember :=
                   match ws_members workspaceData with
                   | Some members => existsb (String.eqb user) members
                   | None => false
                   end
                   || match ws_ownerId workspaceData with
                      | Some o => o =? user
                      | None => false
                      end in
                 if isMember then ret (mkVerification true None None)
                 else ret denied
             end
           else ret denied
     end)
    (fun _ =>
       ret (mkVerification false (Some "Error verifying project access")
                           (Some 500%Z))).

Definition getTwitterCredentials (user : string) : M (option Credentials) :=
  try_catch
    (twitterDoc <- perform (EvDbGetCredentials user) (db_credentials env) ;;
     match twitterDoc with
     | NotExists => ret None
     | ExistsEmpty => ret None
     | ExistsData twitterData =>
         if negb (truthy (doc_accessToken twitterData)) then ret None
         else
           ret (Some (mkCredentials (or_default (doc_accessToken twitterData) "")
                                    (doc_refreshToken twitterData)
                                    (doc_clientId twitterData)
                                    (doc_clientSecret twitterData)
                                    (doc_userId twitterData)))
     end)
    (fun _ => ret None).

Definition updateTwitterCredentials (user accessToken refreshToken : string)
    : M unit :=
  perform (EvDbUpdateCredentials user accessToken refreshToken)
          (db_update_credentials env).

(** The four ways the code recognises an authentication failure, the same in
    [uploadMedia] and in [publishTweetWithRefresh]. *)
Definition isAuthError (e : JsError) : bool :=
  is401 (code e) || includes "401" (message e) || is401 (status e)
  || is401 (statusCode e).

(** The refresh step both retry paths share up to the in-memory update, which
    only [uploadMedia] performs: refresh, require a user id, persist. *)
Definition refresh_and_persist : M (string * string) :=
  twitterCredentials <- get_creds ;;
  tokens <- Utils.refreshTwitterAccessToken env twitterCredentials ;;
  let '(newAccessToken, newRefreshToken, _) := tokens in
  twitterCredentials <- get_creds ;;
  if negb (truthy (userId twitterCredentials)) then
    throw (Error "User ID is required for token refresh")
  else
    updateTwitterCredentials (or_default (userId twitterCredentials) "")
                             newAccessToken newRefreshToken ;;
    ret (newAccessToken, newRefreshToken).

(** [uploadMedia(imageUrl, twitterCredentials, retryCount)].  The recursive
    call is returned without [await], so its rejection passes the
    surrounding [catch (refreshError)] untouched.  [depth] bounds the
    recursion, which [retryCount < 2] stops by itself. *)
Fixpoint uploadMedia_rec (depth : nat) (imageUrl : string) (retryCount : nat)
    : M Media :=
  match depth with
  | O => out_of_fuel
  | S depth' =>
    twitterCredentials <- get_creds ;;
    let accessToken := accessToken twitterCredentials in
    try_catch
      (mediaId <- MediaUpload.uploadMediaToTwitter env fuel imageUrl accessToken ;;
       ret (mkMedia mediaId))
      (fun error =>
         twitterCredentials <- get_creds ;;
         if isAuthError error && truthy (refreshToken twitterCredentials)
            && (retryCount <? 2)%nat
         then
           try_catch
             (tokens <- refresh_and_persist ;;
              let '(newAccessToken, newRefreshToken) := tokens in
              twitterCredentials <- get_creds ;;
              set_creds (mkCredentials newAccessToken (Some newRefreshToken)
                                       (clientId twitterCredentials)
                                       (clientSecret twitterCredentials)
                                       (userId twitterCredentials)))
             (fun refreshError =>
                throw (Error "Error refreshing Twitter token during media upload")) ;;
           uploadMedia_rec depth' imageUrl (retryCount + 1)
         else throw (Error "Error uploading media"))
  end.

Definition uploadMedia (imageUrl : string) (retryCount : nat) : M Media :=
  uploadMedia_rec (S (2 - retryCount)) imageUrl retryCount.

(** [prepareTweetPayload({...options, accessToken, twitterCredentials})] *)
Definition prepareTweetPayload (options : TweetOptions) (accessToken : string)
    : M TweetPayload :=
  mediaIds <-
    (if truthy (o_imageUrl options) && negb (accessToken =? "") then
       media <- uploadMedia (or_default (o_imageUrl options) "") 0 ;;
       if media_id_string media =? "" then throw (Error "Failed to upload media")
       else ret (Some [media_id_string media])
     else ret (o_mediaIds options)) ;;
  ret (mkPayload (o_text options)
                 match mediaIds with
                 | Some (m :: ms) => Some (m :: ms)
                 | _ => None
                 end
                 (if truthy (o_replyToTweetId options) then o_replyToTweetId options
                  else None)).

(** [publishedTweet.data.id] *)
Definition data_id (publishedTweet : PostJson) : M (option string) :=
  match pj_data publishedTweet with
  | Some id => ret id
  | None => throw (TypeError "undefined" "id")
  end.

Definition token_expired_result (refreshError : JsError) : PublishResult :=
  mkResult false None None "Twitter authentication failed"
    (Some (mkErrorInfo
             (Some "Your Twitter connection has expired. Please reconnect your Twitter account.")
             (Some (CodeStr "token_expired")) None
             (Some (message refreshError)))).

Definition api_error_result (publishError : JsError) : PublishResult :=
  mkResult false None None "Failed to publish tweet"
    (Some (mkErrorInfo
             (Some (or_default (Some (message publishError))
                               "An error occurred while publishing to Twitter"))
             (Some (CodeStr "api_error"))
             (or_elseZ (status publishError) (statusCode publishError))
             None)).

(** The body of the outer [try]: prepare the payload, post. *)
Definition first_attempt (options : TweetOptions) (accessToken : string)
    : M PublishResult :=
  tweetPayload <- prepareTweetPayload options accessToken ;;
  publishedTweet <- Utils.publishTweet env accessToken tweetPayload ;;
  id <- data_id publishedTweet ;;
  ret (mkResult true id id "Tweet published successfully" None).

(** The body of the inner [try]: refresh, persist, prepare again, post
    again. *)
Definition retry_attempt (options : TweetOptions) : M PublishResult :=
  tokens <- refresh_and_persist ;;
  let '(newAccessToken, newRefreshToken) := tokens in
  tweetPayload <- prepareTweetPayload options newAccessToken ;;
  publishedTweet <- Utils.publishTweet env newAccessToken tweetPayload ;;
  id <- data_id publishedTweet ;;
  ret (mkResult true id None
                "Tweet published successfully after refreshing credentials" None).

Definition publishTweetWithRefresh (options : TweetOptions) : M PublishResult :=
  twitterCredentials <- get_creds ;;
  let accessToken := accessToken twitterCredentials in
  try_catch
    (first_attempt options accessToken)
    (fun publishError =>
       twitterCredentials <- get_creds ;;
       if isAuthError publishError && truthy (refreshToken twitterCredentials) then
         try_catch
           (retry_attempt options)
           (fun refreshError => ret (token_expired_result refreshError))
       else ret (api_error_result publishError)).

Definition updateTweetStatus (projectId tweetId publishedTweetId publishedText : string)
    : M unit :=
  perform (EvDbUpdateTweet projectId tweetId publishedTweetId publishedText)
          (db_update_tweet env).

(** Steps 1 to 3 of the service's [publishTweet] and the attaching of the user
    id: an early result, or the options [publishTweetWithRefresh] is called
    with (the stored tweet spread over the caller's). *)
Definition publish_checks (user : string) (options : PublishOptions)
    : M (PublishResult + TweetOptions) :=
  if (po_tweetId options =? "") || (po_projectId options =? "")
     || (po_text options =? "")
  then
    ret (inl (mkResult false None None "Missing required fields"
                (Some (mkErrorInfo (Some "tweetId, projectId, and text are required")
                                   None None None))))
  else
    projectAccess <- verifyProjectAccess user (po_projectId options) ;;
    if negb (isAuthorized projectAccess) then
      ret (inl (mkResult false None None
                  (or_default (v_error projectAccess) "Unauthorized")
                  (Some (mkErrorInfo (v_error projectAccess)
                                     (option_map CodeNum (v_statusCode projectAccess))
                                     None None))))
    else
      disabled <-
        (if truthy (po_groupId options) then
           group <- Groups.getTweetGroup env (or_default (po_groupId options) "") ;;
           ret match group with
               | Some g => match isEnabled g with
                           | Some false => true
                           | _ => false
                           end
               | None => false
               end
         else ret false) ;;
      if disabled then
        ret (inl (mkResult false None None
                    "Group is disabled. Tweet will not be published."
                    (Some (mkErrorInfo (Some "Group is disabled.") None None None))))
      else
        twitterCredentials <- getTwitterCredentials user ;;
        match twitterCredentials with
        | None =>
            ret (inl (mkResult false None None "Twitter credentials not found"
                        (Some (mkErrorInfo
                                 (Some "Please connect your Twitter account in settings")
                                 (Some (CodeStr "credentials_not_found")) None None))))
        | Some twitterCredentials =>
            tweetDoc <-
              perform (EvDbGetTweet (po_projectId options) (po_tweetId options))
                      (db_tweet env) ;;
            match tweetDoc with
            | NotExists =>
                ret (inl (mkResult false None None "Tweet not found"
                            (Some (mkErrorInfo
                                     (Some "The specified tweet does not exist")
                                     None None None))))
            | _ =>
                let data :=
                  match tweetDoc with
                  | ExistsData d => d
                  | _ => mkTweetDoc None None None None
                  end in
                set_creds (mkCredentials (accessToken twitterCredentials)
                                         (refreshToken twitterCredentials)
                                         (clientId twitterCredentials)
                                         (clientSecret twitterCredentials)
                                         (Some user)) ;;
                ret (inr (mkOptions
                            (match td_text data with
                             | Some t => t
                             | None => po_text options
                             end)
                            (match td_mediaIds data with
                             | Some m => m
                             | None => po_mediaIds options
                             end)
                            (match td_replyToTweetId data with
                             | Some r => r
                             | None => po_replyToTweetId options
                             end)
                            (match td_imageUrl data with
                             | Some i => i
                             | None => po_imageUrl options
                             end)))
            end
        end.

Definition internal_error_result (error : JsError) : PublishResult :=
  mkResult false None None "Internal server error"
    (Some (mkErrorInfo (Some (message error)) None None None)).

(** The service's [publishTweet(userId, options)]: the checks, step 4 (publish)
    and step 5 (persist), all inside one [try]. *)
Definition publishTweet (user : string) (options : PublishOptions)
    : M PublishResult :=
  try_catch
    (checked <- publish_checks user options ;;
     match checked with
     | inl early => ret early
     | inr tweetOptions =>
         publishResult <- publishTweetWithRefresh tweetOptions ;;
         (if success publishResult && truthy (twitterTweetId publishResult) then
            updateTweetStatus (po_projectId options) (po_tweetId options)
              (or_default (twitterTweetId publishResult) "") (po_text options)
          else ret tt) ;;
         ret publishResult
     end)
    (fun error => ret (internal_error_result error)).

(** The variables the thread loop assigns. *)
Record LoopState := mkLoop {
  previousTweetId : option string;
  results : list ThreadEntry
}.

Definition failed_entry (tweet : ThreadTweet) : ThreadEntry :=
  mkEntry (tweetId tweet) None false "Tweet publishing failed".

(** The options a thread tweet is published with: the tweet spread, its
    reply target replaced when a previous id is at hand. *)
Definition publishOptions (tweet : ThreadTweet) (previous : option string)
    : TweetOptions :=
  mkOptions (tw_text tweet) (tw_mediaIds tweet)
            (if truthy previous then previous else tw_replyToTweetId tweet)
            (tw_imageUrl tweet).

(** One turn of the loop of [publishThreadTweets].  The [try] block is split
    at its two awaits: [results] and [previousTweetId] keep what the block
    assigned when its [catch] runs. *)
Definition thread_body (projectId : string) (tweet : ThreadTweet) (s : LoopState)
    : M (Ctl LoopState) :=
  if tw_status tweet =? TweetStatus_PUBLISHED then
    ret (Continue (mkLoop (tw_publishedTweetId tweet) (results s)))
  else
    published <-
      attempt (publishTweetWithRefresh (publishOptions tweet (previousTweetId s))) ;;
    match published with
    | inl error =>
        ret (Break (mkLoop (previousTweetId s) (results s ++ [failed_entry tweet])))
    | inr result =>
        let results1 :=
          results s ++ [mkEntry (tweetId tweet) (twitterTweetId result)
                                (success result) (res_message result)] in
        if success result && truthy (twitterTweetId result) then
          persisted <-
            attempt (updateTweetStatus projectId (tweetId tweet)
                       (or_default (twitterTweetId result) "") (tw_text tweet)) ;;
          match persisted with
          | inl error =>
              ret (Break (mkLoop (twitterTweetId result)
                                 (results1 ++ [failed_entry tweet])))
          | inr _ => ret (Continue (mkLoop (twitterTweetId result) results1))
          end
        else ret (Break (mkLoop (previousTweetId s) results1))
    end.

Definition sortedTweets (threadTweets : list ThreadTweet) : list ThreadTweet :=
  sort_by (fun t => or_defaultZ (threadPosition t) 0) threadTweets.

Definition publishedCount (rs : list ThreadEntry) : nat :=
  length (filter e_success rs).

(** The result built after the loop. *)
Definition thread_result (totalCount : nat) (rs : list ThreadEntry) : ThreadResult :=
  let allSucceeded := forallb e_success rs in
  let stoppedEarly :=
    (publishedCount rs <? totalCount)%nat && (0 <? publishedCount rs)%nat in
  mkThreadResult allSucceeded
    (if allSucceeded then
       "Thread published successfully (" ++ string_of_nat (publishedCount rs)
       ++ " tweets)"
     else if stoppedEarly then
       "Thread publishing stopped after " ++ string_of_nat (publishedCount rs)
       ++ "/" ++ string_of_nat totalCount ++ " tweets to maintain thread integrity"
     else "Failed to publish thread")
    (Some rs) None.

Definition publishThreadTweets (user projectId : string)
    (threadTweets : list ThreadTweet) : M ThreadResult :=
  try_catch
    (projectAccess <- verifyProjectAccess user projectId ;;
     if negb (isAuthorized projectAccess) then
       ret (mkThreadResult false
              (or_default (v_error projectAccess)
                          "Not authorized to access this project")
              None
              (Some (mkThreadError
                       (Some (or_defaultZ (v_statusCode projectAccess) 403))
                       (v_error projectAccess))))
     else
       twitterCredentials <- getTwitterCredentials user ;;
       match twitterCredentials with
       | None =>
           ret (mkThreadResult false "Twitter credentials not found" None
                  (Some (mkThreadError
                           (Some 404%Z)
                           (Some "No Twitter credentials available for this user"))))
       | Some twitterCredentials =>
           match threadTweets with
           | [] =>
               ret (mkThreadResult false "No tweets provided for the thread" None
                      (Some (mkThreadError
                               (Some 400%Z)
                               (Some "Thread must contain at least one tweet"))))
           | _ =>
               set_creds twitterCredentials ;;
               final <-
                 for_of (thread_body projectId) (sortedTweets threadTweets)
                        (mkLoop None []) ;;
               ret (thread_result (length (sortedTweets threadTweets))
                                  (results (ctl_state final)))
           end
       end)
    (fun error =>
       ret (mkThreadResult false "Failed to publish thread" None
              (Some (mkThreadError None (Some (message error)))))).


(** [publishScheduledTweet(tweet, twitterCredentials)]: the credentials are
    the object in the state. *)
Definition publishScheduledTweet (tweet : TweetData) : M bool :=
  try_catch
    (disabled <-
       (if truthy (d_groupId tweet) then
          group <- Groups.getTweetGroup env (or_default (d_groupId tweet) "") ;;
          ret match group with
              | Some g => match isEnabled g with
                          | Some false => true
                          | _ => false
                          end
              | None => false
              end
        else ret false) ;;
     if disabled then ret false
     else
       twitterCredentials <- get_creds ;;
       set_creds (mkCredentials (accessToken twitterCredentials)
                                (refreshToken twitterCredentials)
                                (clientId twitterCredentials)
                                (clientSecret twitterCredentials)
                                (d_userId tweet)) ;;
       publishResult <-
         publishTweetWithRefresh
           (mkOptions (d_text tweet) (d_mediaIds tweet) (d_replyToTweetId tweet)
                      (d_imageUrl tweet)) ;;
       if success publishResult && truthy (twitterTweetId publishResult) then
         updateTweetStatus (d_projectId tweet) (d_id tweet)
           (or_default (twitterTweetId publishResult) "") (d_text tweet) ;;
         ret true
       else ret false)
    (fun error => ret false).

(** [groupTweetsByUser(tweets)].  It is synchronous; it throws when a user id
    is an inherited name, because the lookup then finds something that is
    not [undefined] and has no [push]. *)
Fixpoint groupTweetsByUser_from (tweetsByUser : TweetsByUser)
    (tweets : list TweetData) : JsError + TweetsByUser :=
  match tweets with
  | [] => inr tweetsByUser
  | tweet :: rest =>
      if negb (truthy (d_userId tweet)) then groupTweetsByUser_from tweetsByUser rest
      else
        let user := or_default (d_userId tweet) "" in
        if is_inherited user then
          inl (Error "tweetsByUser[tweet.userId].push is not a function")
        else groupTweetsByUser_from (push_group user tweet tweetsByUser) rest
  end.

Definition groupTweetsByUser (tweets : list TweetData) : JsError + TweetsByUser :=
  groupTweetsByUser_from [] tweets.

(** The options [processAllScheduledTweets] publishes a tweet with:
    [{...tweets[i], tweetId: tweets[i].id}]. *)
Definition scheduled_options (tweet : TweetData) : PublishOptions :=
  mkPublishOptions (d_id tweet) (d_projectId tweet) (d_text tweet)
                   (d_mediaIds tweet) (d_replyToTweetId tweet) (d_imageUrl tweet)
                   (d_groupId tweet).

(** [processAllScheduledTweets(tweets, threads, userId, projectId)];
    [threads] may be [undefined]. *)
Definition processAllScheduledTweets (tweets : list TweetData)
    (threads : option (list TweetData)) (user projectId : string) : M unit :=
  try_catch
    (for_each (fun tweet => publishTweet user (scheduled_options tweet) ;; ret tt)
              tweets ;;
     match threads with
     | Some (t :: ts) =>
         publishThreadTweets user projectId (map processThreadTweet (t :: ts)) ;;
         ret tt
     | _ => ret tt
     end)
    (fun error => throw error).

End WithEnv.
End Service.

(** ** Reading traces *)

Definition is_post (ev : Event) : bool :=
  match ev with EvPostTweet _ _ => true | _ => false end.

Definition is_refresh (ev : Event) : bool :=
  match ev with EvOAuthToken _ _ _ => true | _ => false end.

(** Every run of [uploadMediaToTwitter] starts with one HEAD of the image. *)
Definition is_upload_attempt (ev : Event) : bool :=
  match ev with EvFetchHead _ => true | _ => false end.

Definition is_status_poll (ev : Event) : bool :=
  match ev with EvUploadStatus _ _ => true | _ => false end.

(** The calls that go to the provider. *)
Definition is_provider_call (ev : Event) : bool :=
  match ev with
  | EvUploadInit _ _ _ | EvUploadAppend _ _ _ | EvUploadFinalize _ _
  | EvUploadStatus _ _ | EvPostTweet _ _ | EvOAuthToken _ _ _ => true
  | _ => false
  end.

(** The calls that leave the process over the network at all. *)
Definition is_network_call (ev : Event) : bool :=
  match ev with
  | EvFetchHead _ | EvFetchImage _ => true
  | _ => is_provider_call ev
  end.

Definition count_events (f : Event -> bool) (tr : Trace) : nat :=
  length (filter f tr).

(** The events a run from [s] to [s'] added. *)
Definition events_since (s s' : State) : Trace :=
  skipn (length (trace s)) (trace s').

(** The events of one run of [uploadMediaToTwitter]. *)
Definition is_media_event (ev : Event) : bool :=
  match ev with
  | EvFetchHead _ | EvUploadInit _ _ _ | EvFetchImage _ | EvUploadAppend _ _ _
  | EvUploadFinalize _ _ | EvSleep _ | EvUploadStatus _ _ => true
  | _ => false
  end.

(** The events of an upload after its HEAD. *)
Definition is_upload_step (ev : Event) : bool :=
  is_media_event ev && negb (is_upload_attempt ev).

(** The events of [uploadMedia] and [prepareTweetPayload]: uploads, token
    exchanges and the persisting of a new pair. *)
Definition is_upload_event (ev : Event) : bool :=
  match ev with
  | EvOAuthToken _ _ _ | EvDbUpdateCredentials _ _ _ => true
  | _ => is_media_event ev
  end.

(** The events of [publishTweetWithRefresh]. *)
Definition is_publish_event (ev : Event) : bool :=
  is_upload_event ev || is_post ev.

(** The reads of [verifyProjectAccess] and of [getTwitterCredentials]. *)
Definition is_access_read (ev : Event) : bool :=
  match ev with
  | EvDbGetProject _ | EvDbGetWorkspace _ => true
  | _ => false
  end.

Definition is_credentials_read (ev : Event) : bool :=
  match ev with EvDbGetCredentials _ => true | _ => false end.

(** Reads of the document store. *)
Definition is_store_read (ev : Event) : bool :=
  match ev with
  | EvDbGetProject _ | EvDbGetWorkspace _ | EvDbGetCredentials _
  | EvDbGetTweet _ _ | EvDbGetGroup _ => true
  | _ => false
  end.

(** The events of [publishThreadTweets]. *)
Definition is_thread_event (ev : Event) : bool :=
  match ev with
  | EvDbGetProject _ | EvDbGetWorkspace _ | EvDbGetCredentials _
  | EvDbUpdateTweet _ _ _ _ => true
  | _ => is_publish_event ev
  end.

Definition is_group_read (ev : Event) : bool :=
  match ev with EvDbGetGroup _ => true | _ => false end.

(** All events of a trace satisfy [f]. *)
Definition only (f : Event -> bool) (evs : Trace) : Prop :=
  Forall (fun ev => f ev = true) evs.

(** Whatever state [m] runs in, it only appends events, all of kind [f]. *)
Definition emits {A} (f : Event -> bool) (m : M A) : Prop :=
  forall s, exists evs, trace (snd (m s)) = trace s ++ evs /\ only f evs.

(** The result that tells the user to reconnect the account. *)
Definition reports_token_expired (res : PublishResult) : Prop :=
  success res = false
  /\ res_message res = "Twitter authentication failed"
  /\ option_map err_code (error res) = Some (Some (CodeStr "token_expired"))
  /\ option_map details (error res)
     = Some (Some "Your Twitter connection has expired. Please reconnect your Twitter account.").

(** Whatever state [m] runs in, it appends [ev] and then events of kind [f]
    only. *)
Definition emits_headed {A} (ev : Event) (f : Event -> bool) (m : M A) : Prop :=
  forall s, exists rest,
    trace (snd (m s)) = trace s ++ ev :: rest /\ only f rest.

(** The ways the processing poll of an upload ends, and the one way it goes
    on.  [PollLoop env mediaId tok p s r s']: started in state [s] with the
    processing info [p] at hand, the loop ends in state [s'] with [r]. *)
Inductive PollLoop (env : Env) (mediaId tok : string)
    : ProcessingInfo -> State -> Res unit -> State -> Prop :=
| ends_on_succeeded p s :
    state p = "succeeded" ->
    PollLoop env mediaId tok p s (Ok tt) s
| ends_without_processing_info p s s' :
    state p <> "succeeded" ->
    MediaUpload.poll_status env mediaId tok p s = (Ok None, s') ->
    PollLoop env mediaId tok p s (Ok tt) s'
| ends_on_failed_request p s e s' :
    state p <> "succeeded" ->
    MediaUpload.poll_status env mediaId tok p s = (Throw e, s') ->
    PollLoop env mediaId tok p s (Throw e) s'
| polls_again p s p' s1 r s' :
    state p <> "succeeded" ->
    MediaUpload.poll_status env mediaId tok p s = (Ok (Some p'), s1) ->
    PollLoop env mediaId tok p' s1 r s' ->
    PollLoop env mediaId tok p s r s'.

(** What an upload makes of the end of its poll: the media handle, or the
    error as it is. *)
Definition upload_outcome (mediaId : string) (r : Res unit) : Res string :=
  match r with
  | Ok _ => Ok mediaId
  | Throw e => Throw e
  | OutOfFuel => OutOfFuel
  end.

(** ** Reading thread runs *)

Definition option_string_eqb (a b : option string) : bool :=
  match a, b with
  | Some x, Some y => x =? y
  | None, None => true
  | _, _ => false
  end.

(** Every post call of the trace replies to [target]. *)
Definition replies_to (target : option string) (ev : Event) : bool :=
  match ev with
  | EvPostTweet _ payload => option_string_eqb (p_in_reply_to_tweet_id payload) target
  | _ => true
  end.

(** The reply target [prepareTweetPayload] gives a payload. *)
Definition reply_target (options : TweetOptions) : option string :=
  if truthy (o_replyToTweetId options) then o_replyToTweetId options else None.

Definition not_yet_published (t : ThreadTweet) : bool :=
  negb (tw_status t =? TweetStatus_PUBLISHED).

(** How [publishThreadTweets] ends once its checks have passed and the loop
    has run: the aggregated result, or the result of its outer [catch]. *)
Definition thread_finish (totalCount : nat) (run : Res (Ctl Service.LoopState) * State)
    : Res ThreadResult * State :=
  match run with
  | (Ok final, s) =>
      (Ok (Service.thread_result totalCount (Service.results (ctl_state final))), s)
  | (Throw e, s) =>
      (Ok (mkThreadResult false "Failed to publish thread" None
             (Some (mkThreadError None (Some (message e))))), s)
  | (OutOfFuel, s) => (OutOfFuel, s)
  end.

(** A run of the thread loop over [tweets] in which nothing stopped the loop:
    every tweet not yet published was published with the id at hand as its
    reply target in every post call made for it (its own reply target if no
    id is at hand), was given a provider id, and was persisted under that id,
    which is then at hand for the next one; a tweet already published hands
    on its stored id. *)
Fixpoint chained (env : Env) (fuel : nat) (projectId : string)
    (tweets : list ThreadTweet) (previous : option string) (s : State) : Prop :=
  match tweets with
  | [] => True
  | t :: rest =>
      if tw_status t =? TweetStatus_PUBLISHED then
        chained env fuel projectId rest (tw_publishedTweetId t) s
      else
        exists res s1 s2 id,
          Service.publishTweetWithRefresh env fuel (Service.publishOptions t previous) s
          = (Ok res, s1)
          /\ success res = true
          /\ twitterTweetId res = Some id
          /\ id <> ""
          /\ only (replies_to (reply_target (Service.publishOptions t previous)))
                  (events_since s s1)
          /\ Service.updateTweetStatus env projectId (tweetId t) id (tw_text t) s1
             = (Ok tt, s2)
          /\ chained env fuel projectId rest (Some id) s2
  end.

(** ** Reading runs: exceptions, credentials and budgets *)

(** [m] ends by returning or by running out of fuel, never by throwing. *)
Definition never_throws {A} (m : M A) : Prop :=
  forall s e s', m s <> (Throw e, s').

(** [m] leaves the credentials in memory as they are. *)
Definition keeps_creds {A} (m : M A) : Prop :=
  forall s, creds (snd (m s)) = creds s.

(** Whatever state [m] runs in, it only appends events, at most [n] of them
    of kind [f]. *)
Definition at_most {A} (f : Event -> bool) (n : nat) (m : M A) : Prop :=
  forall s, exists evs,
    trace (snd (m s)) = trace s ++ evs /\ count_events f evs <= n.

Definition is_project_read (ev : Event) : bool :=
  match ev with EvDbGetProject _ => true | _ => false end.

Definition is_store_write (ev : Event) : bool :=
  match ev with
  | EvDbUpdateCredentials _ _ _ | EvDbUpdateTweet _ _ _ _ => true
  | _ => false
  end.

(** The polls of an upload: a wait, then a status request with the token and
    the handle of the upload, any number of times. *)
Fixpoint polls_ok (tok mediaId : string) (evs : Trace) : bool :=
  match evs with
  | [] => true
  | EvSleep _ :: EvUploadStatus b m :: rest =>
      (b =? tok) && (m =? mediaId) && polls_ok tok mediaId rest
  | _ => false
  end.

(** The order of the upload protocol: HEAD of the image, INIT, the image,
    APPEND, FINALIZE, polls; a run may end after any of them.  The provider
    calls carry [tok], and from APPEND on the same media handle. *)
Definition upload_trace_ok (url tok : string) (evs : Trace) : bool :=
  match evs with
  | [EvFetchHead u] => u =? url
  | [EvFetchHead u; EvUploadInit b _ _] => (u =? url) && (b =? tok)
  | [EvFetchHead u; EvUploadInit b _ _; EvFetchImage u2] =>
      (u =? url) && (b =? tok) && (u2 =? url)
  | EvFetchHead u :: EvUploadInit b _ _ :: EvFetchImage u2
    :: EvUploadAppend b2 m _ :: rest =>
      (u =? url) && (b =? tok) && (u2 =? url) && (b2 =? tok)
      && match rest with
         | [] => true
         | EvUploadFinalize b3 m2 :: polls =>
             (b3 =? tok) && (m2 =? m) && polls_ok tok m polls
         | _ => false
         end
  | _ => false
  end.

(** A tweet [groupTweetsByUser] files under [user]. *)
Definition filed_under (user : string) (t : TweetData) : bool :=
  match d_userId t with
  | Some u => negb (u =? "") && (u =? user)
  | None => false
  end.

(** A tweet whose required fields are all there. *)
Definition has_required_fields (options : PublishOptions) : bool :=
  negb ((po_tweetId options =? "") || (po_projectId options =? "")
        || (po_text options =? "")).

(** [m] only appends events, and a run of it that is out of fuel has made at
    least [n] status polls. *)
Definition stalls_polling {A} (n : nat) (m : M A) : Prop :=
  forall s, exists evs,
    trace (snd (m s)) = trace s ++ evs
    /\ (fst (m s) = OutOfFuel -> n <= count_events is_status_poll evs).

(** Every run of [m] returns, unless it is out of fuel after at least [n]
    status polls of its own. *)
Definition returns_unless_polling {A} (n : nat) (m : M A) : Prop :=
  forall s,
    (exists a, fst (m s) = Ok a)
    \/ (fst (m s) = OutOfFuel
        /\ n <= count_events is_status_poll (events_since s (snd (m s)))).

(** What a run that cannot refresh may emit at most. *)
Definition single_run_counts (evs : Trace) : Prop :=
  count_events is_upload_attempt evs <= 1
  /\ count_events is_refresh evs <= 1
  /\ count_events is_post evs = 0
  /\ count_events is_store_write evs = 0.

Definition is_credentials_write (ev : Event) : bool :=
  match ev with EvDbUpdateCredentials _ _ _ => true | _ => false end.

(** ** Sample worlds *)

Module Sample.

(** A world in which every call succeeds: the image is there, uploads need no
    processing, the post endpoint numbers its posts, the token exchange
    answers with the pair A2/R2, the project belongs to user u1. *)
Definition quiet : Env :=
  mkEnv
    (fun _ => inr (mkHead true 200 "OK" (Some "image/png") (Some "1024")))
    (fun _ => inr (mkInit true "" (InitData (Some "m1"))))
    (fun _ => inr (mkImage true 200 "OK" (inr "bytes")))
    (fun _ => inr (mkAppend true ""))
    (fun _ => inr (mkFinalize true "" (inr None)))
    (fun _ => inr (mkStatus true 200 "OK" (inr None)))
    (fun tr => inr (mkPost true 201
                      (inr (mkPostJson [] None
                              (Some (Some ("t" ++ string_of_nat
                                                    (count_events is_post tr))%string))))))
    (fun _ => inr (mkToken true 200
                     (inr (BodyObject (mkTokenJson None (Some "A2") (Some "R2")
                                                   (Some 7200%Z))))))
    (fun _ => inr (ExistsData (mkProject (Some "u1") None)))
    (fun _ => inr NotExists)
    (fun _ => inr (ExistsData (mkCredDoc (Some "A1") (Some "R1") "cid" "secret"
                                         (Some "u1"))))
    (fun _ => inr tt)
    (fun _ => inr (ExistsData (mkTweetDoc None None None None)))
    (fun _ => inr tt)
    (fun _ => inr NotExists).

Definition with_init (f : Trace -> Reply InitResponse) (e : Env) : Env :=
  mkEnv (net_head e) f (net_image e) (net_append e) (net_finalize e)
        (net_status e) (net_post e) (net_oauth e) (db_project e)
        (db_workspace e) (db_credentials e) (db_update_credentials e)
        (db_tweet e) (db_update_tweet e) (db_group e).

Definition with_finalize (f : Trace -> Reply FinalizeResponse) (e : Env) : Env :=
  mkEnv (net_head e) (net_init e) (net_image e) (net_append e) f
        (net_status e) (net_post e) (net_oauth e) (db_project e)
        (db_workspace e) (db_credentials e) (db_update_credentials e)
        (db_tweet e) (db_update_tweet e) (db_group e).

Definition with_status (f : Trace -> Reply StatusResponse) (e : Env) : Env :=
  mkEnv (net_head e) (net_init e) (net_image e) (net_append e) (net_finalize e)
        f (net_post e) (net_oauth e) (db_project e)
        (db_workspace e) (db_credentials e) (db_update_credentials e)
        (db_tweet e) (db_update_tweet e) (db_group e).

Definition with_post (f : Trace -> Reply PostResponse) (e : Env) : Env :=
  mkEnv (net_head e) (net_init e) (net_image e) (net_append e) (net_finalize e)
        (net_status e) f (net_oauth e) (db_project e)
        (db_workspace e) (db_credentials e) (db_update_credentials e)
        (db_tweet e) (db_update_tweet e) (db_group e).

Definition with_oauth (f : Trace -> Reply TokenResponse) (e : Env) : Env :=
  mkEnv (net_head e) (net_init e) (net_image e) (net_append e) (net_finalize e)
        (net_status e) (net_post e) f (db_project e)
        (db_workspace e) (db_credentials e) (db_update_credentials e)
        (db_tweet e) (db_update_tweet e) (db_group e).

Definition with_update_tweet (f : Trace -> Reply unit) (e : Env) : Env :=
  mkEnv (net_head e) (net_init e) (net_image e) (net_append e) (net_finalize e)
        (net_status e) (net_post e) (net_oauth e) (db_project e)
        (db_workspace e) (db_credentials e) (db_update_credentials e)
        (db_tweet e) f (db_group e).

Definition with_group (f : Trace -> Reply (Snapshot Group)) (e : Env) : Env :=
  mkEnv (net_head e) (net_init e) (net_image e) (net_append e) (net_finalize e)
        (net_status e) (net_post e) (net_oauth e) (db_project e)
        (db_workspace e) (db_credentials e) (db_update_credentials e)
        (db_tweet e) (db_update_tweet e) f.

(** The request an oracle is asked about. *)
Definition request (tr : Trace) : Event := last tr (EvSleep 0).

Definition posted (id : string) : PostResponse :=
  mkPost true 201 (inr (mkPostJson [] None (Some (Some id)))).

Definition rejected (st : Z) (detail : string) : PostResponse :=
  mkPost false st (inr (mkPostJson [] (Some detail) None)).

Definition granted (access refresh : string) : TokenResponse :=
  mkToken true 200
    (inr (BodyObject (mkTokenJson None (Some access) (Some refresh)
                                  (Some 7200%Z)))).

(** The credentials in memory when a publish starts. *)
Definition creds1 : Credentials :=
  mkCredentials "A1" (Some "R1") "cid" "secret" (Some "u1").

Definition start : State := mkState [] creds1.

Definition plain : TweetOptions := mkOptions "hello" None None None.

Definition pictured : TweetOptions :=
  mkOptions "hello" None None (Some "https://img.example/a.png").

(** The access token A1 has expired: the provider answers 401 to it, on the
    upload endpoint and on the post endpoint alike; the refresh token R1 can
    be exchanged once. *)
Definition expired : Env :=
  with_init
    (fun tr => match request tr with
               | EvUploadInit "A1" _ _ => inr (mkInit false "Unauthorized (401)" InitNull)
               | _ => inr (mkInit true "" (InitData (Some "m1")))
               end)
    (with_post
       (fun tr => match request tr with
                  | EvPostTweet "A1" _ => inr (rejected 401 "Unauthorized")
                  | _ => inr (posted "t1")
                  end)
       (with_oauth
          (fun tr => match request tr with
                     | EvOAuthToken _ _ (Some "R1") => inr (granted "A2" "R2")
                     | _ => inr (mkToken false 400
                                   (inr (BodyObject
                                           (mkTokenJson
                                              (Some "Value passed for the token was invalid.")
                                              None None None))))
                     end)
          quiet)).

(** The upload endpoint answers 401 whatever the token; every token exchange
    succeeds. *)
Definition upload_unauthorized : Env :=
  with_init (fun _ => inr (mkInit false "Unauthorized (401)" InitNull)) quiet.

(** The post endpoint answers 401 to the token A1 and accepts any other;
    uploads succeed with every token. *)
Definition post_expired : Env :=
  with_post
    (fun tr => match request tr with
               | EvPostTweet "A1" _ => inr (rejected 401 "Unauthorized")
               | _ => inr (posted "t1")
               end)
    quiet.

(** The post endpoint answers 401 to A1 and 500 to every other token. *)
Definition post_broken : Env :=
  with_post
    (fun tr => match request tr with
               | EvPostTweet "A1" _ => inr (rejected 401 "Unauthorized")
               | _ => inr (rejected 500 "Internal error")
               end)
    quiet.

(** The post endpoint answers 403 with a detail that happens to contain the
    digits 401. *)
Definition forbidden_401 : Env :=
  with_post (fun _ => inr (rejected 403 "Forbidden (incident 4017)")) quiet.

(** The post endpoint answers 403. *)
Definition forbidden : Env :=
  with_post (fun _ => inr (rejected 403 "Forbidden")) quiet.

(** The store rejects the update of a tweet. *)
Definition store_down : Env :=
  with_update_tweet (fun _ => inl (Error "store unavailable")) quiet.

(** Every group is disabled. *)
Definition group_disabled : Env :=
  with_group (fun _ => inr (ExistsData (mkGroup (Some false)))) quiet.

(** Finalize announces processing; the first status poll reports the state
    failed, the second the state succeeded. *)
Definition processing_failed_then_succeeded : Env :=
  with_finalize
    (fun _ => inr (mkFinalize true "" (inr (Some (mkProcessing "pending" None)))))
    (with_status
       (fun tr => match count_events is_status_poll tr with
                  | 1 => inr (mkStatus true 200 "OK"
                                (inr (Some (mkProcessing "failed" None))))
                  | _ => inr (mkStatus true 200 "OK"
                                (inr (Some (mkProcessing "succeeded" None))))
                  end)
       quiet).

(** Finalize announces processing and every status poll reports the state
    failed. *)
Definition processing_failed : Env :=
  with_finalize
    (fun _ => inr (mkFinalize true "" (inr (Some (mkProcessing "pending" None)))))
    (with_status
       (fun _ => inr (mkStatus true 200 "OK" (inr (Some (mkProcessing "failed" None)))))
       quiet).

(** The second post call fails with status 500. *)
Definition second_post_fails : Env :=
  with_post
    (fun tr => match count_events is_post tr with
               | 2 => inr (rejected 500 "Internal error")
               | n => inr (posted ("t" ++ string_of_nat n)%string)
               end)
    quiet.

Definition draft (id text : string) (pos : Z) : ThreadTweet :=
  mkThreadTweet id text (Some pos) None "draft" None None None None.

Definition published (id text : string) (pos : Z) (providerId : string)
    : ThreadTweet :=
  mkThreadTweet id text (Some pos) None "published" (Some providerId) None None None.

End Sample.

Module PostSample.

(** The post endpoint answers 502 with a body that is not JSON. *)
Definition bad_gateway : Env :=
  Sample.with_post
    (fun _ => inr (mkPost false 502 (inl (Error "invalid json response body"))))
    Sample.quiet.

End PostSample.

Module ThreadSample.

(** The stored credentials carry no user id of their own; the post endpoint
    answers 401 to the token A1 and accepts any other. *)
Definition no_stored_user : Env :=
  mkEnv (net_head Sample.post_expired) (net_init Sample.post_expired)
        (net_image Sample.post_expired) (net_append Sample.post_expired)
        (net_finalize Sample.post_expired) (net_status Sample.post_expired)
        (net_post Sample.post_expired) (net_oauth Sample.post_expired)
        (db_project Sample.post_expired) (db_workspace Sample.post_expired)
        (fun _ => inr (ExistsData (mkCredDoc (Some "A1") (Some "R1") "cid" "secret"
                                             None)))
        (db_update_credentials Sample.post_expired) (db_tweet Sample.post_expired)
        (db_update_tweet Sample.post_expired) (db_group Sample.post_expired).

End ThreadSample.

(** * Properties *)

Unset Implicit Arguments.

(** ** The monad and its traces *)

Section Emits.
Variable f : Event -> bool.

Lemma only_nil : only f [].
Proof. constructor. Qed.

Lemma only_app (l1 l2 : Trace) : only f l1 -> only f l2 -> only f (l1 ++ l2).
Proof. intros H1 H2. apply Forall_app. split; assumption. Qed.

Lemma emits_ret A (a : A) : emits f (ret a).
Proof. intros s. exists []. simpl. rewrite app_nil_r. split; [reflexivity | apply only_nil]. Qed.

Lemma emits_throw A (e : JsError) : emits f (@throw A e).
Proof. intros s. exists []. simpl. rewrite app_nil_r. split; [reflexivity | apply only_nil]. Qed.

Lemma emits_out_of_fuel A : emits f (@out_of_fuel A).
Proof. intros s. exists []. simpl. rewrite app_nil_r. split; [reflexivity | apply only_nil]. Qed.

Lemma emits_get_creds : emits f get_creds.
Proof. intros s. exists []. simpl. rewrite app_nil_r. split; [reflexivity | apply only_nil]. Qed.

Lemma emits_set_creds c : emits f (set_creds c).
Proof. intros s. exists []. simpl. rewrite app_nil_r. split; [reflexivity | apply only_nil]. Qed.

Lemma emits_parsed A (r : Reply A) : emits f (parsed r).
Proof. destruct r; [apply emits_throw | apply emits_ret]. Qed.

Lemma emits_perform A (ev : Event) (oracle : Trace -> Reply A) :
  f ev = true -> emits f (perform ev oracle).
Proof.
  intros Hev s. exists [ev]. unfold perform.
  destruct (oracle (trace s ++ [ev])); simpl; (split; [reflexivity | ]);
    constructor; auto; constructor.
Qed.

Lemma emits_log_event (ev : Event) : f ev = true -> emits f (log_event ev).
Proof.
  intros Hev s. exists [ev]. simpl. split; [reflexivity | ].
  constructor; auto; constructor.
Qed.

Lemma emits_bind A B (m : M A) (k : A -> M B) :
  emits f m -> (forall a, emits f (k a)) -> emits f (bind m k).
Proof.
  intros Hm Hk s. unfold bind.
  destruct (Hm s) as [evs [Ht Ho]].
  destruct (m s) as [[a | e |] s1]; simpl in Ht.
  - destruct (Hk a s1) as [evs2 [Ht2 Ho2]].
    exists (evs ++ evs2). rewrite Ht2, Ht, app_assoc.
    split; [reflexivity | apply only_app; assumption].
  - exists evs. simpl. split; assumption.
  - exists evs. simpl. split; assumption.
Qed.

Lemma emits_try_catch A (m : M A) (h : JsError -> M A) :
  emits f m -> (forall e, emits f (h e)) -> emits f (try_catch m h).
Proof.
  intros Hm Hh s. unfold try_catch.
  destruct (Hm s) as [evs [Ht Ho]].
  destruct (m s) as [[a | e |] s1]; simpl in Ht.
  - exists evs. simpl. split; assumption.
  - destruct (Hh e s1) as [evs2 [Ht2 Ho2]].
    exists (evs ++ evs2). rewrite Ht2, Ht, app_assoc.
    split; [reflexivity | apply only_app; assumption].
  - exists evs. simpl. split; assumption.
Qed.

Lemma emits_attempt A (m : M A) : emits f m -> emits f (attempt m).
Proof.
  intros Hm. unfold attempt. apply emits_try_catch.
  - apply emits_bind; [assumption | intros; apply emits_ret].
  - intros. apply emits_ret.
Qed.

Lemma emits_for_of A S (body : A -> S -> M (Ctl S)) (l : list A) :
  (forall x s, emits f (body x s)) -> forall s, emits f (for_of body l s).
Proof.
  intros Hb. induction l as [| x rest IH]; intros s; simpl.
  - apply emits_ret.
  - apply emits_bind; [apply Hb | ].
    intros [s1 | s1]; [apply IH | apply emits_ret].
Qed.

End Emits.

Lemma emits_weaken A (f g : Event -> bool) (m : M A) :
  (forall ev, f ev = true -> g ev = true) -> emits f m -> emits g m.
Proof.
  intros Hfg Hm s. destruct (Hm s) as [evs [Ht Ho]].
  exists evs. split; [assumption | ].
  unfold only in *. eapply Forall_impl; [ | exact Ho]. intros ev. apply Hfg.
Qed.

Lemma headed_perform_bind A B (ev : Event) (oracle : Trace -> Reply A)
    (k : A -> M B) (f : Event -> bool) :
  (forall a, emits f (k a)) -> emits_headed ev f (bind (perform ev oracle) k).
Proof.
  intros Hk s. unfold bind, perform.
  destruct (oracle (trace s ++ [ev])) as [e | a]; simpl.
  - exists []. split; [reflexivity | constructor].
  - destruct (Hk a (mkState (trace s ++ [ev]) (creds s))) as [evs [Ht Ho]].
    exists evs. simpl in Ht. rewrite Ht, <- app_assoc. split; [reflexivity | exact Ho].
Qed.

Lemma headed_bind A B (ev : Event) (f : Event -> bool) (m : M A) (k : A -> M B) :
  emits_headed ev f m -> (forall a, emits f (k a)) -> emits_headed ev f (bind m k).
Proof.
  intros Hm Hk s. unfold bind.
  destruct (Hm s) as [rest [Ht Ho]].
  destruct (m s) as [[a | e |] s1]; simpl in Ht.
  - destruct (Hk a s1) as [evs [Ht2 Ho2]].
    exists (rest ++ evs). rewrite Ht2, Ht, <- app_assoc.
    split; [reflexivity | apply only_app; assumption].
  - exists rest. split; assumption.
  - exists rest. split; assumption.
Qed.

Lemma headed_try_catch A (ev : Event) (f : Event -> bool) (m : M A)
    (h : JsError -> M A) :
  emits_headed ev f m -> (forall e, emits f (h e)) ->
  emits_headed ev f (try_catch m h).
Proof.
  intros Hm Hh s. unfold try_catch.
  destruct (Hm s) as [rest [Ht Ho]].
  destruct (m s) as [[a | e |] s1]; simpl in Ht.
  - exists rest. split; assumption.
  - destruct (Hh e s1) as [evs [Ht2 Ho2]].
    exists (rest ++ evs). rewrite Ht2, Ht, <- app_assoc.
    split; [reflexivity | apply only_app; assumption].
  - exists rest. split; assumption.
Qed.

Lemma events_since_app (s s' : State) (evs : Trace) :
  trace s' = trace s ++ evs -> events_since s s' = evs.
Proof.
  intros H. unfold events_since. rewrite H.
  rewrite skipn_app, skipn_all, Nat.sub_diag. reflexivity.
Qed.

Lemma emits_events_since A (f : Event -> bool) (m : M A) (s : State) :
  emits f m ->
  trace (snd (m s)) = trace s ++ events_since s (snd (m s))
  /\ only f (events_since s (snd (m s))).
Proof.
  intros Hm. destruct (Hm s) as [evs [Ht Ho]].
  rewrite (@events_since_app _ _ _ Ht). split; assumption.
Qed.

(** Steps through a computation built from the combinators above. *)
Ltac emits_step :=
  first
    [ apply emits_ret | apply emits_throw | apply emits_out_of_fuel
    | apply emits_get_creds | apply emits_set_creds | apply emits_parsed
    | apply emits_perform; reflexivity
    | apply emits_log_event; reflexivity
    | apply emits_bind; [ | intros ]
    | apply emits_try_catch; [ | intros ]
    | apply emits_attempt
    | match goal with
      | |- emits _ (if ?b then _ else _) => destruct b
      | |- emits _ (match ?x with _ => _ end) => destruct x
      | |- emits _ (let '(_, _) := ?x in _) => destruct x
      end ].

Ltac emits_auto := repeat emits_step.

(** Running a [bind] whose first part is known. *)
Lemma bind_ok A B (m : M A) (k : A -> M B) s a s1 :
  m s = (Ok a, s1) -> bind m k s = k a s1.
Proof. intros H. unfold bind. rewrite H. reflexivity. Qed.

Lemma bind_throw A B (m : M A) (k : A -> M B) s e s1 :
  m s = (Throw e, s1) -> bind m k s = (Throw e, s1).
Proof. intros H. unfold bind. rewrite H. reflexivity. Qed.

Lemma bind_get_creds B (k : Credentials -> M B) s :
  bind get_creds k s = k (creds s) s.
Proof. reflexivity. Qed.

(** ** What each function can emit *)

Section EmitsOf.
Variable env : Env.
Variable fuel : nat.

Lemma emits_poll_status mediaId tok p :
  emits is_upload_step (MediaUpload.poll_status env mediaId tok p).
Proof. unfold MediaUpload.poll_status. emits_auto. Qed.

Lemma emits_checkMediaProcessingStatus n mediaId tok p :
  emits is_upload_step (MediaUpload.checkMediaProcessingStatus env n mediaId tok p).
Proof.
  revert p. induction n as [| n IH]; intros p; simpl.
  - emits_auto.
  - destruct (state p =? "succeeded"); [emits_auto | ].
    emits_step; [apply emits_poll_status | ].
    destruct a; [apply IH | emits_auto].
Qed.

Lemma emits_upload_phases url tok :
  emits is_media_event (MediaUpload.upload_phases env url tok).
Proof. unfold MediaUpload.upload_phases. emits_auto. Qed.

Lemma emits_uploadMediaToTwitter url tok :
  emits is_media_event (MediaUpload.uploadMediaToTwitter env fuel url tok).
Proof.
  unfold MediaUpload.uploadMediaToTwitter.
  emits_step; [ | emits_auto].
  emits_step; [apply emits_upload_phases | ].
  destruct a as [mediaId [p |]]; [ | emits_auto].
  emits_step; [ | emits_auto].
  eapply emits_weaken; [ | apply emits_checkMediaProcessingStatus].
  intros [] H; try discriminate; reflexivity.
Qed.

Lemma emits_utils_publishTweet tok payload :
  emits is_post (Utils.publishTweet env tok payload).
Proof. unfold Utils.publishTweet. emits_auto. Qed.

Lemma emits_refreshTwitterAccessToken c :
  emits is_refresh (Utils.refreshTwitterAccessToken env c).
Proof.
  unfold Utils.refreshTwitterAccessToken, Utils.refreshOAuthToken. emits_auto.
Qed.

Lemma emits_refresh_and_persist :
  emits is_upload_event (Service.refresh_and_persist env).
Proof.
  unfold Service.refresh_and_persist, Service.updateTwitterCredentials.
  emits_step; [emits_auto | ].
  emits_step.
  - eapply emits_weaken; [ | apply emits_refreshTwitterAccessToken].
    intros [] H; try discriminate; reflexivity.
  - destruct a0 as [[newA newR] ex]. emits_auto.
Qed.

Lemma emits_uploadMedia_rec depth url retryCount :
  emits is_upload_event (Service.uploadMedia_rec env fuel depth url retryCount).
Proof.
  revert retryCount. induction depth as [| d IH]; intros retryCount; simpl.
  - emits_auto.
  - emits_step; [emits_auto | ].
    emits_step.
    + emits_step; [ | emits_auto].
      eapply emits_weaken; [ | apply emits_uploadMediaToTwitter].
      intros [] H; try discriminate; reflexivity.
    + emits_step; [emits_auto | ].
      destruct (_ && _); [ | emits_auto].
      emits_step; [ | apply IH].
      emits_step; [ | emits_auto].
      emits_step; [apply emits_refresh_and_persist | ].
      destruct a1. emits_auto.
Qed.

Lemma emits_prepareTweetPayload options tok :
  emits is_upload_event (Service.prepareTweetPayload env fuel options tok).
Proof.
  unfold Service.prepareTweetPayload, Service.uploadMedia.
  emits_step; [ | emits_auto].
  destruct (_ && _); [ | emits_auto].
  emits_step; [apply emits_uploadMedia_rec | emits_auto].
Qed.

Lemma upload_is_publish ev : is_upload_event ev = true -> is_publish_event ev = true.
Proof. unfold is_publish_event. intros ->. reflexivity. Qed.

Lemma post_is_publish ev : is_post ev = true -> is_publish_event ev = true.
Proof. unfold is_publish_event. intros ->. apply orb_true_r. Qed.

Lemma emits_first_attempt options tok :
  emits is_publish_event (Service.first_attempt env fuel options tok).
Proof.
  unfold Service.first_attempt, Service.data_id.
  emits_step.
  { eapply emits_weaken; [apply upload_is_publish | apply emits_prepareTweetPayload]. }
  emits_step.
  { eapply emits_weaken; [apply post_is_publish | apply emits_utils_publishTweet]. }
  emits_auto.
Qed.

Lemma emits_retry_attempt options :
  emits is_publish_event (Service.retry_attempt env fuel options).
Proof.
  unfold Service.retry_attempt, Service.data_id.
  emits_step.
  { eapply emits_weaken; [apply upload_is_publish | apply emits_refresh_and_persist]. }
  destruct a as [newA newR].
  emits_step.
  { eapply emits_weaken; [apply upload_is_publish | apply emits_prepareTweetPayload]. }
  emits_step.
  { eapply emits_weaken; [apply post_is_publish | apply emits_utils_publishTweet]. }
  emits_auto.
Qed.

Lemma emits_publishTweetWithRefresh options :
  emits is_publish_event (Service.publishTweetWithRefresh env fuel options).
Proof.
  unfold Service.publishTweetWithRefresh.
  emits_step; [emits_auto | ].
  emits_step; [apply emits_first_attempt | ].
  emits_step; [emits_auto | ].
  destruct (_ && _); [ | emits_auto].
  emits_step; [apply emits_retry_attempt | emits_auto].
Qed.

Lemma emits_verifyProjectAccess user projectId :
  emits is_access_read (Service.verifyProjectAccess env user projectId).
Proof. unfold Service.verifyProjectAccess. emits_auto. Qed.

Lemma emits_getTwitterCredentials user :
  emits is_credentials_read (Service.getTwitterCredentials env user).
Proof. unfold Service.getTwitterCredentials. emits_auto. Qed.

Lemma emits_getTweetGroup groupId :
  emits is_store_read (Groups.getTweetGroup env groupId).
Proof. unfold Groups.getTweetGroup. emits_auto. Qed.

Lemma emits_publish_checks user options :
  emits is_store_read (Service.publish_checks env user options).
Proof.
  unfold Service.publish_checks.
  destruct (_ || _); [emits_auto | ].
  emits_step.
  { eapply emits_weaken; [ | apply emits_verifyProjectAccess].
    intros [] H; try discriminate; reflexivity. }
  destruct (negb _); [emits_auto | ].
  emits_step.
  { destruct (truthy _); [ | emits_auto].
    emits_step; [apply emits_getTweetGroup | emits_auto]. }
  destruct a0; [emits_auto | ].
  emits_step.
  { eapply emits_weaken; [ | apply emits_getTwitterCredentials].
    intros [] H; try discriminate; reflexivity. }
  destruct a0; emits_auto.
Qed.

End EmitsOf.

(** ** Single posts: the post call and the auth retry *)

Section SinglePost.
Variable env : Env.
Variable fuel : nat.

(** The post call is one event, whatever its outcome. *)
Lemma utils_publishTweet_trace tok payload s :
  trace (snd (Utils.publishTweet env tok payload s))
  = trace s ++ [EvPostTweet tok payload]
  /\ creds (snd (Utils.publishTweet env tok payload s)) = creds s.
Proof.
  unfold Utils.publishTweet, bind, perform, parsed, throw, ret.
  destruct (net_post env (trace s ++ [EvPostTweet tok payload])) as [e | resp];
    simpl; [split; reflexivity | ].
  destruct (negb (post_ok resp)); destruct (post_json resp); simpl; split; reflexivity.
Qed.

(** A post the provider rejects with an HTTP status and a readable body. *)
Lemma utils_publishTweet_rejected tok payload s resp body :
  net_post env (trace s ++ [EvPostTweet tok payload]) = inr resp ->
  post_ok resp = false ->
  post_json resp = inr body ->
  Utils.publishTweet env tok payload s
  = (Throw (mkError (Utils.post_error_message body) (Some (post_status resp))
                    None None),
     mkState (trace s ++ [EvPostTweet tok payload]) (creds s)).
Proof.
  intros Hresp Hok Hbody.
  unfold Utils.publishTweet, bind, perform, parsed, throw.
  rewrite Hresp, Hok. simpl. rewrite Hbody. reflexivity.
Qed.

(** A post the provider rejects with a body that cannot be read: the error of
    reading it is the error raised. *)
Lemma utils_publishTweet_unreadable tok payload s resp readError :
  net_post env (trace s ++ [EvPostTweet tok payload]) = inr resp ->
  post_ok resp = false ->
  post_json resp = inl readError ->
  Utils.publishTweet env tok payload s
  = (Throw readError, mkState (trace s ++ [EvPostTweet tok payload]) (creds s)).
Proof.
  intros Hresp Hok Hbody.
  unfold Utils.publishTweet, bind, perform, parsed, throw.
  rewrite Hresp, Hok. simpl. rewrite Hbody. reflexivity.
Qed.

(** A post rejected with status 401 raises an auth error. *)
Lemma rejected_401_is_auth_error (body : PostJson) :
  Service.isAuthError
    (mkError (Utils.post_error_message body) (Some 401%Z) None None) = true.
Proof. reflexivity. Qed.

(** The first attempt fails with the error of its post call. *)
Lemma first_attempt_post_failure options s payload s1 e s2 :
  Service.prepareTweetPayload env fuel options (accessToken (creds s)) s
  = (Ok payload, s1) ->
  Utils.publishTweet env (accessToken (creds s)) payload s1 = (Throw e, s2) ->
  Service.first_attempt env fuel options (accessToken (creds s)) s = (Throw e, s2).
Proof.
  intros Hprep Hpost. unfold Service.first_attempt, bind.
  rewrite Hprep, Hpost. reflexivity.
Qed.

(** An error that is no auth error ends the publish where it was raised. *)
Lemma publish_non_auth options s e s1 :
  Service.first_attempt env fuel options (accessToken (creds s)) s = (Throw e, s1) ->
  Service.isAuthError e = false ->
  Service.publishTweetWithRefresh env fuel options s
  = (Ok (Service.api_error_result e), s1).
Proof.
  intros Hfirst Hauth.
  unfold Service.publishTweetWithRefresh, bind, get_creds, try_catch.
  rewrite Hfirst, Hauth. reflexivity.
Qed.

(** An auth error with a refresh token at hand hands over to the retry, whose
    own failure becomes the [token_expired] result. *)
Lemma publish_auth_retry options s e s1 :
  Service.first_attempt env fuel options (accessToken (creds s)) s = (Throw e, s1) ->
  Service.isAuthError e = true ->
  truthy (refreshToken (creds s1)) = true ->
  Service.publishTweetWithRefresh env fuel options s
  = match Service.retry_attempt env fuel options s1 with
    | (Ok res, s') => (Ok res, s')
    | (Throw e', s') => (Ok (Service.token_expired_result e'), s')
    | (OutOfFuel, s') => (OutOfFuel, s')
    end.
Proof.
  intros Hfirst Hauth Hrt.
  unfold Service.publishTweetWithRefresh, bind, get_creds, try_catch.
  rewrite Hfirst, Hauth, Hrt. simpl.
  destruct (Service.retry_attempt env fuel options s1) as [[res | e' |] s'];
    reflexivity.
Qed.

End SinglePost.

(** C9, as amended.  When the post call is rejected with a status other
    than 401 and the error it raises does not pass the code's test for 401
    otherwise -- with a readable body, the message of that error (the first
    error message of the body, else its detail, else 'Failed to publish
    tweet') does not contain the text 401; with a body that cannot be read,
    the error of reading it, which is the error raised, carries no 401 in
    its message, code or status -- [publishTweetWithRefresh] attempts no
    token refresh and no second post call: the rejected post call is the
    last event of the publish, and the result is unsuccessful with message
    'Failed to publish tweet' and code api_error. *)
Theorem non_auth_failure_reported_at_once
    (env : Env) (fuel : nat) (options : TweetOptions) (s s1 : State)
    (payload : TweetPayload) (resp : PostResponse) :
  Service.prepareTweetPayload env fuel options (accessToken (creds s)) s
  = (Ok payload, s1) ->
  net_post env (trace s1 ++ [EvPostTweet (accessToken (creds s)) payload])
  = inr resp ->
  post_ok resp = false ->
  post_status resp <> 401%Z ->
  match post_json resp with
  | inr body => includes "401" (Utils.post_error_message body) = false
  | inl readError => Service.isAuthError readError = false
  end ->
  exists res s',
    Service.publishTweetWithRefresh env fuel options s = (Ok res, s')
    /\ events_since s1 s' = [EvPostTweet (accessToken (creds s)) payload]
    /\ count_events is_refresh (events_since s1 s') = 0
    /\ success res = false
    /\ res_message res = "Failed to publish tweet"
    /\ option_map err_code (error res) = Some (Some (CodeStr "api_error")).
Proof.
  intros Hprep Hresp Hok Hstatus Hmsg.
  assert (Hraised : exists e,
            Utils.publishTweet env (accessToken (creds s)) payload s1
            = (Throw e,
               mkState (trace s1 ++ [EvPostTweet (accessToken (creds s)) payload])
                       (creds s1))
            /\ Service.isAuthError e = false).
  { destruct (post_json resp) as [readError | body] eqn:Hbody.
    - exists readError. split; [ | exact Hmsg].
      apply (utils_publishTweet_unreadable env _ _ _ _ _ Hresp Hok Hbody).
    - exists (mkError (Utils.post_error_message body) (Some (post_status resp))
                      None None).
      split; [apply (utils_publishTweet_rejected env _ _ _ _ _ Hresp Hok Hbody) | ].
      unfold Service.isAuthError. simpl. rewrite Hmsg.
      destruct (Z.eqb_spec (post_status resp) 401); [contradiction | reflexivity]. }
  destruct Hraised as [e [Hpost Hauth]].
  pose proof (first_attempt_post_failure env fuel options s _ _ _ _ Hprep Hpost) as Hfirst.
  eexists. eexists. split.
  - apply publish_non_auth; eassumption.
  - assert (Hev : events_since s1
                    (mkState (trace s1 ++ [EvPostTweet (accessToken (creds s)) payload])
                             (creds s1))
                  = [EvPostTweet (accessToken (creds s)) payload])
      by (apply events_since_app; reflexivity).
    rewrite Hev. repeat split; reflexivity.
Qed.

Lemma non_auth_failure_reported_at_once_witness :
  (exists res s',
     Service.publishTweetWithRefresh Sample.forbidden 0 Sample.plain Sample.start
     = (Ok res, s')
     /\ events_since Sample.start s'
        = [EvPostTweet "A1" (mkPayload "hello" None None)]
     /\ count_events is_refresh (events_since Sample.start s') = 0
     /\ success res = false
     /\ res_message res = "Failed to publish tweet"
     /\ option_map err_code (error res) = Some (Some (CodeStr "api_error")))
  /\ (exists res s',
        Service.publishTweetWithRefresh PostSample.bad_gateway 0 Sample.plain
          Sample.start
        = (Ok res, s')
        /\ events_since Sample.start s'
           = [EvPostTweet "A1" (mkPayload "hello" None None)]
        /\ count_events is_refresh (events_since Sample.start s') = 0
        /\ success res = false
        /\ res_message res = "Failed to publish tweet"
        /\ option_map err_code (error res) = Some (Some (CodeStr "api_error"))).
Proof.
  split.
  - apply (non_auth_failure_reported_at_once
             Sample.forbidden 0 Sample.plain Sample.start Sample.start
             (mkPayload "hello" None None)
             (Sample.rejected 403 "Forbidden")).
    + reflexivity.
    + reflexivity.
    + reflexivity.
    + simpl. lia.
    + reflexivity.
  - apply (non_auth_failure_reported_at_once
             PostSample.bad_gateway 0 Sample.plain Sample.start Sample.start
             (mkPayload "hello" None None)
             (mkPost false 502 (inl (Error "invalid json response body")))).
    + reflexivity.
    + reflexivity.
    + reflexivity.
    + simpl. lia.
    + reflexivity.
Defined.

(** C9 as stated fails: a post call rejected with status 403 whose detail
    contains the digits 401 is taken for an auth failure; the token is
    refreshed and the post is called a second time. *)
Lemma refresh_attempted_after_403 :
  net_post Sample.forbidden_401 [EvPostTweet "A1" (mkPayload "hello" None None)]
  = inr (mkPost false 403
           (inr (mkPostJson [] (Some "Forbidden (incident 4017)") None)))
  /\ Service.publishTweetWithRefresh Sample.forbidden_401 0 Sample.plain Sample.start
     = (Ok (Service.token_expired_result
              (mkError "Forbidden (incident 4017)" (Some 403%Z) None None)),
        mkState [EvPostTweet "A1" (mkPayload "hello" None None);
                 EvOAuthToken "cid" "secret" (Some "R1");
                 EvDbUpdateCredentials "u1" "A2" "R2";
                 EvPostTweet "A2" (mkPayload "hello" None None)]
                Sample.creds1).
Proof. split; reflexivity. Qed.

Lemma token_expired_result_reports e :
  reports_token_expired (Service.token_expired_result e).
Proof. repeat split. Qed.

(** The three ways [refresh_and_persist] goes on after a token exchange that
    succeeded. *)
Section RefreshAndPersist.
Variable env : Env.
Variables (s1 s2 : State) (newAccess newRefresh : string) (expires : option Z).
Hypothesis Hrefresh :
  Utils.refreshTwitterAccessToken env (creds s1) s1
  = (Ok (newAccess, newRefresh, expires), s2).

Lemma refresh_and_persist_no_user :
  truthy (userId (creds s2)) = false ->
  Service.refresh_and_persist env s1
  = (Throw (Error "User ID is required for token refresh"), s2).
Proof.
  intros Hu. unfold Service.refresh_and_persist.
  rewrite bind_get_creds, (bind_ok _ _ _ _ _ _ _ Hrefresh), bind_get_creds.
  rewrite Hu. reflexivity.
Qed.

Lemma refresh_and_persist_store_failure e' s3 :
  truthy (userId (creds s2)) = true ->
  Service.updateTwitterCredentials env (or_default (userId (creds s2)) "")
                                   newAccess newRefresh s2 = (Throw e', s3) ->
  Service.refresh_and_persist env s1 = (Throw e', s3).
Proof.
  intros Hu Hp. unfold Service.refresh_and_persist.
  rewrite bind_get_creds, (bind_ok _ _ _ _ _ _ _ Hrefresh), bind_get_creds.
  rewrite Hu. simpl. rewrite (bind_throw _ _ _ _ _ _ _ Hp). reflexivity.
Qed.

Lemma refresh_and_persist_ok s3 :
  truthy (userId (creds s2)) = true ->
  Service.updateTwitterCredentials env (or_default (userId (creds s2)) "")
                                   newAccess newRefresh s2 = (Ok tt, s3) ->
  Service.refresh_and_persist env s1 = (Ok (newAccess, newRefresh), s3).
Proof.
  intros Hu Hp. unfold Service.refresh_and_persist.
  rewrite bind_get_creds, (bind_ok _ _ _ _ _ _ _ Hrefresh), bind_get_creds.
  rewrite Hu. simpl. rewrite (bind_ok _ _ _ _ _ _ _ Hp). reflexivity.
Qed.

End RefreshAndPersist.

(** C10.  The first attempt has failed with an auth error, a refresh token is
    at hand and the token exchange has succeeded.  Then whatever fails in the
    rest of the retried attempt -- the user id is missing, the store rejects
    the new pair, the payload cannot be prepared again (the media upload
    fails), the retried post call fails with any error at all, or the answer
    to the retried post carries no data to read the id from -- the publish
    ends there and returns the unsuccessful result with message 'Twitter
    authentication failed', code token_expired and the request to reconnect
    the account.  These are not the only cases: every exception of the
    retried attempt, whatever raised it, gives that result, with the message
    of the exception as the original error; and a publish that got as far as
    the retry and reports a failure reports this one. *)
Theorem retry_failure_reported_as_token_expired
    (env : Env) (fuel : nat) (options : TweetOptions) (s s1 s2 : State)
    (e : JsError) (newAccess newRefresh : string) (expires : option Z) :
  Service.first_attempt env fuel options (accessToken (creds s)) s = (Throw e, s1) ->
  Service.isAuthError e = true ->
  truthy (refreshToken (creds s1)) = true ->
  Utils.refreshTwitterAccessToken env (creds s1) s1
  = (Ok (newAccess, newRefresh, expires), s2) ->
  let publish := Service.publishTweetWithRefresh env fuel options s in
  let persist :=
    Service.updateTwitterCredentials env (or_default (userId (creds s2)) "")
                                     newAccess newRefresh s2 in
  (truthy (userId (creds s2)) = false ->
   exists res, publish = (Ok res, s2) /\ reports_token_expired res)
  /\ (forall e' s3,
        truthy (userId (creds s2)) = true ->
        persist = (Throw e', s3) ->
        exists res, publish = (Ok res, s3) /\ reports_token_expired res)
  /\ (forall s3 e' s4,
        truthy (userId (creds s2)) = true ->
        persist = (Ok tt, s3) ->
        Service.prepareTweetPayload env fuel options newAccess s3 = (Throw e', s4) ->
        exists res, publish = (Ok res, s4) /\ reports_token_expired res)
  /\ (forall s3 payload s4 e' s5,
        truthy (userId (creds s2)) = true ->
        persist = (Ok tt, s3) ->
        Service.prepareTweetPayload env fuel options newAccess s3 = (Ok payload, s4) ->
        Utils.publishTweet env newAccess payload s4 = (Throw e', s5) ->
        exists res, publish = (Ok res, s5) /\ reports_token_expired res)
  /\ (forall s3 payload s4 body s5,
        truthy (userId (creds s2)) = true ->
        persist = (Ok tt, s3) ->
        Service.prepareTweetPayload env fuel options newAccess s3 = (Ok payload, s4) ->
        Utils.publishTweet env newAccess payload s4 = (Ok body, s5) ->
        pj_data body = None ->
        exists res, publish = (Ok res, s5) /\ reports_token_expired res)
  /\ (forall e' s',
        Service.retry_attempt env fuel options s1 = (Throw e', s') ->
        exists res,
          publish = (Ok res, s')
          /\ reports_token_expired res
          /\ option_map originalError (error res) = Some (Some (message e')))
  /\ (forall res s',
        publish = (Ok res, s') ->
        success res = false ->
        reports_token_expired res).
Proof.
  intros Hfirst Hauth Hrt Hrefresh publish persist.
  assert (Hretry : forall e' s',
             Service.retry_attempt env fuel options s1 = (Throw e', s') ->
             exists res,
               publish = (Ok res, s')
               /\ reports_token_expired res
               /\ option_map originalError (error res) = Some (Some (message e'))).
  { intros e' s' H. unfold publish.
    rewrite (publish_auth_retry env fuel options s e s1 Hfirst Hauth Hrt), H.
    eexists. split; [reflexivity | ].
    split; [apply token_expired_result_reports | reflexivity]. }
  assert (Hreported : forall e' s',
             Service.retry_attempt env fuel options s1 = (Throw e', s') ->
             exists res, publish = (Ok res, s') /\ reports_token_expired res).
  { intros e' s' H. destruct (Hretry e' s' H) as [res [Hres [Hrep _]]].
    exists res. split; assumption. }
  split; [ | split; [ | split; [ | split; [ | split; [ | split]]]]].
  - intros Hu. eapply Hreported. unfold Service.retry_attempt.
    apply bind_throw.
    apply (refresh_and_persist_no_user env s1 s2 _ _ _ Hrefresh Hu).
  - intros e' s3 Hu Hp. eapply Hreported. unfold Service.retry_attempt.
    apply bind_throw.
    apply (refresh_and_persist_store_failure env s1 s2 _ _ _ Hrefresh e' s3 Hu Hp).
  - intros s3 e' s4 Hu Hp Hprep. eapply Hreported. unfold Service.retry_attempt.
    rewrite (bind_ok _ _ _ _ _ _ _ (refresh_and_persist_ok env s1 s2 _ _ _ Hrefresh s3 Hu Hp)).
    apply bind_throw. exact Hprep.
  - intros s3 payload s4 e' s5 Hu Hp Hprep Hpost. eapply Hreported.
    unfold Service.retry_attempt.
    rewrite (bind_ok _ _ _ _ _ _ _ (refresh_and_persist_ok env s1 s2 _ _ _ Hrefresh s3 Hu Hp)).
    rewrite (bind_ok _ _ _ _ _ _ _ Hprep).
    apply bind_throw. exact Hpost.
  - intros s3 payload s4 body s5 Hu Hp Hprep Hpost Hdata. eapply Hreported.
    unfold Service.retry_attempt.
    rewrite (bind_ok _ _ _ _ _ _ _ (refresh_and_persist_ok env s1 s2 _ _ _ Hrefresh s3 Hu Hp)).
    rewrite (bind_ok _ _ _ _ _ _ _ Hprep).
    rewrite (bind_ok _ _ _ _ _ _ _ Hpost).
    apply bind_throw. unfold Service.data_id. rewrite Hdata. reflexivity.
  - exact Hretry.
  - intros res s' Hpublish Hfail. unfold publish in Hpublish.
    rewrite (publish_auth_retry env fuel options s e s1 Hfirst Hauth Hrt) in Hpublish.
    destruct (Service.retry_attempt env fuel options s1) as [[res' | e' |] s3] eqn:Hrun.
    + injection Hpublish as <- <-.
      unfold Service.retry_attempt in Hrun.
      unfold bind in Hrun.
      destruct (Service.refresh_and_persist env s1) as [[[a r] | e0 |] s4];
        try discriminate.
      destruct (Service.prepareTweetPayload env fuel options a s4)
        as [[payload | e0 |] s5]; try discriminate.
      destruct (Utils.publishTweet env a payload s5) as [[body | e0 |] s6];
        try discriminate.
      unfold Service.data_id in Hrun.
      destruct (pj_data body); unfold ret, throw in Hrun; try discriminate.
      injection Hrun as <- _. discriminate.
    + injection Hpublish as <- <-. apply token_expired_result_reports.
    + discriminate.
Qed.

Lemma retry_failure_reported_as_token_expired_witness :
  exists res,
    Service.publishTweetWithRefresh Sample.post_broken 0 Sample.plain Sample.start
    = (Ok res,
       mkState [EvPostTweet "A1" (mkPayload "hello" None None);
                EvOAuthToken "cid" "secret" (Some "R1");
                EvDbUpdateCredentials "u1" "A2" "R2";
                EvPostTweet "A2" (mkPayload "hello" None None)]
               Sample.creds1)
    /\ reports_token_expired res.
Proof.
  refine (proj1 (proj2 (proj2 (proj2
            (retry_failure_reported_as_token_expired
               Sample.post_broken 0 Sample.plain Sample.start
               (mkState [EvPostTweet "A1" (mkPayload "hello" None None)] Sample.creds1)
               (mkState [EvPostTweet "A1" (mkPayload "hello" None None);
                         EvOAuthToken "cid" "secret" (Some "R1")] Sample.creds1)
               (mkError "Unauthorized" (Some 401%Z) None None)
               "A2" "R2" (Some 7200%Z) _ _ _ _))))
            (mkState [EvPostTweet "A1" (mkPayload "hello" None None);
                      EvOAuthToken "cid" "secret" (Some "R1");
                      EvDbUpdateCredentials "u1" "A2" "R2"] Sample.creds1)
            (mkPayload "hello" None None)
            (mkState [EvPostTweet "A1" (mkPayload "hello" None None);
                      EvOAuthToken "cid" "secret" (Some "R1");
                      EvDbUpdateCredentials "u1" "A2" "R2"] Sample.creds1)
            (mkError "Internal error" (Some 500%Z) None None)
            _ _ _ _ _); reflexivity.
Defined.

(** ** Counting events *)

Lemma count_events_app f (l1 l2 : Trace) :
  count_events f (l1 ++ l2) = count_events f l1 + count_events f l2.
Proof. unfold count_events. rewrite filter_app, length_app. reflexivity. Qed.

Lemma count_events_none f g (l : Trace) :
  (forall ev, g ev = true -> f ev = false) -> only g l -> count_events f l = 0.
Proof.
  intros Hgf Hl. unfold count_events.
  induction Hl as [| ev l Hev _ IH]; simpl; [reflexivity | ].
  rewrite (Hgf ev Hev). exact IH.
Qed.

Lemma upload_event_not_post ev : is_upload_event ev = true -> is_post ev = false.
Proof. destruct ev; simpl; intros H; try reflexivity; discriminate. Qed.

(** In a trace of upload events closed by at most one post call, nothing
    follows a post call. *)
Lemma post_call_is_last (mid last l1 l2 : Trace) (ev : Event) :
  only is_upload_event mid ->
  (last = [] \/ exists tok p, last = [EvPostTweet tok p]) ->
  mid ++ last = l1 ++ ev :: l2 ->
  is_post ev = true ->
  l2 = [].
Proof.
  intros Hmid Hlast. revert l1.
  induction Hmid as [| x mid Hx _ IH]; intros l1 Heq Hpost; simpl in Heq.
  - destruct Hlast as [-> | [tok [p ->]]].
    + destruct l1; discriminate.
    + destruct l1 as [| y l1]; simpl in Heq.
      * injection Heq as _ <-. reflexivity.
      * injection Heq as _ Heq. destruct l1; discriminate.
  - destruct l1 as [| y l1]; simpl in Heq.
    + injection Heq as -> _.
      rewrite (upload_event_not_post _ Hx) in Hpost. discriminate.
    + injection Heq as _ Heq. apply (IH l1 Heq Hpost).
Qed.

Section RetryShape.
Variable env : Env.
Variable fuel : nat.

(** A token exchange is one event, whatever its outcome, and leaves the
    credentials in memory as they are. *)
Lemma refreshTwitterAccessToken_trace c s :
  trace (snd (Utils.refreshTwitterAccessToken env c s))
  = trace s ++ [EvOAuthToken (clientId c) (clientSecret c) (refreshToken c)]
  /\ creds (snd (Utils.refreshTwitterAccessToken env c s)) = creds s.
Proof.
  unfold Utils.refreshTwitterAccessToken, Utils.refreshOAuthToken.
  unfold bind, try_catch, perform, parsed, throw, ret.
  destruct (net_oauth env _) as [e | resp]; simpl; [split; reflexivity | ].
  destruct (negb (tok_ok resp)); destruct (tok_json resp) as [e | [| | t]]; simpl;
    try (split; reflexivity).
  destruct (negb (truthy (access_token t)) || negb (truthy (refresh_token t)));
    simpl; split; reflexivity.
Qed.

(** The refresh step opens with the token exchange and adds at most the
    persisting of the new pair. *)
Lemma refresh_and_persist_trace s :
  exists rest,
    trace (snd (Service.refresh_and_persist env s))
    = trace s ++ EvOAuthToken (clientId (creds s)) (clientSecret (creds s))
                              (refreshToken (creds s)) :: rest
    /\ (rest = [] \/ exists u a r, rest = [EvDbUpdateCredentials u a r])
    /\ creds (snd (Service.refresh_and_persist env s)) = creds s.
Proof.
  destruct (refreshTwitterAccessToken_trace (creds s) s) as [Ht Hc].
  unfold Service.refresh_and_persist, Service.updateTwitterCredentials.
  unfold bind, get_creds, perform, throw, ret.
  destruct (Utils.refreshTwitterAccessToken env (creds s) s)
    as [[[[newA newR] ex] | e |] s2]; simpl in Ht, Hc; simpl.
  2, 3: exists []; rewrite Ht; repeat split; auto.
  destruct (negb (truthy (userId (creds s2)))); simpl.
  - exists []. rewrite Ht. repeat split; auto.
  - exists [EvDbUpdateCredentials (or_default (userId (creds s2)) "") newA newR].
    destruct (db_update_credentials env _); simpl; rewrite Ht, <- app_assoc;
      repeat split; eauto.
Qed.

Lemma persist_events rest :
  rest = [] \/ (exists u a r, rest = [EvDbUpdateCredentials u a r]) ->
  only is_upload_event rest
  /\ count_events is_refresh rest = 0
  /\ count_events is_upload_attempt rest = 0.
Proof.
  intros [-> | [u [a [r ->]]]]; repeat split; repeat constructor.
Qed.

(** Without an image URL the payload is built without any call. *)
Lemma prepareTweetPayload_no_image options tok s :
  truthy (o_imageUrl options) = false ->
  exists payload,
    Service.prepareTweetPayload env fuel options tok s = (Ok payload, s).
Proof.
  intros Himg. unfold Service.prepareTweetPayload. rewrite Himg. simpl.
  eexists. reflexivity.
Qed.

Lemma prepareTweetPayload_trace options tok s :
  exists evs,
    trace (snd (Service.prepareTweetPayload env fuel options tok s))
    = trace s ++ evs
    /\ only is_upload_event evs
    /\ (truthy (o_imageUrl options) = false -> evs = []).
Proof.
  destruct (emits_prepareTweetPayload env fuel options tok s) as [evs [Ht Ho]].
  exists evs. repeat split; try assumption.
  intros Himg.
  destruct (prepareTweetPayload_no_image options tok s Himg) as [payload Hp].
  rewrite Hp in Ht. simpl in Ht.
  rewrite <- (app_nil_r (trace s)) in Ht at 1.
  apply app_inv_head in Ht. symmetry. exact Ht.
Qed.

(** The retried attempt: the token exchange, then persisting and preparing,
    then at most one post call, which is its last event. *)
Lemma retry_attempt_shape options s :
  exists mid last,
    trace (snd (Service.retry_attempt env fuel options s))
    = trace s ++ EvOAuthToken (clientId (creds s)) (clientSecret (creds s))
                              (refreshToken (creds s)) :: mid ++ last
    /\ only is_upload_event mid
    /\ (truthy (o_imageUrl options) = false -> count_events is_refresh mid = 0)
    /\ (last = [] \/ exists tok p, last = [EvPostTweet tok p])
    /\ (forall newAccess newRefresh s3 payload s4,
          Service.refresh_and_persist env s = (Ok (newAccess, newRefresh), s3) ->
          Service.prepareTweetPayload env fuel options newAccess s3
          = (Ok payload, s4) ->
          last = [EvPostTweet newAccess payload]).
Proof.
  destruct (refresh_and_persist_trace s) as [rest [Ht [Hrest _]]].
  destruct (persist_events rest Hrest) as [Ho [Hc _]].
  unfold Service.retry_attempt. unfold bind at 1.
  destruct (Service.refresh_and_persist env s) as [[[newA newR] | e |] s3] eqn:Hrp;
    simpl in Ht.
  2, 3: exists rest, []; simpl; rewrite app_nil_r;
        repeat split; auto; intros; discriminate.
  destruct (prepareTweetPayload_trace options newA s3) as [evs [Ht2 [Ho2 Hn2]]].
  unfold bind at 1.
  destruct (Service.prepareTweetPayload env fuel options newA s3)
    as [[payload | e |] s4] eqn:Hprep; simpl in Ht2.
  2, 3: exists (rest ++ evs), []; simpl; rewrite app_nil_r, Ht2, Ht, <- app_assoc;
        simpl; repeat split; auto;
        [ apply only_app; assumption
        | intros Himg; rewrite (Hn2 Himg), app_nil_r; exact Hc
        | intros a r s3' payload' s4' H1 H2; injection H1 as <- <- <-;
          rewrite Hprep in H2; discriminate ].
  exists (rest ++ evs), [EvPostTweet newA payload].
  destruct (utils_publishTweet_trace env newA payload s4) as [Ht3 _].
  assert (Hfin : trace (snd (bind (Utils.publishTweet env newA payload)
                               (fun publishedTweet =>
                                  bind (Service.data_id publishedTweet)
                                    (fun id =>
                                       ret (mkResult true id None
                                              "Tweet published successfully after refreshing credentials"
                                              None))) s4))
                 = trace s4 ++ [EvPostTweet newA payload]).
  { unfold bind at 1.
    destruct (Utils.publishTweet env newA payload s4) as [[pj | e |] s5];
      simpl in Ht3; simpl; try exact Ht3.
    unfold Service.data_id, bind, ret, throw.
    destruct (pj_data pj); simpl; exact Ht3. }
  rewrite Hfin, Ht2, Ht. rewrite <- ?app_assoc. simpl. rewrite <- ?app_assoc.
  repeat split.
  - apply only_app; assumption.
  - intros Himg. rewrite (Hn2 Himg), app_nil_r. exact Hc.
  - right. eauto.
  - intros a r s3' payload' s4' H1 H2.
    injection H1 as <- <- <-. rewrite Hprep in H2. injection H2 as <- <-.
    reflexivity.
Qed.

End RetryShape.

(** A retried attempt that returns returns a success. *)
Lemma retry_attempt_success env fuel options s res s' :
  Service.retry_attempt env fuel options s = (Ok res, s') -> success res = true.
Proof.
  unfold Service.retry_attempt, Service.data_id. unfold bind at 1.
  destruct (Service.refresh_and_persist env s) as [[[newA newR] | e |] s3];
    try discriminate.
  unfold bind at 1.
  destruct (Service.prepareTweetPayload env fuel options newA s3)
    as [[payload | e |] s4]; try discriminate.
  unfold bind at 1.
  destruct (Utils.publishTweet env newA payload s4) as [[pj | e |] s5];
    try discriminate.
  unfold bind, ret, throw.
  destruct (pj_data pj); intros H; try discriminate.
  injection H as <- _. reflexivity.
Qed.

(** C1, as amended.  The post call of a single-post publish fails with an
    auth error and the credentials hold a refresh token.  Then the publish
    path makes one token exchange, right after the failed post call, and at
    most one more post call, after which nothing follows: no second retry and
    no further refresh.  It makes exactly one more post call when the refresh
    step and the second preparing of the payload succeed.  Without an image
    URL the token exchange is the only one of the retry; with one, the media
    upload inside an attempt runs its own auth retry.  Whenever the retried
    attempt fails the publish returns, unsuccessful, with code
    token_expired; it never throws. *)
Theorem auth_failure_retried_once
    (env : Env) (fuel : nat) (options : TweetOptions) (s s1 s2 : State)
    (payload : TweetPayload) (e : JsError) :
  Service.prepareTweetPayload env fuel options (accessToken (creds s)) s
  = (Ok payload, s1) ->
  Utils.publishTweet env (accessToken (creds s)) payload s1 = (Throw e, s2) ->
  Service.isAuthError e = true ->
  truthy (refreshToken (creds s2)) = true ->
  exists r s' rest,
    Service.publishTweetWithRefresh env fuel options s = (r, s')
    /\ events_since s2 s'
       = EvOAuthToken (clientId (creds s2)) (clientSecret (creds s2))
                      (refreshToken (creds s2)) :: rest
    /\ count_events is_post rest <= 1
    /\ (forall l1 ev l2, rest = l1 ++ ev :: l2 -> is_post ev = true -> l2 = [])
    /\ (truthy (o_imageUrl options) = false -> count_events is_refresh rest = 0)
    /\ (forall newAccess newRefresh s3 payload' s4,
          Service.refresh_and_persist env s2 = (Ok (newAccess, newRefresh), s3) ->
          Service.prepareTweetPayload env fuel options newAccess s3
          = (Ok payload', s4) ->
          count_events is_post rest = 1)
    /\ (forall e' s3,
          Service.retry_attempt env fuel options s2 = (Throw e', s3) ->
          r = Ok (Service.token_expired_result e') /\ s' = s3)
    /\ (forall res, r = Ok res -> success res = false -> reports_token_expired res)
    /\ (forall e', r <> Throw e').
Proof.
  intros Hprep Hpost Hauth Hrt.
  pose proof (first_attempt_post_failure env fuel options s _ _ _ _ Hprep Hpost)
    as Hfirst.
  pose proof (publish_auth_retry env fuel options s e s2 Hfirst Hauth Hrt) as Hpub.
  destruct (retry_attempt_shape env fuel options s2)
    as [mid [last [Ht [Hmid [Hnoimg [Hlast Hexact]]]]]].
  assert (Hcount_mid : count_events is_post mid = 0)
    by (apply (count_events_none is_post is_upload_event);
        [apply upload_event_not_post | exact Hmid]).
  assert (Hsnd : snd (Service.publishTweetWithRefresh env fuel options s)
                 = snd (Service.retry_attempt env fuel options s2)).
  { rewrite Hpub.
    destruct (Service.retry_attempt env fuel options s2) as [[res | e' |] s3];
      reflexivity. }
  exists (fst (Service.publishTweetWithRefresh env fuel options s)),
         (snd (Service.publishTweetWithRefresh env fuel options s)),
         (mid ++ last).
  split; [apply surjective_pairing | ].
  split; [rewrite Hsnd; apply events_since_app; exact Ht | ].
  split.
  { rewrite count_events_app, Hcount_mid.
    destruct Hlast as [-> | [tok [p ->]]]; unfold count_events; simpl; lia. }
  split.
  { intros l1 ev l2 Heq Hev. exact (post_call_is_last _ _ _ _ _ Hmid Hlast Heq Hev). }
  split.
  { intros Himg. rewrite count_events_app, (Hnoimg Himg).
    destruct Hlast as [-> | [tok [p ->]]]; reflexivity. }
  split.
  { intros newA newR s3 payload' s4 Hrp Hprep'.
    rewrite count_events_app, Hcount_mid, (Hexact _ _ _ _ _ Hrp Hprep').
    reflexivity. }
  split.
  { intros e' s3 Hretry. rewrite Hpub, Hretry. split; reflexivity. }
  split.
  { intros res. rewrite Hpub.
    destruct (Service.retry_attempt env fuel options s2) as [[res' | e' |] s3]
      eqn:Hretry; simpl; intros Hres Hfail; try discriminate.
    - injection Hres as ->.
      rewrite (retry_attempt_success _ _ _ _ _ _ Hretry) in Hfail. discriminate.
    - injection Hres as <-. apply token_expired_result_reports. }
  intros e'. rewrite Hpub.
  destruct (Service.retry_attempt env fuel options s2) as [[res' | e'' |] s3];
    simpl; discriminate.
Qed.

Lemma auth_failure_retried_once_witness :
  exists r s' rest,
    Service.publishTweetWithRefresh Sample.post_expired 0 Sample.plain Sample.start
    = (r, s')
    /\ events_since
         (mkState [EvPostTweet "A1" (mkPayload "hello" None None)] Sample.creds1) s'
       = EvOAuthToken "cid" "secret" (Some "R1") :: rest
    /\ count_events is_post rest <= 1
    /\ (forall l1 ev l2, rest = l1 ++ ev :: l2 -> is_post ev = true -> l2 = [])
    /\ (truthy (o_imageUrl Sample.plain) = false -> count_events is_refresh rest = 0)
    /\ (forall newAccess newRefresh s3 payload' s4,
          Service.refresh_and_persist Sample.post_expired
            (mkState [EvPostTweet "A1" (mkPayload "hello" None None)] Sample.creds1)
          = (Ok (newAccess, newRefresh), s3) ->
          Service.prepareTweetPayload Sample.post_expired 0 Sample.plain newAccess s3
          = (Ok payload', s4) ->
          count_events is_post rest = 1)
    /\ (forall e' s3,
          Service.retry_attempt Sample.post_expired 0 Sample.plain
            (mkState [EvPostTweet "A1" (mkPayload "hello" None None)] Sample.creds1)
          = (Throw e', s3) ->
          r = Ok (Service.token_expired_result e') /\ s' = s3)
    /\ (forall res, r = Ok res -> success res = false -> reports_token_expired res)
    /\ (forall e', r <> Throw e').
Proof.
  apply (auth_failure_retried_once
           Sample.post_expired 0 Sample.plain Sample.start Sample.start
           (mkState [EvPostTweet "A1" (mkPayload "hello" None None)] Sample.creds1)
           (mkPayload "hello" None None)
           (mkError "Unauthorized" (Some 401%Z) None None)).
  - reflexivity.
  - reflexivity.
  - reflexivity.
  - reflexivity.
Defined.

(** C1 as stated fails.  The access token A1 has expired and the draft has an
    image: the upload is refused with 401, [uploadMedia] exchanges the
    refresh token R1 and uploads again with A2; the post call still carries
    A1 and is refused with 401; the publish path exchanges a refresh token a
    second time, is refused, and ends.  Two token exchanges, one post call
    and no retried one. *)
Lemma two_refresh_attempts_no_retried_post :
  Service.publishTweetWithRefresh Sample.expired 0 Sample.pictured Sample.start
  = (Ok (Service.token_expired_result
           (mkError "Value passed for the token was invalid." (Some 400%Z) None None)),
     mkState [EvFetchHead "https://img.example/a.png";
              EvUploadInit "A1" "image/png" "1024";
              EvOAuthToken "cid" "secret" (Some "R1");
              EvDbUpdateCredentials "u1" "A2" "R2";
              EvFetchHead "https://img.example/a.png";
              EvUploadInit "A2" "image/png" "1024";
              EvFetchImage "https://img.example/a.png";
              EvUploadAppend "A2" "m1" "bytes";
              EvUploadFinalize "A2" "m1";
              EvPostTweet "A1" (mkPayload "hello" (Some ["m1"]) None);
              EvOAuthToken "cid" "secret" (Some "R2")]
             (mkCredentials "A2" (Some "R2") "cid" "secret" (Some "u1")))
  /\ net_post Sample.expired
       [EvFetchHead "https://img.example/a.png";
        EvUploadInit "A1" "image/png" "1024";
        EvOAuthToken "cid" "secret" (Some "R1");
        EvDbUpdateCredentials "u1" "A2" "R2";
        EvFetchHead "https://img.example/a.png";
        EvUploadInit "A2" "image/png" "1024";
        EvFetchImage "https://img.example/a.png";
        EvUploadAppend "A2" "m1" "bytes";
        EvUploadFinalize "A2" "m1";
        EvPostTweet "A1" (mkPayload "hello" (Some ["m1"]) None)]
     = inr (mkPost false 401 (inr (mkPostJson [] (Some "Unauthorized") None))).
Proof. split; reflexivity. Qed.

(** ** Media upload: the auth retry of [uploadMedia] *)

Section UploadRetry.
Variable env : Env.
Variable fuel : nat.

Lemma upload_step_not_attempt ev :
  is_upload_step ev = true -> is_upload_attempt ev = false.
Proof. destruct ev; simpl; intros H; try reflexivity; discriminate. Qed.

Lemma upload_step_not_refresh ev :
  is_upload_step ev = true -> is_refresh ev = false.
Proof. destruct ev; simpl; intros H; try reflexivity; discriminate. Qed.

(** One run of [uploadMediaToTwitter] is one HEAD of the image followed by
    upload steps. *)
Lemma uploadMediaToTwitter_headed url tok :
  emits_headed (EvFetchHead url) is_upload_step
               (MediaUpload.uploadMediaToTwitter env fuel url tok).
Proof.
  unfold MediaUpload.uploadMediaToTwitter, MediaUpload.upload_phases.
  apply headed_try_catch; [ | intros; emits_auto].
  apply headed_bind.
  - apply headed_perform_bind. intros. emits_auto.
  - intros [mediaId [p |]]; [ | emits_auto].
    emits_step; [apply emits_checkMediaProcessingStatus | emits_auto].
Qed.

(** The events of [uploadMedia] started with [retryCount] retries behind it:
    at most [3 - retryCount] runs of the upload and [2 - retryCount] token
    exchanges. *)
Lemma uploadMedia_rec_bound depth url retryCount s :
  exists evs,
    trace (snd (Service.uploadMedia_rec env fuel depth url retryCount s))
    = trace s ++ evs
    /\ count_events is_upload_attempt evs <= S (2 - retryCount)
    /\ count_events is_refresh evs <= 2 - retryCount.
Proof.
  revert retryCount s. induction depth as [| d IH]; intros retryCount s.
  - exists []. simpl. rewrite app_nil_r. repeat split; unfold count_events; simpl; lia.
  - simpl. rewrite bind_get_creds. unfold try_catch at 1. unfold bind at 1.
    destruct (uploadMediaToTwitter_headed url (accessToken (creds s)) s)
      as [rest [Ht Ho]].
    assert (Hhead : count_events is_upload_attempt (EvFetchHead url :: rest) = 1).
    { change (EvFetchHead url :: rest) with ([EvFetchHead url] ++ rest).
      rewrite count_events_app,
        (count_events_none is_upload_attempt is_upload_step rest
                           upload_step_not_attempt Ho).
      reflexivity. }
    assert (Hnoref : count_events is_refresh (EvFetchHead url :: rest) = 0).
    { change (EvFetchHead url :: rest) with ([EvFetchHead url] ++ rest).
      rewrite count_events_app,
        (count_events_none is_refresh is_upload_step rest
                           upload_step_not_refresh Ho).
      reflexivity. }
    destruct (MediaUpload.uploadMediaToTwitter env fuel url (accessToken (creds s)) s)
      as [[mediaId | error |] s1]; simpl in Ht.
    1, 3: exists (EvFetchHead url :: rest); simpl; repeat split; [exact Ht | lia | lia].
    rewrite bind_get_creds.
    destruct (Service.isAuthError error && truthy (refreshToken (creds s1))
              && (retryCount <? 2)%nat) eqn:Hcond.
    2: { exists (EvFetchHead url :: rest). simpl. repeat split; [exact Ht | lia | lia]. }
    assert (Hrc : retryCount < 2).
    { apply andb_prop in Hcond. destruct Hcond as [_ Hlt].
      apply Nat.ltb_lt in Hlt. exact Hlt. }
    unfold bind at 1. unfold try_catch at 1. unfold bind at 1.
    destruct (refresh_and_persist_trace env s1) as [rest2 [Ht2 [Hrest2 _]]].
    destruct (persist_events rest2 Hrest2) as [_ [Href2 Hatt2]].
    assert (Hstep : count_events is_upload_attempt
                      (EvOAuthToken (clientId (creds s1)) (clientSecret (creds s1))
                                    (refreshToken (creds s1)) :: rest2) = 0
                    /\ count_events is_refresh
                         (EvOAuthToken (clientId (creds s1)) (clientSecret (creds s1))
                                       (refreshToken (creds s1)) :: rest2) = 1).
    { split.
      - change (count_events is_upload_attempt rest2 = 0). exact Hatt2.
      - change (S (count_events is_refresh rest2) = 1). rewrite Href2. reflexivity. }
    destruct Hstep as [Hatt Href].
    set (oauth := EvOAuthToken (clientId (creds s1)) (clientSecret (creds s1))
                               (refreshToken (creds s1))) in *.
    destruct (Service.refresh_and_persist env s1) as [[[newA newR] | e |] s2];
      simpl in Ht2.
    2, 3: simpl; exists ((EvFetchHead url :: rest) ++ oauth :: rest2);
          rewrite Ht2, Ht, <- app_assoc; rewrite !count_events_app;
          repeat split; destruct retryCount as [| [| n]]; cbn [Nat.sub]; lia.
    simpl.
    destruct (IH (retryCount + 1)
                 (mkState (trace s2)
                          (mkCredentials newA (Some newR) (clientId (creds s2))
                                         (clientSecret (creds s2))
                                         (userId (creds s2)))))
      as [evs3 [Ht3 [Hb1 Hb2]]].
    exists ((EvFetchHead url :: rest) ++ (oauth :: rest2) ++ evs3).
    rewrite Ht3. simpl trace. rewrite Ht2, Ht, <- !app_assoc.
    rewrite !count_events_app.
    repeat split; destruct retryCount as [| [| n]]; cbn [Nat.sub Nat.add] in *; lia.
Qed.

(** The depth [uploadMedia] starts with is never used up: any depth above
    [2 - retryCount] gives the same run. *)
Lemma uploadMedia_rec_depth d1 d2 url retryCount s :
  2 - retryCount < d1 -> 2 - retryCount < d2 ->
  Service.uploadMedia_rec env fuel d1 url retryCount s
  = Service.uploadMedia_rec env fuel d2 url retryCount s.
Proof.
  revert d2 retryCount s.
  induction d1 as [| d1 IH]; intros d2 retryCount s H1 H2; [lia | ].
  destruct d2 as [| d2]; [lia | ].
  simpl. unfold bind, try_catch, get_creds, set_creds, ret, throw. simpl.
  destruct (MediaUpload.uploadMediaToTwitter env fuel url (accessToken (creds s)) s)
    as [[mediaId | error |] s1]; try reflexivity.
  destruct (Service.isAuthError error && truthy (refreshToken (creds s1))
            && (retryCount <? 2)%nat) eqn:Hcond; try reflexivity.
  assert (Hrc : retryCount < 2).
  { apply andb_prop in Hcond. destruct Hcond as [_ Hlt].
    apply Nat.ltb_lt in Hlt. exact Hlt. }
  destruct (Service.refresh_and_persist env s1) as [[[newA newR] | e |] s2];
    simpl; try reflexivity.
  apply IH; lia.
Qed.

(** With the retry budget spent, a failed upload ends the call, auth error or
    not: no token exchange, no further upload. *)
Lemma uploadMedia_budget_spent url retryCount s error s1 :
  2 <= retryCount ->
  MediaUpload.uploadMediaToTwitter env fuel url (accessToken (creds s)) s
  = (Throw error, s1) ->
  Service.uploadMedia env fuel url retryCount s
  = (Throw (Error "Error uploading media"), s1).
Proof.
  intros Hrc Hup. unfold Service.uploadMedia.
  replace (2 - retryCount) with 0 by lia. simpl.
  rewrite bind_get_creds. unfold try_catch. unfold bind at 1. rewrite Hup.
  rewrite bind_get_creds.
  replace (retryCount <? 2)%nat with false
    by (symmetry; apply Nat.ltb_ge; exact Hrc).
  rewrite andb_false_r. reflexivity.
Qed.

End UploadRetry.

(** C2, as amended.  One call of [uploadMedia] runs the upload at most three
    times and exchanges the token at most twice: the guard [retryCount < 2]
    allows a refresh-then-retry cycle after the first and after the second
    failed run.  With two retries behind it, a failed run, auth failure or
    not, ends the call with 'Error uploading media' and nothing further. *)
Theorem upload_auth_retry_budget
    (env : Env) (fuel : nat) (url : string) (s : State) :
  let s' := snd (Service.uploadMedia env fuel url 0 s) in
  count_events is_upload_attempt (events_since s s') <= 3
  /\ count_events is_refresh (events_since s s') <= 2
  /\ (forall retryCount s0 error s1,
        2 <= retryCount ->
        MediaUpload.uploadMediaToTwitter env fuel url (accessToken (creds s0)) s0
        = (Throw error, s1) ->
        Service.uploadMedia env fuel url retryCount s0
        = (Throw (Error "Error uploading media"), s1)).
Proof.
  intros s'. subst s'. unfold Service.uploadMedia at 1 2.
  destruct (uploadMedia_rec_bound env fuel (S (2 - 0)) url 0 s) as [evs [Ht [H1 H2]]].
  rewrite (events_since_app _ _ _ Ht).
  repeat split; [exact H1 | exact H2 | ].
  intros retryCount s0 error s1. apply uploadMedia_budget_spent.
Qed.

Lemma upload_auth_retry_budget_witness :
  Service.uploadMedia Sample.upload_unauthorized 0 "https://img.example/a.png" 2
                      Sample.start
  = (Throw (Error "Error uploading media"),
     mkState [EvFetchHead "https://img.example/a.png";
              EvUploadInit "A1" "image/png" "1024"]
             Sample.creds1).
Proof.
  apply (proj2 (proj2 (upload_auth_retry_budget
                         Sample.upload_unauthorized 0 "https://img.example/a.png"
                         Sample.start))
           2 Sample.start
           (Error "Media upload initialization failed: Unauthorized (401)")).
  - lia.
  - reflexivity.
Defined.

(** C2 as stated fails: when the upload endpoint keeps answering 401 and the
    token exchange keeps succeeding, [uploadMedia] runs the upload three
    times, with two refresh-then-retry cycles in between. *)
Lemma three_upload_attempts :
  Service.uploadMedia Sample.upload_unauthorized 0 "https://img.example/a.png" 0
                      Sample.start
  = (Throw (Error "Error uploading media"),
     mkState [EvFetchHead "https://img.example/a.png";
              EvUploadInit "A1" "image/png" "1024";
              EvOAuthToken "cid" "secret" (Some "R1");
              EvDbUpdateCredentials "u1" "A2" "R2";
              EvFetchHead "https://img.example/a.png";
              EvUploadInit "A2" "image/png" "1024";
              EvOAuthToken "cid" "secret" (Some "R2");
              EvDbUpdateCredentials "u1" "A2" "R2";
              EvFetchHead "https://img.example/a.png";
              EvUploadInit "A2" "image/png" "1024"]
             (mkCredentials "A2" (Some "R2") "cid" "secret" (Some "u1"))).
Proof. reflexivity. Qed.

(** C7 fails on the code.  The upload succeeds, the post call is refused with
    401, the token is exchanged for the pair A2/R2 and the pair is persisted;
    the retried attempt then uploads the image again with the old token A1,
    because [publishTweetWithRefresh] does not write the new pair into the
    credentials in memory, which is where [uploadMedia] reads its token.
    Only the retried post call carries A2. *)
Lemma retried_upload_uses_stale_token :
  Service.publishTweetWithRefresh Sample.post_expired 0 Sample.pictured Sample.start
  = (Ok (mkResult true (Some "t1") None
                  "Tweet published successfully after refreshing credentials" None),
     mkState [EvFetchHead "https://img.example/a.png";
              EvUploadInit "A1" "image/png" "1024";
              EvFetchImage "https://img.example/a.png";
              EvUploadAppend "A1" "m1" "bytes";
              EvUploadFinalize "A1" "m1";
              EvPostTweet "A1" (mkPayload "hello" (Some ["m1"]) None);
              EvOAuthToken "cid" "secret" (Some "R1");
              EvDbUpdateCredentials "u1" "A2" "R2";
              EvFetchHead "https://img.example/a.png";
              EvUploadInit "A1" "image/png" "1024";
              EvFetchImage "https://img.example/a.png";
              EvUploadAppend "A1" "m1" "bytes";
              EvUploadFinalize "A1" "m1";
              EvPostTweet "A2" (mkPayload "hello" (Some ["m1"]) None)]
             Sample.creds1).
Proof. reflexivity. Qed.

(** ** The service's [publishTweet]: checks and persistence *)

Section PublishTweet.
Variable env : Env.
Variable fuel : nat.

(** [verifyProjectAccess] always answers: its [catch] turns every failure of
    the store into a 500 result. *)
Lemma verifyProjectAccess_returns user projectId s :
  exists v, fst (Service.verifyProjectAccess env user projectId s) = Ok v.
Proof.
  unfold Service.verifyProjectAccess, try_catch, bind, perform, ret.
  destruct (db_project env _) as [e | [| | projectData]]; simpl; eauto.
  destruct (match proj_userId projectData with
            | Some u => u =? user
            | None => false
            end); simpl; eauto.
  destruct (truthy (proj_workspaceId projectData)); simpl; eauto.
  destruct (db_workspace env _) as [e | [| | workspaceData]]; simpl; eauto.
  destruct (_ || _); simpl; eauto.
Qed.

(** Reading a group whose record exists. *)
Lemma getTweetGroup_found groupId s g :
  db_group env (trace s ++ [EvDbGetGroup groupId]) = inr (ExistsData g) ->
  Groups.getTweetGroup env groupId s
  = (Ok (Some g), mkState (trace s ++ [EvDbGetGroup groupId]) (creds s)).
Proof.
  intros H. unfold Groups.getTweetGroup, bind, perform. rewrite H. reflexivity.
Qed.

(** An early result of the checks is the result of the publish. *)
Lemma publishTweet_early user options s early s1 :
  Service.publish_checks env user options s = (Ok (inl early), s1) ->
  Service.publishTweet env fuel user options s = (Ok early, s1).
Proof.
  intros H. unfold Service.publishTweet, try_catch.
  rewrite (bind_ok _ _ _ _ _ _ _ H). reflexivity.
Qed.

(** With the group of the draft disabled, the checks end early and
    unsuccessfully; once the fields are there and access is granted, with the
    group-disabled result right after the group was read. *)
Lemma publish_checks_group_disabled user options s :
  truthy (po_groupId options) = true ->
  (forall tr,
     db_group env (tr ++ [EvDbGetGroup (or_default (po_groupId options) "")])
     = inr (ExistsData (mkGroup (Some false)))) ->
  exists early s',
    Service.publish_checks env user options s = (Ok (inl early), s')
    /\ success early = false
    /\ (po_tweetId options <> "" -> po_projectId options <> "" ->
        po_text options <> "" ->
        forall v s1,
          Service.verifyProjectAccess env user (po_projectId options) s = (Ok v, s1) ->
          isAuthorized v = true ->
          res_message early = "Group is disabled. Tweet will not be published."
          /\ s' = mkState (trace s1 ++ [EvDbGetGroup (or_default (po_groupId options) "")])
                          (creds s1)).
Proof.
  intros Hgroup Hdisabled. unfold Service.publish_checks.
  destruct (po_tweetId options =? "") eqn:E1; simpl.
  { apply String.eqb_eq in E1. eexists. eexists.
    split; [reflexivity | split; [reflexivity | ]]. intros H; contradiction. }
  destruct (po_projectId options =? "") eqn:E2; simpl.
  { apply String.eqb_eq in E2. eexists. eexists.
    split; [reflexivity | split; [reflexivity | ]]. intros _ H; contradiction. }
  destruct (po_text options =? "") eqn:E3; simpl.
  { apply String.eqb_eq in E3. eexists. eexists.
    split; [reflexivity | split; [reflexivity | ]]. intros _ _ H; contradiction. }
  destruct (verifyProjectAccess_returns user (po_projectId options) s) as [v Hv].
  destruct (Service.verifyProjectAccess env user (po_projectId options) s)
    as [r s1] eqn:Hverify.
  simpl in Hv. subst r.
  rewrite (bind_ok _ _ _ _ _ _ _ Hverify).
  destruct (isAuthorized v) eqn:Hauth; simpl.
  2: { eexists. eexists. split; [reflexivity | split; [reflexivity | ]].
       intros _ _ _ v' s1' Heq Hauth'. injection Heq as <- <-.
       rewrite Hauth in Hauth'. discriminate. }
  rewrite Hgroup.
  rewrite (bind_ok _ _ _ _ _ _ _
             (bind_ok _ _ _ _ _ _ _
                (getTweetGroup_found _ s1 _ (Hdisabled (trace s1))))).
  simpl. eexists. eexists. split; [reflexivity | split; [reflexivity | ]].
  intros _ _ _ v' s1' Heq _. injection Heq as <- <-. split; reflexivity.
Qed.

End PublishTweet.

(** ** What thread publishing can emit *)

Section ThreadEmits.
Variable env : Env.
Variable fuel : nat.

Lemma publish_is_thread ev : is_publish_event ev = true -> is_thread_event ev = true.
Proof. destruct ev; simpl; intros H; try reflexivity; discriminate. Qed.

Lemma store_read_not_network ev :
  is_store_read ev = true -> is_network_call ev = false.
Proof. destruct ev; simpl; intros H; try reflexivity; discriminate. Qed.

Lemma thread_event_not_group_read ev :
  is_thread_event ev = true -> is_group_read ev = false.
Proof. destruct ev; simpl; intros H; try reflexivity; discriminate. Qed.

Lemma emits_thread_body projectId tweet st :
  emits is_thread_event (Service.thread_body env fuel projectId tweet st).
Proof.
  unfold Service.thread_body, Service.updateTweetStatus.
  destruct (tw_status tweet =? TweetStatus_PUBLISHED); [emits_auto | ].
  emits_step.
  { apply emits_attempt.
    eapply emits_weaken; [apply publish_is_thread | apply emits_publishTweetWithRefresh]. }
  destruct a as [error | result]; [emits_auto | ].
  destruct (success result && truthy (twitterTweetId result)); emits_auto.
Qed.

Lemma emits_publishThreadTweets user projectId threadTweets :
  emits is_thread_event
        (Service.publishThreadTweets env fuel user projectId threadTweets).
Proof.
  unfold Service.publishThreadTweets.
  emits_step; [ | emits_auto].
  emits_step.
  { eapply emits_weaken; [ | apply emits_verifyProjectAccess].
    intros [] H; try discriminate; reflexivity. }
  destruct (negb (isAuthorized a)); [emits_auto | ].
  emits_step.
  { eapply emits_weaken; [ | apply emits_getTwitterCredentials].
    intros [] H; try discriminate; reflexivity. }
  destruct a0 as [twitterCredentials |]; [ | emits_auto].
  destruct threadTweets as [| t ts]; [emits_auto | ].
  emits_step; [emits_auto | ].
  emits_step; [ | emits_auto].
  apply emits_for_of. intros x st. apply emits_thread_body.
Qed.

End ThreadEmits.

(** C6, as amended.  For a single post tagged with a group whose record
    exists and has isEnabled false, the service's [publishTweet] makes no
    network call at all (no upload, no post call, no token exchange) and
    returns an unsuccessful result; once the required fields are present and
    access to the project is granted, that result carries the message 'Group
    is disabled. Tweet will not be published.' and the reading of the group
    is the last thing the publish does.  Thread publishing has no such gate:
    [publishThreadTweets] never reads a group. *)
Theorem disabled_group_blocks_post (env : Env) (fuel : nat) (user : string) :
  (forall options s,
     truthy (po_groupId options) = true ->
     (forall tr,
        db_group env (tr ++ [EvDbGetGroup (or_default (po_groupId options) "")])
        = inr (ExistsData (mkGroup (Some false)))) ->
     exists res s',
       Service.publishTweet env fuel user options s = (Ok res, s')
       /\ success res = false
       /\ count_events is_network_call (events_since s s') = 0
       /\ (po_tweetId options <> "" -> po_projectId options <> "" ->
           po_text options <> "" ->
           forall v s1,
             Service.verifyProjectAccess env user (po_projectId options) s
             = (Ok v, s1) ->
             isAuthorized v = true ->
             res_message res = "Group is disabled. Tweet will not be published."
             /\ s' = mkState (trace s1
                               ++ [EvDbGetGroup (or_default (po_groupId options) "")])
                             (creds s1)))
  /\ (forall projectId threadTweets s,
        count_events is_group_read
          (events_since s
             (snd (Service.publishThreadTweets env fuel user projectId threadTweets s)))
        = 0).
Proof.
  split.
  - intros options s Hgroup Hdisabled.
    destruct (publish_checks_group_disabled env user options s Hgroup Hdisabled)
      as [early [s' [Hchecks [Hfail Hmsg]]]].
    exists early, s'.
    split; [apply publishTweet_early; exact Hchecks | ].
    split; [exact Hfail | ].
    split; [ | exact Hmsg].
    destruct (emits_events_since _ is_store_read _ s (emits_publish_checks env user options))
      as [_ Ho].
    rewrite Hchecks in Ho. simpl in Ho.
    apply (count_events_none is_network_call is_store_read);
      [apply store_read_not_network | exact Ho].
  - intros projectId threadTweets s.
    destruct (emits_events_since _ is_thread_event _ s
                (emits_publishThreadTweets env fuel user projectId threadTweets))
      as [_ Ho].
    apply (count_events_none is_group_read is_thread_event);
      [apply thread_event_not_group_read | exact Ho].
Qed.

Lemma disabled_group_blocks_post_witness :
  exists res s',
    Service.publishTweet Sample.group_disabled 0 "u1"
      (mkPublishOptions "a" "p1" "hello" None None None (Some "g1")) Sample.start
    = (Ok res, s')
    /\ success res = false
    /\ count_events is_network_call (events_since Sample.start s') = 0
    /\ (po_tweetId (mkPublishOptions "a" "p1" "hello" None None None (Some "g1")) <> "" ->
        po_projectId (mkPublishOptions "a" "p1" "hello" None None None (Some "g1")) <> "" ->
        po_text (mkPublishOptions "a" "p1" "hello" None None None (Some "g1")) <> "" ->
        forall v s1,
          Service.verifyProjectAccess Sample.group_disabled "u1" "p1" Sample.start
          = (Ok v, s1) ->
          isAuthorized v = true ->
          res_message res = "Group is disabled. Tweet will not be published."
          /\ s' = mkState (trace s1 ++ [EvDbGetGroup "g1"]) (creds s1)).
Proof.
  apply (proj1 (disabled_group_blocks_post Sample.group_disabled 0 "u1")
           (mkPublishOptions "a" "p1" "hello" None None None (Some "g1"))
           Sample.start).
  - reflexivity.
  - intros tr. reflexivity.
Defined.

(** C6 as stated fails for threads: a thread tweet tagged with a disabled
    group is posted. *)
Lemma thread_of_disabled_group_is_posted :
  db_group Sample.group_disabled [EvDbGetGroup "g1"]
  = inr (ExistsData (mkGroup (Some false)))
  /\ Service.publishThreadTweets Sample.group_disabled 0 "u1" "p1"
       [mkThreadTweet "a" "one" (Some 1%Z) None "draft" None None None (Some "g1")]
       Sample.start
     = (Ok (mkThreadResult true "Thread published successfully (1 tweets)"
              (Some [mkEntry "a" (Some "t1") true "Tweet published successfully"])
              None),
        mkState [EvDbGetProject "p1"; EvDbGetCredentials "u1";
                 EvPostTweet "A1" (mkPayload "one" None None);
                 EvDbUpdateTweet "p1" "a" "t1" "one"]
                Sample.creds1).
Proof. split; reflexivity. Qed.

(** C5, as amended.  The checks pass, the provider accepts the post
    ([publishTweetWithRefresh] returns a success with a provider id), and the
    store rejects the update of the draft: the exception reaches the [catch]
    of [publishTweet], which reports the publish as failed, with message
    'Internal server error' and the store's error message as details. *)
Theorem persist_failure_reported_as_failure
    (env : Env) (fuel : nat) (user : string) (options : PublishOptions)
    (s s1 s2 s3 : State) (tweetOptions : TweetOptions) (res : PublishResult)
    (e : JsError) :
  Service.publish_checks env user options s = (Ok (inr tweetOptions), s1) ->
  Service.publishTweetWithRefresh env fuel tweetOptions s1 = (Ok res, s2) ->
  success res = true ->
  truthy (twitterTweetId res) = true ->
  Service.updateTweetStatus env (po_projectId options) (po_tweetId options)
    (or_default (twitterTweetId res) "") (po_text options) s2
  = (Throw e, s3) ->
  exists reported,
    Service.publishTweet env fuel user options s = (Ok reported, s3)
    /\ success reported = false
    /\ res_message reported = "Internal server error"
    /\ option_map details (error reported) = Some (Some (message e)).
Proof.
  intros Hchecks Hpublish Hsucc Hid Hpersist.
  exists (Service.internal_error_result e).
  split; [ | repeat split].
  unfold Service.publishTweet, try_catch.
  rewrite (bind_ok _ _ _ _ _ _ _ Hchecks).
  rewrite (bind_ok _ _ _ _ _ _ _ Hpublish).
  rewrite Hsucc, Hid. simpl.
  rewrite (bind_throw _ _ _ _ _ _ _ Hpersist). reflexivity.
Qed.

Lemma persist_failure_reported_as_failure_witness :
  exists reported,
    Service.publishTweet Sample.store_down 0 "u1"
      (mkPublishOptions "a" "p1" "hello" None None None None) Sample.start
    = (Ok reported,
       mkState [EvDbGetProject "p1"; EvDbGetCredentials "u1"; EvDbGetTweet "p1" "a";
                EvPostTweet "A1" (mkPayload "hello" None None);
                EvDbUpdateTweet "p1" "a" "t1" "hello"]
               Sample.creds1)
    /\ success reported = false
    /\ res_message reported = "Internal server error"
    /\ option_map details (error reported) = Some (Some "store unavailable").
Proof.
  apply (persist_failure_reported_as_failure
           Sample.store_down 0 "u1"
           (mkPublishOptions "a" "p1" "hello" None None None None)
           Sample.start
           (mkState [EvDbGetProject "p1"; EvDbGetCredentials "u1"; EvDbGetTweet "p1" "a"]
                    Sample.creds1)
           (mkState [EvDbGetProject "p1"; EvDbGetCredentials "u1"; EvDbGetTweet "p1" "a";
                     EvPostTweet "A1" (mkPayload "hello" None None)]
                    Sample.creds1)
           (mkState [EvDbGetProject "p1"; EvDbGetCredentials "u1"; EvDbGetTweet "p1" "a";
                     EvPostTweet "A1" (mkPayload "hello" None None);
                     EvDbUpdateTweet "p1" "a" "t1" "hello"]
                    Sample.creds1)
           Sample.plain
           (mkResult true (Some "t1") (Some "t1") "Tweet published successfully" None)
           (Error "store unavailable")).
  - reflexivity.
  - reflexivity.
  - reflexivity.
  - reflexivity.
  - reflexivity.
Defined.

(** C5 as stated fails: the provider accepts the post, the store rejects the
    update of the draft, and [publishTweet] reports a failure. *)
Lemma accepted_post_reported_failed :
  Service.publishTweetWithRefresh Sample.store_down 0 Sample.plain
    (mkState [EvDbGetProject "p1"; EvDbGetCredentials "u1"; EvDbGetTweet "p1" "a"]
             Sample.creds1)
  = (Ok (mkResult true (Some "t1") (Some "t1") "Tweet published successfully" None),
     mkState [EvDbGetProject "p1"; EvDbGetCredentials "u1"; EvDbGetTweet "p1" "a";
              EvPostTweet "A1" (mkPayload "hello" None None)]
             Sample.creds1)
  /\ Service.publishTweet Sample.store_down 0 "u1"
       (mkPublishOptions "a" "p1" "hello" None None None None) Sample.start
     = (Ok (mkResult false None None "Internal server error"
              (Some (mkErrorInfo (Some "store unavailable") None None None))),
        mkState [EvDbGetProject "p1"; EvDbGetCredentials "u1"; EvDbGetTweet "p1" "a";
                 EvPostTweet "A1" (mkPayload "hello" None None);
                 EvDbUpdateTweet "p1" "a" "t1" "hello"]
                Sample.creds1).
Proof. split; reflexivity. Qed.

(** ** Media upload: the processing poll *)

Section Polling.
Variable env : Env.

Lemma poll_status_answers mediaId tok p s :
  fst (MediaUpload.poll_status env mediaId tok p s) <> OutOfFuel.
Proof.
  unfold MediaUpload.poll_status, bind, log_event, perform, parsed, throw, ret.
  simpl. destruct (net_status env _) as [e | resp]; simpl; [discriminate | ].
  destruct (negb (st_ok resp)); simpl; [discriminate | ].
  destruct (st_json resp); simpl; discriminate.
Qed.

(** A poll loop that ends has ended in one of the ways of [PollLoop]. *)
Lemma checkMediaProcessingStatus_sound fuel mediaId tok p s r s' :
  MediaUpload.checkMediaProcessingStatus env fuel mediaId tok p s = (r, s') ->
  r <> OutOfFuel ->
  PollLoop env mediaId tok p s r s'.
Proof.
  revert p s. induction fuel as [| fuel IH]; intros p s; simpl.
  - destruct (String.eqb_spec (state p) "succeeded") as [Hs | Hs].
    + intros H _. injection H as <- <-. apply ends_on_succeeded. exact Hs.
    + intros H Hr. injection H as <- _. contradiction.
  - destruct (String.eqb_spec (state p) "succeeded") as [Hs | Hs].
    + intros H _. injection H as <- <-. apply ends_on_succeeded. exact Hs.
    + unfold bind.
      pose proof (poll_status_answers mediaId tok p s) as Hans.
      destruct (MediaUpload.poll_status env mediaId tok p s)
        as [[[p' |] | e |] s1] eqn:Hpoll; simpl in Hans.
      * intros H Hr. eapply polls_again; eauto.
      * intros H _. injection H as <- <-.
        apply ends_without_processing_info; assumption.
      * intros H _. injection H as <- <-.
        apply ends_on_failed_request; assumption.
      * contradiction.
Qed.

(** Every end of [PollLoop] is reached by the code, given fuel for the polls
    on the way. *)
Lemma checkMediaProcessingStatus_complete mediaId tok p s r s' :
  PollLoop env mediaId tok p s r s' ->
  exists n, forall fuel, n <= fuel ->
    MediaUpload.checkMediaProcessingStatus env fuel mediaId tok p s = (r, s').
Proof.
  induction 1 as [p s Hs | p s s' Hs Hpoll | p s e s' Hs Hpoll
                  | p s p' s1 r s' Hs Hpoll _ [n IH]].
  - exists 0. intros fuel _.
    apply String.eqb_eq in Hs. destruct fuel; simpl; rewrite Hs; reflexivity.
  - exists 1. intros fuel Hfuel. destruct fuel as [| fuel]; [lia | ].
    apply String.eqb_neq in Hs. simpl. rewrite Hs.
    rewrite (bind_ok _ _ _ _ _ _ _ Hpoll). reflexivity.
  - exists 1. intros fuel Hfuel. destruct fuel as [| fuel]; [lia | ].
    apply String.eqb_neq in Hs. simpl. rewrite Hs.
    rewrite (bind_throw _ _ _ _ _ _ _ Hpoll). reflexivity.
  - exists (S n). intros fuel Hfuel. destruct fuel as [| fuel]; [lia | ].
    apply String.eqb_neq in Hs. simpl. rewrite Hs.
    rewrite (bind_ok _ _ _ _ _ _ _ Hpoll). apply IH. lia.
Qed.

(** An upload whose finalize response carries processing info ends as its
    poll loop ends. *)
Lemma upload_with_processing fuel url tok s mediaId p s1 :
  MediaUpload.upload_phases env url tok s = (Ok (mediaId, Some p), s1) ->
  MediaUpload.uploadMediaToTwitter env fuel url tok s
  = (upload_outcome mediaId
       (fst (MediaUpload.checkMediaProcessingStatus env fuel mediaId tok p s1)),
     snd (MediaUpload.checkMediaProcessingStatus env fuel mediaId tok p s1)).
Proof.
  intros Hphases. unfold MediaUpload.uploadMediaToTwitter, try_catch.
  rewrite (bind_ok _ _ _ _ _ _ _ Hphases). unfold bind.
  destruct (MediaUpload.checkMediaProcessingStatus env fuel mediaId tok p s1)
    as [[[] | e |] s2]; reflexivity.
Qed.

End Polling.

(** The ends of the poll loop.  For a media upload whose finalize response
    carries processing info, every upload that ends has ended in one of the
    ways of [PollLoop], and each of them is reached once the fuel covers the
    polls made on the way. *)
Lemma poll_loop_ends
    (env : Env) (url tok : string) (s s1 : State) (mediaId : string)
    (p : ProcessingInfo) :
  MediaUpload.upload_phases env url tok s = (Ok (mediaId, Some p), s1) ->
  (forall fuel r s2,
     MediaUpload.uploadMediaToTwitter env fuel url tok s = (r, s2) ->
     r <> OutOfFuel ->
     exists r0, PollLoop env mediaId tok p s1 r0 s2 /\ r = upload_outcome mediaId r0)
  /\ (forall r0 s2,
        PollLoop env mediaId tok p s1 r0 s2 ->
        exists n, forall fuel, n <= fuel ->
          MediaUpload.uploadMediaToTwitter env fuel url tok s
          = (upload_outcome mediaId r0, s2)).
Proof.
  intros Hphases. split.
  - intros fuel r s2. rewrite (upload_with_processing env fuel _ _ _ _ _ _ Hphases).
    destruct (MediaUpload.checkMediaProcessingStatus env fuel mediaId tok p s1)
      as [r0 s2'] eqn:Hcheck.
    simpl. intros H Hr. injection H as <- <-.
    exists r0. split; [ | reflexivity].
    apply (checkMediaProcessingStatus_sound env fuel _ _ _ _ _ _ Hcheck).
    intros ->. apply Hr. reflexivity.
  - intros r0 s2 Hloop.
    destruct (checkMediaProcessingStatus_complete env _ _ _ _ _ _ Hloop) as [n Hn].
    exists n. intros fuel Hfuel.
    rewrite (upload_with_processing env fuel _ _ _ _ _ _ Hphases), (Hn fuel Hfuel).
    reflexivity.
Qed.

(** While every status poll reports the state failed, the loop never ends:
    whatever the fuel, all of it goes into polls. *)
Lemma polls_forever_on_failed fuel :
  fst (MediaUpload.uploadMediaToTwitter Sample.processing_failed fuel
         "https://img.example/a.png" "A1" Sample.start) = OutOfFuel.
Proof.
  rewrite (upload_with_processing Sample.processing_failed fuel
             "https://img.example/a.png" "A1" Sample.start
             "m1" (mkProcessing "pending" None)
             (mkState [EvFetchHead "https://img.example/a.png";
                       EvUploadInit "A1" "image/png" "1024";
                       EvFetchImage "https://img.example/a.png";
                       EvUploadAppend "A1" "m1" "bytes";
                       EvUploadFinalize "A1" "m1"] Sample.creds1) eq_refl).
  simpl.
  assert (H : forall n p s, state p <> "succeeded" ->
            fst (MediaUpload.checkMediaProcessingStatus
                   Sample.processing_failed n "m1" "A1" p s) = OutOfFuel).
  { induction n as [| n IH]; intros p s Hp; apply String.eqb_neq in Hp;
      simpl; rewrite Hp; [reflexivity | ].
    unfold bind, MediaUpload.poll_status, log_event, perform. simpl.
    apply IH. simpl. discriminate. }
  rewrite H; [reflexivity | simpl; discriminate].
Qed.

(** One turn of the poll loop. *)
Lemma checkMediaProcessingStatus_step (env : Env) fuel mediaId tok p s :
  MediaUpload.checkMediaProcessingStatus env (S fuel) mediaId tok p s
  = if state p =? "succeeded" then (Ok tt, s)
    else match MediaUpload.poll_status env mediaId tok p s with
         | (Ok (Some p'), s1) =>
             MediaUpload.checkMediaProcessingStatus env fuel mediaId tok p' s1
         | (Ok None, s1) => (Ok tt, s1)
         | (Throw e, s1) => (Throw e, s1)
         | (OutOfFuel, s1) => (OutOfFuel, s1)
         end.
Proof.
  simpl. destruct (state p =? "succeeded"); [reflexivity | ].
  unfold bind.
  destruct (MediaUpload.poll_status env mediaId tok p s) as [[[p' |] | e |] s1];
    reflexivity.
Qed.

(** A status poll is a wait and a status request, whatever the answer. *)
Lemma poll_status_trace (env : Env) mediaId tok p s :
  trace (snd (MediaUpload.poll_status env mediaId tok p s))
  = trace s ++ [EvSleep (or_defaultZ (check_after_secs p) 1);
                EvUploadStatus tok mediaId].
Proof.
  unfold MediaUpload.poll_status, bind, log_event, perform, parsed, throw, ret.
  cbn [trace creds]. rewrite <- app_assoc. simpl.
  destruct (net_status env _) as [e | resp]; [reflexivity | ].
  destruct (negb (st_ok resp)); [reflexivity | ].
  destruct (st_json resp); reflexivity.
Qed.

(** The poll loop only appends events. *)
Lemma checkMediaProcessingStatus_appends (env : Env) fuel mediaId tok p s :
  exists more,
    trace (snd (MediaUpload.checkMediaProcessingStatus env fuel mediaId tok p s))
    = trace s ++ more.
Proof.
  destruct (emits_checkMediaProcessingStatus env fuel mediaId tok p s) as [more [Ht _]].
  exists more. exact Ht.
Qed.

(** C8.  The poll loop has no case for a failure: it tests the state for
    'succeeded' and nothing else.  Whenever a status request is answered with
    a success status and processing info whose state is 'failed', the loop
    goes on as if the media were still processing: it waits the time that
    answer names and sends the next status request.  So an upload whose first
    poll reports 'failed' and whose second reports 'succeeded' resolves with
    the media handle, and an upload whose every poll reports 'failed' never
    ends: whatever the fuel, all of it goes into polls and no error is ever
    raised. *)
Theorem reported_failure_is_polled_past :
  (forall (env : Env) (fuel : nat) (mediaId tok : string) (p p' : ProcessingInfo)
          (s : State) (resp : StatusResponse),
     state p <> "succeeded" ->
     net_status env (trace s ++ [EvSleep (or_defaultZ (check_after_secs p) 1);
                                 EvUploadStatus tok mediaId]) = inr resp ->
     st_ok resp = true ->
     st_json resp = inr (Some p') ->
     state p' = "failed" ->
     exists more,
       trace (snd (MediaUpload.checkMediaProcessingStatus env (S (S fuel)) mediaId tok
                     p s))
       = trace s ++ [EvSleep (or_defaultZ (check_after_secs p) 1);
                     EvUploadStatus tok mediaId;
                     EvSleep (or_defaultZ (check_after_secs p') 1);
                     EvUploadStatus tok mediaId] ++ more)
  /\ net_status Sample.processing_failed_then_succeeded
       [EvFetchHead "https://img.example/a.png";
        EvUploadInit "A1" "image/png" "1024";
        EvFetchImage "https://img.example/a.png";
        EvUploadAppend "A1" "m1" "bytes";
        EvUploadFinalize "A1" "m1";
        EvSleep 1; EvUploadStatus "A1" "m1"]
     = inr (mkStatus true 200 "OK" (inr (Some (mkProcessing "failed" None))))
  /\ MediaUpload.uploadMediaToTwitter Sample.processing_failed_then_succeeded 2
       "https://img.example/a.png" "A1" Sample.start
     = (Ok "m1",
        mkState [EvFetchHead "https://img.example/a.png";
                 EvUploadInit "A1" "image/png" "1024";
                 EvFetchImage "https://img.example/a.png";
                 EvUploadAppend "A1" "m1" "bytes";
                 EvUploadFinalize "A1" "m1";
                 EvSleep 1; EvUploadStatus "A1" "m1";
                 EvSleep 1; EvUploadStatus "A1" "m1"] Sample.creds1)
  /\ (forall tr,
        net_status Sample.processing_failed tr
        = inr (mkStatus true 200 "OK" (inr (Some (mkProcessing "failed" None)))))
  /\ (forall fuel,
        fst (MediaUpload.uploadMediaToTwitter Sample.processing_failed fuel
               "https://img.example/a.png" "A1" Sample.start) = OutOfFuel).
Proof.
  split; [ | split; [reflexivity | split; [reflexivity | split; [reflexivity | ]]]].
  - intros env fuel mediaId tok p p' s resp Hp Hresp Hok Hjson Hfailed.
    assert (Hpoll : MediaUpload.poll_status env mediaId tok p s
                    = (Ok (Some p'),
                       mkState (trace s ++ [EvSleep (or_defaultZ (check_after_secs p) 1);
                                            EvUploadStatus tok mediaId]) (creds s))).
    { unfold MediaUpload.poll_status, bind, log_event, perform, parsed, ret.
      cbn [trace creds]. rewrite <- app_assoc. simpl.
      rewrite Hresp, Hok. simpl. rewrite Hjson. reflexivity. }
    apply String.eqb_neq in Hp.
    rewrite checkMediaProcessingStatus_step, Hp, Hpoll.
    rewrite checkMediaProcessingStatus_step, Hfailed. cbn [String.eqb Ascii.eqb Bool.eqb].
    pose proof (poll_status_trace env mediaId tok p'
                  (mkState (trace s ++ [EvSleep (or_defaultZ (check_after_secs p) 1);
                                        EvUploadStatus tok mediaId]) (creds s))) as Ht.
    cbn [trace] in Ht.
    destruct (MediaUpload.poll_status env mediaId tok p' _) as [[[p'' |] | e |] s1];
      simpl in Ht.
    + destruct (checkMediaProcessingStatus_appends env fuel mediaId tok p'' s1)
        as [more Hmore].
      exists more. rewrite Hmore, Ht, <- !app_assoc. reflexivity.
    + exists []. simpl. rewrite Ht, <- !app_assoc. reflexivity.
    + exists []. simpl. rewrite Ht, <- !app_assoc. reflexivity.
    + exists []. simpl. rewrite Ht, <- !app_assoc. reflexivity.
  - apply polls_forever_on_failed.
Qed.

(** ** Threads *)

Lemma emits_bind_post A B (f : Event -> bool) (P : A -> Prop)
    (m : M A) (k : A -> M B) :
  (forall s a s1, m s = (Ok a, s1) -> P a) ->
  emits f m -> (forall a, P a -> emits f (k a)) -> emits f (bind m k).
Proof.
  intros HP Hm Hk s. unfold bind.
  destruct (Hm s) as [evs [Ht Ho]].
  destruct (m s) as [[a | e |] s1] eqn:Hms; simpl in Ht.
  - destruct (Hk a (HP s a s1 Hms) s1) as [evs2 [Ht2 Ho2]].
    exists (evs ++ evs2). rewrite Ht2, Ht, app_assoc.
    split; [reflexivity | apply only_app; assumption].
  - exists evs. simpl. split; assumption.
  - exists evs. simpl. split; assumption.
Qed.

Lemma attempt_run A (m : M A) s :
  attempt m s
  = match m s with
    | (Ok a, s1) => (Ok (inr a), s1)
    | (Throw e, s1) => (Ok (inl e), s1)
    | (OutOfFuel, s1) => (OutOfFuel, s1)
    end.
Proof.
  unfold attempt, try_catch, bind, ret.
  destruct (m s) as [[a | e |] s1]; reflexivity.
Qed.

Lemma option_string_eqb_refl a : option_string_eqb a a = true.
Proof. destruct a; simpl; [apply String.eqb_refl | reflexivity]. Qed.

Lemma truthy_some id : truthy (Some id) = true <-> id <> "".
Proof.
  simpl. destruct (String.eqb_spec id ""); simpl; split; intros H;
    try discriminate; try contradiction; auto.
Qed.

Lemma for_of_app A S (body : A -> S -> M (Ctl S)) (l1 l2 : list A) st s :
  for_of body (l1 ++ l2) st s
  = match for_of body l1 st s with
    | (Ok (Continue st1), s1) => for_of body l2 st1 s1
    | other => other
    end.
Proof.
  revert st s. induction l1 as [| x l1 IH]; intros st s; simpl; [reflexivity | ].
  unfold bind. destruct (body x st s) as [[[st1 | st1] | e |] s1]; try reflexivity.
  apply IH.
Qed.

(** The sort keeps the tweets and puts them in order of position. *)
Lemma insert_by_perm A (key : A -> Z) (x : A) (l : list A) :
  Permutation (insert_by key x l) (x :: l).
Proof.
  induction l as [| y l IH]; simpl; [reflexivity | ].
  destruct (key x <=? key y)%Z; [reflexivity | ].
  rewrite IH. apply perm_swap.
Qed.

Lemma sort_by_perm A (key : A -> Z) (l : list A) : Permutation (sort_by key l) l.
Proof.
  induction l as [| x l IH]; simpl; [constructor | ].
  rewrite insert_by_perm. constructor. exact IH.
Qed.

Lemma insert_by_sorted A (key : A -> Z) (x : A) (l : list A) :
  Sorted (fun a b => (key a <= key b)%Z) l ->
  Sorted (fun a b => (key a <= key b)%Z) (insert_by key x l).
Proof.
  induction l as [| y l IH]; intros Hs; simpl.
  - constructor; constructor.
  - destruct (Z.leb_spec (key x) (key y)) as [Hle | Hgt].
    + constructor; [exact Hs | constructor; exact Hle].
    + inversion Hs as [| ? ? Hl Hhd]; subst. constructor; [apply IH; exact Hl | ].
      destruct l as [| z l]; simpl.
      * constructor. lia.
      * destruct (Z.leb_spec (key x) (key z)); constructor; try lia.
        inversion Hhd; assumption.
Qed.

Lemma sortedTweets_sorted (threadTweets : list ThreadTweet) :
  Permutation (Service.sortedTweets threadTweets) threadTweets
  /\ @Sorted ThreadTweet
       (fun a b => (or_defaultZ (threadPosition a) 0
                    <= or_defaultZ (threadPosition b) 0)%Z)
       (Service.sortedTweets threadTweets).
Proof.
  split; [apply sort_by_perm | ].
  unfold Service.sortedTweets, sort_by.
  induction threadTweets as [| t ts IH]; simpl; [constructor | ].
  apply (insert_by_sorted _ (fun t => or_defaultZ (threadPosition t) 0)). exact IH.
Qed.

Section Threads.
Variable env : Env.
Variable fuel : nat.

(** The payload replies to what the options say. *)
Lemma prepareTweetPayload_reply options tok s payload s1 :
  Service.prepareTweetPayload env fuel options tok s = (Ok payload, s1) ->
  p_in_reply_to_tweet_id payload = reply_target options
  /\ p_text payload = o_text options.
Proof.
  unfold Service.prepareTweetPayload. unfold bind at 1.
  match goal with |- context [match ?m s with _ => _ end] =>
    destruct (m s) as [[mediaIds | e |] s2] end; try discriminate.
  unfold ret. intros H. injection H as <- _. split; reflexivity.
Qed.

Lemma upload_event_replies target ev :
  is_upload_event ev = true -> replies_to target ev = true.
Proof. destruct ev; simpl; intros H; try reflexivity; discriminate. Qed.

Lemma emits_post_replies tok payload :
  emits (replies_to (p_in_reply_to_tweet_id payload))
        (Utils.publishTweet env tok payload).
Proof.
  intros s. destruct (utils_publishTweet_trace env tok payload s) as [Ht _].
  exists [EvPostTweet tok payload]. split; [exact Ht | ].
  constructor; [ | constructor]. simpl. apply option_string_eqb_refl.
Qed.

(** Every post call of a publish carries the reply target of its options. *)
Lemma emits_publish_replies options :
  emits (replies_to (reply_target options))
        (Service.publishTweetWithRefresh env fuel options).
Proof.
  assert (Hprep : forall tok,
             emits (replies_to (reply_target options))
                   (Service.prepareTweetPayload env fuel options tok)).
  { intros tok. eapply emits_weaken;
      [apply upload_event_replies | apply emits_prepareTweetPayload]. }
  unfold Service.publishTweetWithRefresh.
  emits_step; [emits_auto | ].
  emits_step.
  - unfold Service.first_attempt, Service.data_id.
    apply emits_bind_post
      with (P := fun payload => p_in_reply_to_tweet_id payload = reply_target options).
    + intros s0 p0 s1 H. apply (prepareTweetPayload_reply _ _ _ _ _ H).
    + apply Hprep.
    + intros payload <-. emits_step; [apply emits_post_replies | emits_auto].
  - emits_step; [emits_auto | ].
    destruct (_ && _); [ | emits_auto].
    emits_step; [ | emits_auto].
    unfold Service.retry_attempt, Service.data_id.
    emits_step.
    { eapply emits_weaken; [apply upload_event_replies | apply emits_refresh_and_persist]. }
    match goal with tokens : (string * string)%type |- _ =>
      destruct tokens as [newA newR] end.
    apply emits_bind_post
      with (P := fun payload => p_in_reply_to_tweet_id payload = reply_target options).
    + intros s0 p0 s1 H. apply (prepareTweetPayload_reply _ _ _ _ _ H).
    + apply Hprep.
    + intros payload <-. emits_step; [apply emits_post_replies | emits_auto].
Qed.

(** A tweet already published is passed over: no call, no result entry; its
    stored id becomes the id at hand. *)
Lemma thread_body_published projectId t st s :
  tw_status t = TweetStatus_PUBLISHED ->
  Service.thread_body env fuel projectId t st s
  = (Ok (Continue (Service.mkLoop (tw_publishedTweetId t) (Service.results st))), s).
Proof.
  intros H. unfold Service.thread_body. rewrite H, String.eqb_refl. reflexivity.
Qed.

(** A turn of the loop that lets the loop go on has published and persisted
    its tweet. *)
Lemma thread_body_continue projectId t st s st' s' :
  tw_status t <> TweetStatus_PUBLISHED ->
  Service.thread_body env fuel projectId t st s = (Ok (Continue st'), s') ->
  exists res s1 id,
    Service.publishTweetWithRefresh env fuel
      (Service.publishOptions t (Service.previousTweetId st)) s = (Ok res, s1)
    /\ success res = true
    /\ twitterTweetId res = Some id
    /\ id <> ""
    /\ Service.updateTweetStatus env projectId (tweetId t) id (tw_text t) s1
       = (Ok tt, s')
    /\ st' = Service.mkLoop (Some id)
               (Service.results st
                ++ [mkEntry (tweetId t) (Some id) true (res_message res)]).
Proof.
  intros Hstatus. apply String.eqb_neq in Hstatus.
  unfold Service.thread_body. rewrite Hstatus.
  unfold bind at 1. rewrite attempt_run.
  destruct (Service.publishTweetWithRefresh env fuel
              (Service.publishOptions t (Service.previousTweetId st)) s)
    as [[res | e |] s1]; try discriminate.
  destruct (success res) eqn:Hsucc; simpl; try discriminate.
  destruct (twitterTweetId res) as [id |] eqn:Hid; simpl; try discriminate.
  destruct (String.eqb_spec id "") as [Hempty | Hid']; simpl; try discriminate.
  unfold bind at 1. rewrite attempt_run.
  destruct (Service.updateTweetStatus env projectId (tweetId t) id (tw_text t) s1)
    as [[[] | e |] s2] eqn:Hpersist; try discriminate.
  unfold ret. intros H. injection H as <- <-.
  exists res, s1, id. repeat split; auto.
Qed.

(** A turn of the loop whose publish returns a failure stops the loop right
    there. *)
Lemma thread_body_failure projectId t st s res s1 :
  tw_status t <> TweetStatus_PUBLISHED ->
  Service.publishTweetWithRefresh env fuel
    (Service.publishOptions t (Service.previousTweetId st)) s = (Ok res, s1) ->
  success res = false ->
  Service.thread_body env fuel projectId t st s
  = (Ok (Break (Service.mkLoop (Service.previousTweetId st)
                  (Service.results st
                   ++ [mkEntry (tweetId t) (twitterTweetId res) false
                               (res_message res)]))),
     s1).
Proof.
  intros Hstatus Hpub Hfail. apply String.eqb_neq in Hstatus.
  unfold Service.thread_body. rewrite Hstatus.
  unfold bind at 1. rewrite attempt_run, Hpub, Hfail. reflexivity.
Qed.

(** A stretch of the loop that no turn stopped is a chained run, and has
    added one successful entry for every tweet that was not yet published. *)
Lemma for_of_continue projectId tweets st s st1 s1 :
  for_of (Service.thread_body env fuel projectId) tweets st s
  = (Ok (Continue st1), s1) ->
  chained env fuel projectId tweets (Service.previousTweetId st) s
  /\ exists added,
       Service.results st1 = Service.results st ++ added
       /\ forallb e_success added = true
       /\ length added = length (filter not_yet_published tweets).
Proof.
  revert st s. induction tweets as [| t rest IH]; intros st s; simpl.
  - unfold ret. intros H. injection H as <- <-. split; [exact I | ].
    exists []. rewrite app_nil_r. repeat split.
  - unfold bind at 1. unfold not_yet_published at 1.
    destruct (String.eqb_spec (tw_status t) TweetStatus_PUBLISHED) as [Hpub | Hpub].
    + rewrite (thread_body_published projectId t st s Hpub). simpl.
      intros H. destruct (IH _ _ H) as [Hc [added [Hres [Hall Hlen]]]].
      simpl in Hc, Hres. split; [exact Hc | ]. exists added. repeat split; assumption.
    + destruct (Service.thread_body env fuel projectId t st s)
        as [[[st' | st'] | e |] s'] eqn:Hbody; try discriminate.
      destruct (thread_body_continue projectId t st s st' s' Hpub Hbody)
        as [res [s0 [id [Hpublish [Hsucc [Hid [Hne [Hpersist ->]]]]]]]].
      intros H. destruct (IH _ _ H) as [Hc [added [Hres [Hall Hlen]]]].
      simpl in Hc, Hres. split.
      * exists res, s0, s', id. repeat split; try assumption.
        destruct (emits_events_since _ _ _ s
                    (emits_publish_replies
                       (Service.publishOptions t (Service.previousTweetId st))))
          as [_ Ho].
        rewrite Hpublish in Ho. simpl in Ho. exact Ho.
      * exists (mkEntry (tweetId t) (Some id) true (res_message res) :: added).
        rewrite Hres, <- app_assoc. simpl. repeat split; auto.
Qed.

(** With the checks passed and a tweet to publish, [publishThreadTweets] is
    the loop over the sorted tweets followed by the aggregation. *)
Lemma publishThreadTweets_run user projectId threadTweets s v s1 c s2 :
  Service.verifyProjectAccess env user projectId s = (Ok v, s1) ->
  isAuthorized v = true ->
  Service.getTwitterCredentials env user s1 = (Ok (Some c), s2) ->
  threadTweets <> [] ->
  Service.publishThreadTweets env fuel user projectId threadTweets s
  = thread_finish (length (Service.sortedTweets threadTweets))
      (for_of (Service.thread_body env fuel projectId)
              (Service.sortedTweets threadTweets)
              (Service.mkLoop None []) (mkState (trace s2) c)).
Proof.
  intros Hverify Hauth Hcreds Hne.
  unfold Service.publishThreadTweets, try_catch.
  rewrite (bind_ok _ _ _ _ _ _ _ Hverify), Hauth. simpl.
  rewrite (bind_ok _ _ _ _ _ _ _ Hcreds).
  destruct threadTweets as [| t ts]; [contradiction | ].
  unfold bind at 1. unfold set_creds at 1. unfold bind, ret, thread_finish.
  destruct (for_of (Service.thread_body env fuel projectId)
                   (Service.sortedTweets (t :: ts)) (Service.mkLoop None [])
                   (mkState (trace s2) c)) as [[final | e |] s'];
    reflexivity.
Qed.

Lemma sortedTweets_nonempty threadTweets :
  Service.sortedTweets threadTweets <> [] -> threadTweets <> [].
Proof. intros H ->. apply H. reflexivity. Qed.

End Threads.

Lemma filter_all A (f : A -> bool) (l : list A) :
  forallb f l = true -> filter f l = l.
Proof.
  induction l as [| x l IH]; simpl; [reflexivity | ].
  intros H. apply andb_prop in H. destruct H as [Hx Hl].
  rewrite Hx, (IH Hl). reflexivity.
Qed.

Lemma filter_not_yet_published_all (l : list ThreadTweet) :
  Forall (fun x => tw_status x <> TweetStatus_PUBLISHED) l ->
  filter not_yet_published l = l.
Proof.
  intros H. apply filter_all. apply forallb_forall. intros x Hx.
  rewrite Forall_forall in H. unfold not_yet_published.
  apply negb_true_iff. apply String.eqb_neq. apply H. exact Hx.
Qed.

Lemma reply_target_previous t id :
  id <> "" ->
  o_replyToTweetId (Service.publishOptions t (Some id)) = Some id
  /\ reply_target (Service.publishOptions t (Some id)) = Some id.
Proof.
  intros Hne. apply truthy_some in Hne.
  unfold reply_target, Service.publishOptions. cbn [o_replyToTweetId].
  rewrite !Hne. split; reflexivity.
Qed.

(** The publish of a thread tweet carries its reply target into every post
    call, and the persisting that follows is no post call. *)
Lemma emits_thread_body_replies env fuel projectId t st :
  tw_status t <> TweetStatus_PUBLISHED ->
  emits (replies_to (reply_target
                       (Service.publishOptions t (Service.previousTweetId st))))
        (Service.thread_body env fuel projectId t st).
Proof.
  intros Hstatus. apply String.eqb_neq in Hstatus.
  unfold Service.thread_body, Service.updateTweetStatus. rewrite Hstatus.
  emits_step; [apply emits_attempt; apply emits_publish_replies | ].
  destruct a as [error | result]; [emits_auto | ].
  destruct (success result && truthy (twitterTweetId result)); emits_auto.
Qed.

(** C3, as amended.  The checks of [publishThreadTweets] have passed; in
    sorted order the thread is [pre], then [t], then [rest]; the loop has
    gone through [pre] without stopping, and the publish of [t], which is not
    yet published, returns a failure.  Then: [pre] was a chained run (every
    tweet of it that was not yet published was published, replying to its
    predecessor's provider id, and persisted); the call ends in the state the
    failed publish left, so no tweet of [rest] is attempted; the result has
    success false; its entries are one success for every tweet of [pre] that
    this call published, then the failure; the number of published posts it
    reports (in its entries, and in its message when that number is not 0)
    is the number of tweets of [pre] that were not already published before
    the call, which is the length of [pre] when none of them was. *)
Theorem thread_stops_at_first_failure
    (env : Env) (fuel : nat) (user projectId : string)
    (threadTweets pre rest : list ThreadTweet) (t : ThreadTweet)
    (s s1 s2 s3 s4 : State) (v : ProjectVerificationResult) (c : Credentials)
    (st1 : Service.LoopState) (res : PublishResult) :
  Service.verifyProjectAccess env user projectId s = (Ok v, s1) ->
  isAuthorized v = true ->
  Service.getTwitterCredentials env user s1 = (Ok (Some c), s2) ->
  Service.sortedTweets threadTweets = pre ++ t :: rest ->
  for_of (Service.thread_body env fuel projectId) pre (Service.mkLoop None [])
         (mkState (trace s2) c)
  = (Ok (Continue st1), s3) ->
  tw_status t <> TweetStatus_PUBLISHED ->
  Service.publishTweetWithRefresh env fuel
    (Service.publishOptions t (Service.previousTweetId st1)) s3 = (Ok res, s4) ->
  success res = false ->
  exists threadResult added,
    Service.publishThreadTweets env fuel user projectId threadTweets s
    = (Ok threadResult, s4)
    /\ chained env fuel projectId pre None (mkState (trace s2) c)
    /\ t_success threadResult = false
    /\ t_results threadResult
       = Some (added ++ [mkEntry (tweetId t) (twitterTweetId res) false
                                 (res_message res)])
    /\ forallb e_success added = true
    /\ Service.publishedCount
         (added ++ [mkEntry (tweetId t) (twitterTweetId res) false (res_message res)])
       = length (filter not_yet_published pre)
    /\ (Forall (fun x => tw_status x <> TweetStatus_PUBLISHED) pre ->
        length (filter not_yet_published pre) = length pre)
    /\ (0 < length (filter not_yet_published pre) ->
        t_message threadResult
        = ("Thread publishing stopped after "
           ++ string_of_nat (length (filter not_yet_published pre)) ++ "/"
           ++ string_of_nat (length (pre ++ t :: rest)%list)
           ++ " tweets to maintain thread integrity")%string).
Proof.
  intros Hverify Hauth Hcreds Hsorted Hpre Hstatus Hpublish Hfail.
  destruct (for_of_continue env fuel projectId pre _ _ _ _ Hpre)
    as [Hchained [added [Hres [Hall Hlen]]]].
  simpl in Hchained, Hres.
  set (entry := mkEntry (tweetId t) (twitterTweetId res) false (res_message res)).
  assert (Hcount : Service.publishedCount (added ++ [entry])
                   = length (filter not_yet_published pre)).
  { unfold Service.publishedCount. rewrite filter_app, length_app.
    rewrite (filter_all _ _ _ Hall). simpl. lia. }
  assert (Hnot : forallb e_success (added ++ [entry]) = false).
  { rewrite forallb_app, Hall. reflexivity. }
  exists (Service.thread_result (length (pre ++ t :: rest)) (added ++ [entry])), added.
  split.
  { rewrite (publishThreadTweets_run env fuel user projectId threadTweets
               s v s1 c s2 Hverify Hauth Hcreds).
    2: { apply sortedTweets_nonempty. rewrite Hsorted. destruct pre; discriminate. }
    rewrite Hsorted, for_of_app, Hpre. simpl for_of.
    rewrite (bind_ok _ _ _ _ _ _ _
               (thread_body_failure env fuel projectId t st1 s3 res s4
                                    Hstatus Hpublish Hfail)).
    unfold ret, thread_finish. simpl ctl_state. simpl Service.results.
    rewrite Hres. reflexivity. }
  split; [exact Hchained | ].
  split; [simpl; exact Hnot | ].
  split; [reflexivity | ].
  split; [exact Hall | ].
  split; [exact Hcount | ].
  split.
  { intros Hfresh. rewrite (filter_not_yet_published_all pre Hfresh). reflexivity. }
  intros Hpos. unfold Service.thread_result. simpl t_message.
  rewrite Hnot, Hcount.
  assert (Hlt : (length (filter not_yet_published pre) <? length (pre ++ t :: rest))%nat
                = true).
  { apply Nat.ltb_lt. rewrite length_app. simpl.
    pose proof (filter_length_le not_yet_published pre). lia. }
  assert (Hgt : (0 <? length (filter not_yet_published pre))%nat = true)
    by (apply Nat.ltb_lt; exact Hpos).
  rewrite Hlt, Hgt. reflexivity.
Qed.

Lemma thread_stops_at_first_failure_witness :
  exists threadResult added,
    Service.publishThreadTweets Sample.second_post_fails 0 "u1" "p1"
      [Sample.draft "a" "one" 1; Sample.draft "b" "two" 2; Sample.draft "c" "three" 3]
      Sample.start
    = (Ok threadResult,
       mkState [EvDbGetProject "p1"; EvDbGetCredentials "u1";
                EvPostTweet "A1" (mkPayload "one" None None);
                EvDbUpdateTweet "p1" "a" "t1" "one";
                EvPostTweet "A1" (mkPayload "two" None (Some "t1"))]
               Sample.creds1)
    /\ chained Sample.second_post_fails 0 "p1" [Sample.draft "a" "one" 1] None
         (mkState [EvDbGetProject "p1"; EvDbGetCredentials "u1"] Sample.creds1)
    /\ t_success threadResult = false
    /\ t_results threadResult
       = Some (added ++ [mkEntry "b" None false "Failed to publish tweet"])
    /\ forallb e_success added = true
    /\ Service.publishedCount
         (added ++ [mkEntry "b" None false "Failed to publish tweet"])
       = 1
    /\ (Forall (fun x => tw_status x <> TweetStatus_PUBLISHED)
               [Sample.draft "a" "one" 1] ->
        1 = 1)
    /\ (0 < 1 ->
        t_message threadResult
        = "Thread publishing stopped after 1/3 tweets to maintain thread integrity").
Proof.
  apply (thread_stops_at_first_failure
           Sample.second_post_fails 0 "u1" "p1"
           [Sample.draft "a" "one" 1; Sample.draft "b" "two" 2;
            Sample.draft "c" "three" 3]
           [Sample.draft "a" "one" 1] [Sample.draft "c" "three" 3]
           (Sample.draft "b" "two" 2)
           Sample.start
           (mkState [EvDbGetProject "p1"] Sample.creds1)
           (mkState [EvDbGetProject "p1"; EvDbGetCredentials "u1"] Sample.creds1)
           (mkState [EvDbGetProject "p1"; EvDbGetCredentials "u1";
                     EvPostTweet "A1" (mkPayload "one" None None);
                     EvDbUpdateTweet "p1" "a" "t1" "one"] Sample.creds1)
           (mkState [EvDbGetProject "p1"; EvDbGetCredentials "u1";
                     EvPostTweet "A1" (mkPayload "one" None None);
                     EvDbUpdateTweet "p1" "a" "t1" "one";
                     EvPostTweet "A1" (mkPayload "two" None (Some "t1"))]
                    Sample.creds1)
           (mkVerification true None None)
           Sample.creds1
           (Service.mkLoop (Some "t1")
              [mkEntry "a" (Some "t1") true "Tweet published successfully"])
           (Service.api_error_result (mkError "Internal error" (Some 500%Z) None None))).
  - reflexivity.
  - reflexivity.
  - reflexivity.
  - reflexivity.
  - reflexivity.
  - simpl. discriminate.
  - reflexivity.
  - reflexivity.
Defined.

(** C3 as stated fails when the thread is entered again: the first tweet is
    already published, the second is published by this call, the third, at
    sorted position 3, fails; the result reports 1 published post, not 2. *)
Lemma reentered_thread_reports_fewer :
  Service.publishThreadTweets Sample.second_post_fails 0 "u1" "p1"
    [Sample.published "a" "one" 1 "100"; Sample.draft "b" "two" 2;
     Sample.draft "c" "three" 3; Sample.draft "d" "four" 4]
    Sample.start
  = (Ok (mkThreadResult false
           "Thread publishing stopped after 1/4 tweets to maintain thread integrity"
           (Some [mkEntry "b" (Some "t1") true "Tweet published successfully";
                  mkEntry "c" None false "Failed to publish tweet"])
           None),
     mkState [EvDbGetProject "p1"; EvDbGetCredentials "u1";
              EvPostTweet "A1" (mkPayload "two" None (Some "100"));
              EvDbUpdateTweet "p1" "b" "t1" "two";
              EvPostTweet "A1" (mkPayload "three" None (Some "t1"))]
             Sample.creds1).
Proof. reflexivity. Qed.

(** A computation goes on from where its first part stopped. *)
Lemma bind_extends A B (f : Event -> bool) (m : M A) (k : A -> M B) s :
  (forall a, emits f (k a)) ->
  exists more, trace (snd (bind m k s)) = trace (snd (m s)) ++ more.
Proof.
  intros Hk. unfold bind. destruct (m s) as [[a | e |] s1]; simpl.
  - destruct (Hk a s1) as [more [Ht _]]. exists more. exact Ht.
  - exists []. rewrite app_nil_r. reflexivity.
  - exists []. rewrite app_nil_r. reflexivity.
Qed.

Lemma try_catch_extends A (f : Event -> bool) (m : M A) (h : JsError -> M A) s :
  (forall e, emits f (h e)) ->
  exists more, trace (snd (try_catch m h s)) = trace (snd (m s)) ++ more.
Proof.
  intros Hh. unfold try_catch. destruct (m s) as [[a | e |] s1]; simpl.
  - exists []. rewrite app_nil_r. reflexivity.
  - destruct (Hh e s1) as [more [Ht _]]. exists more. exact Ht.
  - exists []. rewrite app_nil_r. reflexivity.
Qed.

Lemma attempt_state A (m : M A) s : snd (attempt m s) = snd (m s).
Proof. rewrite attempt_run. destruct (m s) as [[a | e |] s1]; reflexivity. Qed.

Lemma thread_finish_state n run : snd (thread_finish n run) = snd run.
Proof. destruct run as [[final | e |] s]; reflexivity. Qed.

(** Once the payload of a thread tweet is prepared, the post call is made:
    it is the next event of the loop. *)
Lemma thread_post_is_made env fuel projectId t rest st s payload s3 :
  tw_status t <> TweetStatus_PUBLISHED ->
  Service.prepareTweetPayload env fuel
    (Service.publishOptions t (Service.previousTweetId st)) (accessToken (creds s)) s
  = (Ok payload, s3) ->
  exists more,
    trace (snd (for_of (Service.thread_body env fuel projectId) (t :: rest) st s))
    = trace s3 ++ EvPostTweet (accessToken (creds s)) payload :: more.
Proof.
  intros Hstatus Hprep. apply String.eqb_neq in Hstatus.
  simpl for_of.
  destruct (bind_extends _ _ is_thread_event
              (Service.thread_body env fuel projectId t st)
              (fun c => match c with
                        | Continue s' =>
                            for_of (Service.thread_body env fuel projectId) rest s'
                        | Break s' => ret (Break s')
                        end) s) as [more1 H1].
  { intros [st' | st']; [ | emits_auto].
    apply emits_for_of. intros x st0. apply emits_thread_body. }
  rewrite H1. clear H1.
  unfold Service.thread_body. rewrite Hstatus.
  match goal with
  | |- context [bind ?m ?k s] =>
      destruct (bind_extends _ _ is_thread_event m k s) as [more2 H2]
  end.
  { intros [error | result]; [emits_auto | ].
    unfold Service.updateTweetStatus.
    destruct (success result && truthy (twitterTweetId result)); emits_auto. }
  rewrite H2, attempt_state. clear H2.
  unfold Service.publishTweetWithRefresh. rewrite bind_get_creds.
  match goal with
  | |- context [try_catch ?m ?h s] =>
      destruct (try_catch_extends _ is_publish_event m h s) as [more3 H3]
  end.
  { intros e. emits_step; [emits_auto | ].
    destruct (_ && _); [ | emits_auto].
    emits_step; [apply emits_retry_attempt | emits_auto]. }
  rewrite H3. clear H3.
  unfold Service.first_attempt. rewrite (bind_ok _ _ _ _ _ _ _ Hprep).
  match goal with
  | |- context [bind ?m ?k s3] =>
      destruct (bind_extends _ _ is_publish_event m k s3) as [more4 H4]
  end.
  { intros body. unfold Service.data_id. emits_auto. }
  rewrite H4. clear H4.
  rewrite (proj1 (utils_publishTweet_trace env (accessToken (creds s)) payload s3)).
  exists (more4 ++ more3 ++ more2 ++ more1).
  rewrite <- !app_assoc. reflexivity.
Qed.

(** C4.  The checks of [publishThreadTweets] have passed; in sorted order the
    thread opens with tweets that all have the status published, the last of
    them with the stored provider id [id], followed by [t], the first tweet
    not yet published.  Then going through the published tweets makes no call
    and adds no entry: it leaves the state as it is and hands on [id]; the
    whole publish is the loop started at [t] with [id] at hand; [t] is
    published with [id] as its reply target, and every post call made for it
    replies to [id].  And the post is made: once the payload of [t] is
    prepared (its image, if it has one, uploaded), the next event of the call
    is the post call for [t], with the text of [t] and [id] as its reply
    target, and no post call has been made before it; for a tweet without an
    image that post call is the first event after the checks. *)
Theorem published_prefix_is_skipped
    (env : Env) (fuel : nat) (user projectId : string)
    (threadTweets pre rest : list ThreadTweet) (lastPublished t : ThreadTweet)
    (s s1 s2 : State) (v : ProjectVerificationResult) (c : Credentials)
    (id : string) :
  Service.verifyProjectAccess env user projectId s = (Ok v, s1) ->
  isAuthorized v = true ->
  Service.getTwitterCredentials env user s1 = (Ok (Some c), s2) ->
  Service.sortedTweets threadTweets = (pre ++ [lastPublished]) ++ t :: rest ->
  Forall (fun x => tw_status x = TweetStatus_PUBLISHED) (pre ++ [lastPublished]) ->
  tw_publishedTweetId lastPublished = Some id ->
  id <> "" ->
  tw_status t <> TweetStatus_PUBLISHED ->
  let start := mkState (trace s2) c in
  for_of (Service.thread_body env fuel projectId) (pre ++ [lastPublished])
         (Service.mkLoop None []) start
  = (Ok (Continue (Service.mkLoop (Some id) [])), start)
  /\ Service.publishThreadTweets env fuel user projectId threadTweets s
     = thread_finish (length (Service.sortedTweets threadTweets))
         (for_of (Service.thread_body env fuel projectId) (t :: rest)
                 (Service.mkLoop (Some id) []) start)
  /\ o_replyToTweetId (Service.publishOptions t (Some id)) = Some id
  /\ only (replies_to (Some id))
          (events_since start
             (snd (Service.thread_body env fuel projectId t
                     (Service.mkLoop (Some id) []) start)))
  /\ (forall payload s3,
        Service.prepareTweetPayload env fuel (Service.publishOptions t (Some id))
          (accessToken c) start = (Ok payload, s3) ->
        p_in_reply_to_tweet_id payload = Some id
        /\ p_text payload = tw_text t
        /\ count_events is_post (events_since s s3) = 0
        /\ exists more,
             trace (snd (Service.publishThreadTweets env fuel user projectId
                           threadTweets s))
             = trace s3 ++ EvPostTweet (accessToken c) payload :: more)
  /\ (truthy (tw_imageUrl t) = false ->
      exists more,
        trace (snd (Service.publishThreadTweets env fuel user projectId threadTweets s))
        = trace s2
          ++ EvPostTweet (accessToken c)
               (mkPayload (tw_text t)
                          match tw_mediaIds t with
                          | Some (m :: ms) => Some (m :: ms)
                          | _ => None
                          end
                          (Some id))
             :: more).
Proof.
  intros Hverify Hauth Hcreds Hsorted Hpublished Hid Hne Hstatus start.
  assert (Hprefix : forall l st s0,
             Forall (fun x => tw_status x = TweetStatus_PUBLISHED) l ->
             for_of (Service.thread_body env fuel projectId) l st s0
             = (Ok (Continue
                      (Service.mkLoop
                         (match l with
                          | [] => Service.previousTweetId st
                          | _ => tw_publishedTweetId (last l t)
                          end)
                         (Service.results st))), s0)).
  { induction l as [| x l IH]; intros st s0 Hl.
    - destruct st. reflexivity.
    - inversion Hl as [| ? ? Hx Hl']; subst. simpl for_of.
      rewrite (bind_ok _ _ _ _ _ _ _ (thread_body_published env fuel projectId x st s0 Hx)).
      rewrite (IH _ _ Hl'). destruct l; reflexivity. }
  assert (Hskip : for_of (Service.thread_body env fuel projectId)
                         (pre ++ [lastPublished]) (Service.mkLoop None []) start
                  = (Ok (Continue (Service.mkLoop (Some id) [])), start)).
  { rewrite (Hprefix _ _ _ Hpublished). rewrite last_last, Hid.
    destruct pre; reflexivity. }
  assert (Hrun : Service.publishThreadTweets env fuel user projectId threadTweets s
                 = thread_finish (length (Service.sortedTweets threadTweets))
                     (for_of (Service.thread_body env fuel projectId) (t :: rest)
                             (Service.mkLoop (Some id) []) start)).
  { rewrite (publishThreadTweets_run env fuel user projectId threadTweets
               s v s1 c s2 Hverify Hauth Hcreds).
    2: { apply sortedTweets_nonempty. rewrite Hsorted.
         destruct (pre ++ [lastPublished]); discriminate. }
    rewrite Hsorted at 2. rewrite for_of_app. fold start. rewrite Hskip.
    reflexivity. }
  assert (Hmade : forall payload s3,
            Service.prepareTweetPayload env fuel (Service.publishOptions t (Some id))
              (accessToken c) start = (Ok payload, s3) ->
            exists more,
              trace (snd (Service.publishThreadTweets env fuel user projectId
                            threadTweets s))
              = trace s3 ++ EvPostTweet (accessToken c) payload :: more).
  { intros payload s3 Hprep. rewrite Hrun, thread_finish_state.
    apply (thread_post_is_made env fuel projectId t rest
             (Service.mkLoop (Some id) []) start payload s3 Hstatus Hprep). }
  split; [exact Hskip | ].
  split; [exact Hrun | ].
  split.
  { apply (reply_target_previous t id Hne). }
  split.
  { destruct (emits_events_since _ _ _ start
                (emits_thread_body_replies env fuel projectId t
                   (Service.mkLoop (Some id) []) Hstatus)) as [_ Ho].
    cbn [Service.previousTweetId] in Ho.
    rewrite (proj2 (reply_target_previous t id Hne)) in Ho. exact Ho. }
  split.
  { intros payload s3 Hprep.
    destruct (prepareTweetPayload_reply env fuel _ _ _ _ _ Hprep) as [Hreply Htext].
    rewrite (proj2 (reply_target_previous t id Hne)) in Hreply.
    split; [exact Hreply | ]. split; [exact Htext | ].
    split; [ | exact (Hmade payload s3 Hprep)].
    destruct (emits_verifyProjectAccess env user projectId s) as [evs1 [Ht1 Ho1]].
    rewrite Hverify in Ht1. simpl in Ht1.
    destruct (emits_getTwitterCredentials env user s1) as [evs2 [Ht2 Ho2]].
    rewrite Hcreds in Ht2. simpl in Ht2.
    destruct (emits_prepareTweetPayload env fuel (Service.publishOptions t (Some id))
                (accessToken c) start) as [evs3 [Ht3 Ho3]].
    rewrite Hprep in Ht3. simpl in Ht3.
    assert (Ht : trace s3 = trace s ++ (evs1 ++ evs2 ++ evs3))
      by (rewrite Ht3, Ht2, Ht1, <- !app_assoc; reflexivity).
    rewrite (events_since_app _ _ _ Ht), !count_events_app.
    rewrite (count_events_none is_post is_access_read evs1),
            (count_events_none is_post is_credentials_read evs2),
            (count_events_none is_post is_upload_event evs3 upload_event_not_post Ho3);
      [reflexivity | | exact Ho2 | | exact Ho1];
      intros [] H; try discriminate; reflexivity. }
  intros Himage.
  apply (Hmade (mkPayload (tw_text t)
                          match tw_mediaIds t with
                          | Some (m :: ms) => Some (m :: ms)
                          | _ => None
                          end
                          (Some id)) start).
  unfold Service.prepareTweetPayload, bind, ret.
  cbn [Service.publishOptions o_imageUrl o_mediaIds o_text o_replyToTweetId].
  rewrite Himage. cbn [andb].
  apply truthy_some in Hne. rewrite !Hne. reflexivity.
Qed.

Lemma published_prefix_is_skipped_witness :
  (for_of (Service.thread_body Sample.quiet 0 "p1")
          ([Sample.published "a" "one" 1 "100"] ++ [Sample.published "b" "two" 2 "101"])
          (Service.mkLoop None [])
          (mkState [EvDbGetProject "p1"; EvDbGetCredentials "u1"] Sample.creds1)
   = (Ok (Continue (Service.mkLoop (Some "101") [])),
      mkState [EvDbGetProject "p1"; EvDbGetCredentials "u1"] Sample.creds1)
   /\ Service.publishThreadTweets Sample.quiet 0 "u1" "p1"
        [Sample.draft "c" "three" 3; Sample.published "b" "two" 2 "101";
         Sample.published "a" "one" 1 "100"]
        Sample.start
      = thread_finish
          (length (Service.sortedTweets
                     [Sample.draft "c" "three" 3; Sample.published "b" "two" 2 "101";
                      Sample.published "a" "one" 1 "100"]))
          (for_of (Service.thread_body Sample.quiet 0 "p1")
                  (Sample.draft "c" "three" 3 :: [])
                  (Service.mkLoop (Some "101") [])
                  (mkState [EvDbGetProject "p1"; EvDbGetCredentials "u1"] Sample.creds1))
   /\ o_replyToTweetId (Service.publishOptions (Sample.draft "c" "three" 3) (Some "101"))
      = Some "101"
   /\ only (replies_to (Some "101"))
           (events_since
              (mkState [EvDbGetProject "p1"; EvDbGetCredentials "u1"] Sample.creds1)
              (snd (Service.thread_body Sample.quiet 0 "p1" (Sample.draft "c" "three" 3)
                      (Service.mkLoop (Some "101") [])
                      (mkState [EvDbGetProject "p1"; EvDbGetCredentials "u1"]
                               Sample.creds1))))
   /\ (forall payload s3,
         Service.prepareTweetPayload Sample.quiet 0
           (Service.publishOptions (Sample.draft "c" "three" 3) (Some "101"))
           (accessToken Sample.creds1)
           (mkState [EvDbGetProject "p1"; EvDbGetCredentials "u1"] Sample.creds1)
         = (Ok payload, s3) ->
         p_in_reply_to_tweet_id payload = Some "101"
         /\ p_text payload = tw_text (Sample.draft "c" "three" 3)
         /\ count_events is_post (events_since Sample.start s3) = 0
         /\ exists more,
              trace (snd (Service.publishThreadTweets Sample.quiet 0 "u1" "p1"
                            [Sample.draft "c" "three" 3;
                             Sample.published "b" "two" 2 "101";
                             Sample.published "a" "one" 1 "100"]
                            Sample.start))
              = trace s3 ++ EvPostTweet (accessToken Sample.creds1) payload :: more)
   /\ (truthy (tw_imageUrl (Sample.draft "c" "three" 3)) = false ->
       exists more,
         trace (snd (Service.publishThreadTweets Sample.quiet 0 "u1" "p1"
                       [Sample.draft "c" "three" 3; Sample.published "b" "two" 2 "101";
                        Sample.published "a" "one" 1 "100"]
                       Sample.start))
         = trace (mkState [EvDbGetProject "p1"; EvDbGetCredentials "u1"] Sample.creds1)
           ++ EvPostTweet (accessToken Sample.creds1)
                (mkPayload (tw_text (Sample.draft "c" "three" 3))
                           match tw_mediaIds (Sample.draft "c" "three" 3) with
                           | Some (m :: ms) => Some (m :: ms)
                           | _ => None
                           end
                           (Some "101"))
              :: more))
  /\ Service.publishThreadTweets Sample.quiet 0 "u1" "p1"
       [Sample.draft "c" "three" 3; Sample.published "b" "two" 2 "101";
        Sample.published "a" "one" 1 "100"]
       Sample.start
     = (Ok (mkThreadResult true "Thread published successfully (1 tweets)"
              (Some [mkEntry "c" (Some "t1") true "Tweet published successfully"])
              None),
        mkState [EvDbGetProject "p1"; EvDbGetCredentials "u1";
                 EvPostTweet "A1" (mkPayload "three" None (Some "101"));
                 EvDbUpdateTweet "p1" "c" "t1" "three"]
                Sample.creds1).
Proof.
  split.
  - apply (published_prefix_is_skipped
             Sample.quiet 0 "u1" "p1"
             [Sample.draft "c" "three" 3; Sample.published "b" "two" 2 "101";
              Sample.published "a" "one" 1 "100"]
             [Sample.published "a" "one" 1 "100"] []
             (Sample.published "b" "two" 2 "101")
             (Sample.draft "c" "three" 3)
             Sample.start
             (mkState [EvDbGetProject "p1"] Sample.creds1)
             (mkState [EvDbGetProject "p1"; EvDbGetCredentials "u1"] Sample.creds1)
             (mkVerification true None None)
             Sample.creds1
             "101").
    + reflexivity.
    + reflexivity.
    + reflexivity.
    + reflexivity.
    + repeat constructor.
    + reflexivity.
    + discriminate.
    + simpl. discriminate.
  - reflexivity.
Defined.

(** * Further properties of the code *)

(** ** Access to a project *)

(** X1.  [verifyProjectAccess] always answers, whatever the store does.  It
    grants access only when the project document exists and names the user
    as its owner, or names a workspace whose document exists and lists the
    user as a member or as its owner.  Every refusal carries an error text
    and the status 403, 404 or 500. *)
Theorem access_granted_only_to_owner_or_member
    (env : Env) (user projectId : string) (s : State) :
  exists v s',
    Service.verifyProjectAccess env user projectId s = (Ok v, s')
    /\ (isAuthorized v = true ->
        exists project,
          db_project env (trace s ++ [EvDbGetProject projectId])
          = inr (ExistsData project)
          /\ (proj_userId project = Some user
              \/ exists workspaceId workspace,
                   proj_workspaceId project = Some workspaceId
                   /\ workspaceId <> ""
                   /\ db_workspace env (trace s ++ [EvDbGetProject projectId;
                                                    EvDbGetWorkspace workspaceId])
                      = inr (ExistsData workspace)
                   /\ (ws_ownerId workspace = Some user
                       \/ exists members,
                            ws_members workspace = Some members /\ In user members)))
    /\ (isAuthorized v = false ->
        v_error v <> None
        /\ (v_statusCode v = Some 403%Z \/ v_statusCode v = Some 404%Z
            \/ v_statusCode v = Some 500%Z)).
Proof.
  assert (Hrefused : forall msg st,
            st = 403%Z \/ st = 404%Z \/ st = 500%Z ->
            forall P : Prop,
              (isAuthorized (mkVerification false (Some msg) (Some st)) = true -> P)
              /\ (isAuthorized (mkVerification false (Some msg) (Some st)) = false ->
                  v_error (mkVerification false (Some msg) (Some st)) <> None
                  /\ (v_statusCode (mkVerification false (Some msg) (Some st))
                      = Some 403%Z
                      \/ v_statusCode (mkVerification false (Some msg) (Some st))
                         = Some 404%Z
                      \/ v_statusCode (mkVerification false (Some msg) (Some st))
                         = Some 500%Z))).
  { intros msg st Hst P. simpl. split; [discriminate | ].
    intros _. split; [discriminate | ].
    destruct Hst as [-> | [-> | ->]]; tauto. }
  unfold Service.verifyProjectAccess, try_catch, bind, perform, ret; simpl.
  destruct (db_project env (trace s ++ [EvDbGetProject projectId]))
    as [e | [| | project]] eqn:Hproject; simpl.
  1-3: eexists; eexists; split; [reflexivity | apply Hrefused; tauto].
  destruct (match proj_userId project with
            | Some u => u =? user
            | None => false
            end) eqn:Howner; simpl.
  { eexists; eexists; split; [reflexivity | ]; simpl.
    split; [ | discriminate].
    intros _. exists project. split; [reflexivity | left].
    destruct (proj_userId project) as [u |]; [ | discriminate].
    apply String.eqb_eq in Howner. congruence. }
  destruct (truthy (proj_workspaceId project)) eqn:Hws; simpl;
    [ | eexists; eexists; split; [reflexivity | apply Hrefused; tauto]].
  destruct (proj_workspaceId project) as [workspaceId |] eqn:Hid; [ | discriminate].
  simpl in Hws. apply negb_true_iff in Hws. simpl. rewrite Hws.
  rewrite <- app_assoc. simpl.
  destruct (db_workspace env (trace s ++ [EvDbGetProject projectId;
                                           EvDbGetWorkspace workspaceId]))
    as [e | [| | workspace]] eqn:Hworkspace; simpl.
  1-3: eexists; eexists; split; [reflexivity | apply Hrefused; tauto].
  destruct (match ws_members workspace with
            | Some members => existsb (String.eqb user) members
            | None => false
            end
            || match ws_ownerId workspace with
               | Some o => o =? user
               | None => false
               end) eqn:Hmember; simpl;
    [ | eexists; eexists; split; [reflexivity | apply Hrefused; tauto]].
  eexists; eexists; split; [reflexivity | ]; simpl.
  split; [ | discriminate].
  intros _. exists project. split; [reflexivity | right].
  exists workspaceId, workspace.
  split; [exact Hid | ].
  split; [intros ->; discriminate | ].
  split; [exact Hworkspace | ].
  apply orb_true_iff in Hmember. destruct Hmember as [Hm | Ho].
  - right. destruct (ws_members workspace) as [members |]; [ | discriminate].
    exists members. split; [reflexivity | ].
    apply existsb_exists in Hm. destruct Hm as [x [Hin Heq]].
    apply String.eqb_eq in Heq. subst x. exact Hin.
  - left. destruct (ws_ownerId workspace) as [o |]; [ | discriminate].
    apply String.eqb_eq in Ho. congruence.
Qed.

Lemma getTwitterCredentials_run
    (env : Env) (user : string) (s : State) :
  exists r,
    Service.getTwitterCredentials env user s
    = (Ok r, mkState (trace s ++ [EvDbGetCredentials user]) (creds s))
    /\ forall c,
         r = Some c ->
         accessToken c <> ""
         /\ exists doc,
              db_credentials env (trace s ++ [EvDbGetCredentials user])
              = inr (ExistsData doc)
              /\ doc_accessToken doc = Some (accessToken c)
              /\ doc_refreshToken doc = refreshToken c
              /\ doc_clientId doc = clientId c
              /\ doc_clientSecret doc = clientSecret c
              /\ doc_userId doc = userId c.
Proof.
  unfold Service.getTwitterCredentials, try_catch, bind, perform, ret; simpl.
  destruct (db_credentials env (trace s ++ [EvDbGetCredentials user]))
    as [e | [| | doc]] eqn:Hdoc; simpl.
  1-3: eexists; split; [reflexivity | discriminate].
  destruct (doc_accessToken doc) as [tok |] eqn:Htok; simpl;
    [ | eexists; split; [reflexivity | discriminate]].
  destruct (tok =? "") eqn:Hempty; simpl;
    [eexists; split; [reflexivity | discriminate] | ].
  eexists; split; [reflexivity | ].
  intros c Hc. injection Hc as <-. simpl.
  apply String.eqb_neq in Hempty.
  split; [assumption | ].
  exists doc. rewrite Htok. repeat split; reflexivity.
Qed.

(** X2.  [getTwitterCredentials] always answers and makes exactly one call,
    the read of the user's credentials document.  It hands out credentials
    only when that document exists and holds a non-empty access token; the
    credentials are then the stored ones. *)
Theorem credentials_come_from_the_store
    (env : Env) (user : string) (s : State) :
  exists r,
    Service.getTwitterCredentials env user s
    = (Ok r, mkState (trace s ++ [EvDbGetCredentials user]) (creds s))
    /\ forall c,
         r = Some c ->
         accessToken c <> ""
         /\ exists doc,
              db_credentials env (trace s ++ [EvDbGetCredentials user])
              = inr (ExistsData doc)
              /\ doc_accessToken doc = Some (accessToken c)
              /\ doc_refreshToken doc = refreshToken c
              /\ doc_clientId doc = clientId c
              /\ doc_clientSecret doc = clientSecret c
              /\ doc_userId doc = userId c.
Proof. exact (getTwitterCredentials_run env user s). Qed.

(** ** Token exchange *)

Lemma refreshTwitterAccessToken_outcome
    (env : Env) (c : Credentials) (s : State) :
  let ev := EvOAuthToken (clientId c) (clientSecret c) (refreshToken c) in
  snd (Utils.refreshTwitterAccessToken env c s)
  = mkState (trace s ++ [ev]) (creds s)
  /\ fst (Utils.refreshTwitterAccessToken env c s) <> OutOfFuel
  /\ (forall a r ex,
        fst (Utils.refreshTwitterAccessToken env c s) = Ok (a, r, ex) ->
        a <> "" /\ r <> ""
        /\ exists resp t,
             net_oauth env (trace s ++ [ev]) = inr resp
             /\ tok_ok resp = true
             /\ tok_json resp = inr (BodyObject t)
             /\ access_token t = Some a
             /\ refresh_token t = Some r
             /\ expires_in t = ex)
  /\ (forall resp d,
        net_oauth env (trace s ++ [ev]) = inr resp ->
        tok_ok resp = false ->
        tok_json resp = inr (BodyObject d) ->
        fst (Utils.refreshTwitterAccessToken env c s)
        = Throw (mkError (or_default (error_description d) "Failed to refresh token")
                         (if (tok_status resp =? 0)%Z then None
                          else Some (tok_status resp))
                         None None)).
Proof.
  intros ev. subst ev.
  unfold Utils.refreshTwitterAccessToken, Utils.refreshOAuthToken,
    try_catch, bind, perform, parsed, throw, ret; simpl.
  destruct (net_oauth env (trace s ++ [EvOAuthToken (clientId c) (clientSecret c)
                                                     (refreshToken c)]))
    as [e | resp] eqn:Hresp; simpl.
  { repeat split; try discriminate. }
  destruct (tok_ok resp) eqn:Hok; simpl.
  - assert (Hlast : forall resp' (d : TokenJson) (R : Prop),
              @inr JsError TokenResponse resp = inr resp' -> tok_ok resp' = false -> R).
    { intros resp' d R Hresp'. injection Hresp' as <-. rewrite Hok. discriminate. }
    destruct (tok_json resp) as [e | [| | t]] eqn:Hjson; simpl.
    1-3: split; [reflexivity | ]; split; [discriminate | ];
         split; [discriminate | intros resp' d H1 H2; exact (Hlast resp' d _ H1 H2)].
    destruct (access_token t) as [a |] eqn:Ha; simpl;
      [ | split; [reflexivity | ]; split; [discriminate | ];
          split; [discriminate | intros resp' d H1 H2; exact (Hlast resp' d _ H1 H2)]].
    destruct (a =? "") eqn:Hae; simpl;
      [split; [reflexivity | ]; split; [discriminate | ];
       split; [discriminate | intros resp' d H1 H2; exact (Hlast resp' d _ H1 H2)] | ].
    destruct (refresh_token t) as [r |] eqn:Hr; simpl;
      [ | split; [reflexivity | ]; split; [discriminate | ];
          split; [discriminate | intros resp' d H1 H2; exact (Hlast resp' d _ H1 H2)]].
    destruct (r =? "") eqn:Hre; simpl;
      [split; [reflexivity | ]; split; [discriminate | ];
       split; [discriminate | intros resp' d H1 H2; exact (Hlast resp' d _ H1 H2)] | ].
    split; [reflexivity | ]. split; [discriminate | ].
    split; [ | intros resp' d H1 H2; exact (Hlast resp' d _ H1 H2)].
    intros a' r' ex H. injection H as <- <- <-.
    apply String.eqb_neq in Hae. apply String.eqb_neq in Hre.
    split; [assumption | ]. split; [assumption | ].
    exists resp, t. repeat split; assumption.
  - destruct (tok_json resp) as [e | [| | t]] eqn:Hjson; simpl.
    1-3: split; [reflexivity | ]; split; [discriminate | ];
         split; [discriminate | ];
         intros resp' d Hresp' _ Hbody; injection Hresp' as <-;
         rewrite Hjson in Hbody; discriminate.
    split; [reflexivity | ]. split; [discriminate | ].
    split; [discriminate | ].
    intros resp' d Hresp' _ Hbody. injection Hresp' as <-.
    rewrite Hjson in Hbody. injection Hbody as <-.
    unfold truthyZ.
    destruct (error_description t) as [m |]; simpl;
      [destruct (m =? "") eqn:Hm; simpl; rewrite ?Hm | ];
      destruct (tok_status resp =? 0)%Z; reflexivity.
Qed.

(** X3.  A token exchange is one call to the provider.  It returns a pair only
    when the provider answered with a success status and a body that holds
    a non-empty access token and a non-empty refresh token, and the pair
    returned is that one.  When the provider refuses with a readable body,
    the error raised carries the provider's error_description (else 'Failed
    to refresh token') and the HTTP status as its code. *)
Theorem refreshed_pair_is_the_providers
    (env : Env) (c : Credentials) (s : State) :
  let ev := EvOAuthToken (clientId c) (clientSecret c) (refreshToken c) in
  snd (Utils.refreshTwitterAccessToken env c s)
  = mkState (trace s ++ [ev]) (creds s)
  /\ fst (Utils.refreshTwitterAccessToken env c s) <> OutOfFuel
  /\ (forall a r ex,
        fst (Utils.refreshTwitterAccessToken env c s) = Ok (a, r, ex) ->
        a <> "" /\ r <> ""
        /\ exists resp t,
             net_oauth env (trace s ++ [ev]) = inr resp
             /\ tok_ok resp = true
             /\ tok_json resp = inr (BodyObject t)
             /\ access_token t = Some a
             /\ refresh_token t = Some r
             /\ expires_in t = ex)
  /\ (forall resp d,
        net_oauth env (trace s ++ [ev]) = inr resp ->
        tok_ok resp = false ->
        tok_json resp = inr (BodyObject d) ->
        fst (Utils.refreshTwitterAccessToken env c s)
        = Throw (mkError (or_default (error_description d) "Failed to refresh token")
                         (if (tok_status resp =? 0)%Z then None
                          else Some (tok_status resp))
                         None None)).
Proof. exact (refreshTwitterAccessToken_outcome env c s). Qed.

(** ** The upload protocol *)

Section UploadProtocol.
Variable env : Env.

Lemma polls_of_checkMediaProcessingStatus fuel mediaId tok p s :
  exists polls,
    trace (snd (MediaUpload.checkMediaProcessingStatus env fuel mediaId tok p s))
    = trace s ++ polls
    /\ creds (snd (MediaUpload.checkMediaProcessingStatus env fuel mediaId tok p s))
       = creds s
    /\ polls_ok tok mediaId polls = true.
Proof.
  revert p s. induction fuel as [| n IH]; intros p s; simpl.
  - destruct (state p =? "succeeded"); exists []; simpl; rewrite app_nil_r; auto.
  - destruct (state p =? "succeeded");
      [exists []; simpl; rewrite app_nil_r; auto | ].
    unfold MediaUpload.poll_status, bind, log_event, perform, parsed, throw, ret;
      simpl.
    rewrite <- app_assoc. simpl.
    assert (Hone : polls_ok tok mediaId
                     [EvSleep (or_defaultZ (check_after_secs p) 1);
                      EvUploadStatus tok mediaId] = true).
    { simpl. rewrite !String.eqb_refl. reflexivity. }
    destruct (net_status env _) as [e | resp]; simpl;
      [eexists; split; [reflexivity | split; [reflexivity | exact Hone]] | ].
    destruct (st_ok resp); simpl;
      [ | eexists; split; [reflexivity | split; [reflexivity | exact Hone]]].
    destruct (st_json resp) as [e | [p' |]]; simpl;
      try (eexists; split; [reflexivity | split; [reflexivity | exact Hone]]).
    destruct (IH p' (mkState (trace s ++ [EvSleep (or_defaultZ (check_after_secs p) 1);
                                          EvUploadStatus tok mediaId]) (creds s)))
      as [polls [Ht [Hc Hp]]].
    simpl in Ht, Hc.
    exists (EvSleep (or_defaultZ (check_after_secs p) 1)
            :: EvUploadStatus tok mediaId :: polls).
    split; [rewrite Ht, <- app_assoc; reflexivity | ].
    split; [exact Hc | ].
    simpl. rewrite !String.eqb_refl. exact Hp.
Qed.

(** A run of the phases that stops early: the events so far are in order. *)
Ltac stop_here :=
  simpl; eexists;
  split; [rewrite <- ?app_assoc; simpl; reflexivity | ];
  split; [reflexivity | ];
  split; [simpl; rewrite ?String.eqb_refl; reflexivity | ];
  intros; discriminate.

Lemma upload_phases_trace url tok s :
  exists evs,
    trace (snd (MediaUpload.upload_phases env url tok s)) = trace s ++ evs
    /\ creds (snd (MediaUpload.upload_phases env url tok s)) = creds s
    /\ upload_trace_ok url tok evs = true
    /\ forall mediaId p,
         fst (MediaUpload.upload_phases env url tok s) = Ok (mediaId, p) ->
         mediaId <> ""
         /\ exists contentType contentLength body initResponse,
              evs = [EvFetchHead url; EvUploadInit tok contentType contentLength;
                     EvFetchImage url; EvUploadAppend tok mediaId body;
                     EvUploadFinalize tok mediaId]
              /\ net_init env (trace s ++ [EvFetchHead url;
                                           EvUploadInit tok contentType contentLength])
                 = inr initResponse
              /\ init_ok initResponse = true
              /\ init_json initResponse = InitData (Some mediaId).
Proof.
  unfold MediaUpload.upload_phases, bind, perform, parsed, throw, ret; simpl.
  destruct (net_head env _) as [e | headResponse]; [stop_here | ]. simpl.
  destruct (head_ok headResponse); simpl; [ | stop_here].
  destruct (truthy (head_content_length headResponse)); simpl; [ | stop_here].
  destruct (net_init env _) as [e | initResponse] eqn:Hinit; [stop_here | ]. simpl.
  destruct (init_ok initResponse) eqn:Hinit_ok; simpl; [ | stop_here].
  destruct (init_json initResponse) as [e | | | [id |]] eqn:Hjson; simpl;
    try stop_here.
  destruct (id =? "") eqn:Hid; simpl; [stop_here | ].
  destruct (net_image env _) as [e | imageResponse]; [stop_here | ]. simpl.
  destruct (img_ok imageResponse); simpl; [ | stop_here].
  destruct (img_arrayBuffer imageResponse) as [e | buffer]; simpl; [stop_here | ].
  destruct (net_append env _) as [e | appendResponse]; [stop_here | ]. simpl.
  destruct (app_ok appendResponse); simpl; [ | stop_here].
  destruct (net_finalize env _) as [e | finalizeResponse]; [stop_here | ]. simpl.
  destruct (fin_ok finalizeResponse); simpl; [ | stop_here].
  destruct (fin_json finalizeResponse) as [e | finalizeData]; simpl; [stop_here | ].
  eexists.
  split; [rewrite <- ?app_assoc; simpl; reflexivity | ].
  split; [reflexivity | ].
  split; [simpl; rewrite ?String.eqb_refl; reflexivity | ].
  intros mediaId p H. injection H as <- <-.
  apply String.eqb_neq in Hid.
  split; [exact Hid | ].
  do 3 eexists. exists initResponse.
  split; [reflexivity | ].
  rewrite <- app_assoc in Hinit. simpl in Hinit.
  split; [exact Hinit | ]. split; [exact Hinit_ok | exact Hjson].
Qed.

End UploadProtocol.

Lemma uploadMediaToTwitter_run (env : Env) fuel url tok s :
  exists evs,
    trace (snd (MediaUpload.uploadMediaToTwitter env fuel url tok s)) = trace s ++ evs
    /\ creds (snd (MediaUpload.uploadMediaToTwitter env fuel url tok s)) = creds s
    /\ upload_trace_ok url tok evs = true
    /\ forall mediaId,
         fst (MediaUpload.uploadMediaToTwitter env fuel url tok s) = Ok mediaId ->
         mediaId <> ""
         /\ exists contentType contentLength body polls initResponse,
              evs = [EvFetchHead url; EvUploadInit tok contentType contentLength;
                     EvFetchImage url; EvUploadAppend tok mediaId body;
                     EvUploadFinalize tok mediaId] ++ polls
              /\ polls_ok tok mediaId polls = true
              /\ net_init env (trace s ++ [EvFetchHead url;
                                           EvUploadInit tok contentType contentLength])
                 = inr initResponse
              /\ init_ok initResponse = true
              /\ init_json initResponse = InitData (Some mediaId).
Proof.
  unfold MediaUpload.uploadMediaToTwitter, try_catch, bind.
  destruct (upload_phases_trace env url tok s) as [evs [Ht [Hc [Hok Hdone]]]].
  destruct (MediaUpload.upload_phases env url tok s)
    as [[[mediaId [p |]] | e |] s1]; simpl in *.
  - destruct (Hdone mediaId (Some p) eq_refl)
      as [Hid [ct [cl [body [initResponse [Hevs [Hinit [Hinit_ok Hjson]]]]]]]].
    destruct (polls_of_checkMediaProcessingStatus env fuel mediaId tok p s1)
      as [polls [Ht2 [Hc2 Hpolls]]].
    destruct (MediaUpload.checkMediaProcessingStatus env fuel mediaId tok p s1)
      as [[[] | e |] s2]; simpl in *;
      (exists (evs ++ polls);
       split; [rewrite Ht2, Ht, app_assoc; reflexivity | ];
       split; [congruence | ];
       split; [subst evs; simpl; rewrite !String.eqb_refl; simpl; exact Hpolls | ]).
    + intros m H. injection H as <-. split; [exact Hid | ].
      exists ct, cl, body, polls, initResponse. subst evs. auto.
    + intros; discriminate.
    + intros; discriminate.
  - destruct (Hdone mediaId None eq_refl)
      as [Hid [ct [cl [body [initResponse [Hevs [Hinit [Hinit_ok Hjson]]]]]]]].
    exists evs. split; [exact Ht | ]. split; [exact Hc | ]. split; [exact Hok | ].
    intros m H. injection H as <-. split; [exact Hid | ].
    exists ct, cl, body, [], initResponse. subst evs. auto.
  - exists evs. split; [exact Ht | ]. split; [exact Hc | ]. split; [exact Hok | ].
    intros; discriminate.
  - exists evs. split; [exact Ht | ]. split; [exact Hc | ]. split; [exact Hok | ].
    intros; discriminate.
Qed.

(** X4.  Whatever the image host and the provider answer, and however a run
    of [uploadMediaToTwitter] ends, the calls it makes follow the upload
    protocol in order: the HEAD of the image, INIT, the download of the
    image, APPEND, FINALIZE, then waits each followed by one status request;
    the run may stop after any of them.  Every provider call carries the
    access token the upload was given, and APPEND, FINALIZE and the status
    requests carry one and the same media handle.  The credentials in memory
    are left as they are. *)
Theorem upload_follows_the_protocol
    (env : Env) (fuel : nat) (url tok : string) (s : State) :
  let s' := snd (MediaUpload.uploadMediaToTwitter env fuel url tok s) in
  upload_trace_ok url tok (events_since s s') = true
  /\ creds s' = creds s.
Proof.
  intros s'. subst s'.
  destruct (uploadMediaToTwitter_run env fuel url tok s) as [evs [Ht [Hc [Hok _]]]].
  rewrite (events_since_app _ _ _ Ht). split; assumption.
Qed.

(** X5.  An upload that resolves has gone through every phase: its calls are
    exactly HEAD, INIT, the download, APPEND and FINALIZE, followed by the
    polls, and the handle it resolves with is the non-empty id that the
    provider's answer to INIT gave, the same handle APPEND and FINALIZE were
    sent for. *)
Theorem resolved_upload_is_complete
    (env : Env) (fuel : nat) (url tok : string) (s s' : State) (mediaId : string) :
  MediaUpload.uploadMediaToTwitter env fuel url tok s = (Ok mediaId, s') ->
  mediaId <> ""
  /\ exists contentType contentLength body polls initResponse,
       events_since s s'
       = [EvFetchHead url; EvUploadInit tok contentType contentLength;
          EvFetchImage url; EvUploadAppend tok mediaId body;
          EvUploadFinalize tok mediaId] ++ polls
       /\ polls_ok tok mediaId polls = true
       /\ net_init env (trace s ++ [EvFetchHead url;
                                    EvUploadInit tok contentType contentLength])
          = inr initResponse
       /\ init_ok initResponse = true
       /\ init_json initResponse = InitData (Some mediaId).
Proof.
  intros Hrun.
  destruct (uploadMediaToTwitter_run env fuel url tok s) as [evs [Ht [_ [_ Hdone]]]].
  rewrite Hrun in Ht, Hdone. simpl in Ht, Hdone.
  destruct (Hdone mediaId eq_refl)
    as [Hid [ct [cl [body [polls [initResponse [Hevs [Hpolls [Hinit [Hinit_ok Hjson]]]]]]]]]].
  split; [exact Hid | ].
  exists ct, cl, body, polls, initResponse.
  rewrite (events_since_app _ _ _ Ht).
  repeat split; auto.
Qed.

Lemma resolved_upload_is_complete_witness :
  "m1" <> ""
  /\ exists contentType contentLength body polls initResponse,
       events_since Sample.start
         (mkState [EvFetchHead "https://img.example/a.png";
                   EvUploadInit "A1" "image/png" "1024";
                   EvFetchImage "https://img.example/a.png";
                   EvUploadAppend "A1" "m1" "bytes";
                   EvUploadFinalize "A1" "m1"] Sample.creds1)
       = [EvFetchHead "https://img.example/a.png";
          EvUploadInit "A1" contentType contentLength;
          EvFetchImage "https://img.example/a.png";
          EvUploadAppend "A1" "m1" body;
          EvUploadFinalize "A1" "m1"] ++ polls
       /\ polls_ok "A1" "m1" polls = true
       /\ net_init Sample.quiet
            (trace Sample.start ++ [EvFetchHead "https://img.example/a.png";
                                    EvUploadInit "A1" contentType contentLength])
          = inr initResponse
       /\ init_ok initResponse = true
       /\ init_json initResponse = InitData (Some "m1").
Proof.
  apply (resolved_upload_is_complete Sample.quiet 0 "https://img.example/a.png" "A1"
           Sample.start).
  vm_compute. reflexivity.
Defined.

(** ** Publishing never rejects *)

Section NeverThrows.

Lemma never_throws_ret A (a : A) : never_throws (ret a).
Proof. intros s e s'. discriminate. Qed.

Lemma never_throws_get_creds : never_throws get_creds.
Proof. intros s e s'. discriminate. Qed.

Lemma never_throws_set_creds c : never_throws (set_creds c).
Proof. intros s e s'. discriminate. Qed.

Lemma never_throws_bind A B (m : M A) (k : A -> M B) :
  never_throws m -> (forall a, never_throws (k a)) -> never_throws (bind m k).
Proof.
  intros Hm Hk s e s'. unfold bind.
  destruct (m s) as [[a | e0 |] s1] eqn:Hrun.
  - apply Hk.
  - exfalso. exact (Hm _ _ _ Hrun).
  - discriminate.
Qed.

Lemma never_throws_try_catch A (m : M A) (h : JsError -> M A) :
  (forall e, never_throws (h e)) -> never_throws (try_catch m h).
Proof.
  intros Hh s e s'. unfold try_catch.
  destruct (m s) as [[a | e0 |] s1]; [discriminate | apply Hh | discriminate].
Qed.

Lemma never_throws_attempt A (m : M A) : never_throws (attempt m).
Proof. apply never_throws_try_catch. intros e. apply never_throws_ret. Qed.

Lemma never_throws_for_each A (body : A -> M unit) (l : list A) :
  (forall x, never_throws (body x)) -> never_throws (for_each body l).
Proof.
  intros Hb. induction l as [| x rest IH]; simpl.
  - apply never_throws_ret.
  - apply never_throws_bind; [apply Hb | intros _; exact IH].
Qed.

Lemma never_throws_for_of A S (body : A -> S -> M (Ctl S)) (l : list A) :
  (forall x st, never_throws (body x st)) ->
  forall st, never_throws (for_of body l st).
Proof.
  intros Hb. induction l as [| x rest IH]; intros st; simpl.
  - apply never_throws_ret.
  - apply never_throws_bind; [apply Hb | ].
    intros [st1 | st1]; [apply IH | apply never_throws_ret].
Qed.

Variable env : Env.
Variable fuel : nat.

Lemma never_throws_publishTweetWithRefresh options :
  never_throws (Service.publishTweetWithRefresh env fuel options).
Proof.
  unfold Service.publishTweetWithRefresh.
  apply never_throws_bind; [apply never_throws_get_creds | intros c].
  apply never_throws_try_catch. intros e.
  apply never_throws_bind; [apply never_throws_get_creds | intros c'].
  destruct (_ && _); [ | apply never_throws_ret].
  apply never_throws_try_catch. intros e'. apply never_throws_ret.
Qed.

Lemma never_throws_publishTweet user options :
  never_throws (Service.publishTweet env fuel user options).
Proof.
  unfold Service.publishTweet. apply never_throws_try_catch.
  intros e. apply never_throws_ret.
Qed.

Lemma never_throws_publishThreadTweets user projectId threadTweets :
  never_throws (Service.publishThreadTweets env fuel user projectId threadTweets).
Proof.
  unfold Service.publishThreadTweets. apply never_throws_try_catch.
  intros e. apply never_throws_ret.
Qed.

End NeverThrows.

(** ** Runs that do not return *)

Section Stalls.
Variable n : nat.

Lemma stalls_of_answers A (f : Event -> bool) (m : M A) :
  emits f m -> (forall s, fst (m s) <> OutOfFuel) -> stalls_polling n m.
Proof.
  intros Hm Hans s. destruct (Hm s) as [evs [Ht _]].
  exists evs. split; [exact Ht | ]. intros H. exfalso. exact (Hans s H).
Qed.

Lemma stalls_ret A (a : A) : stalls_polling n (ret a).
Proof. apply (stalls_of_answers _ is_post); [apply emits_ret | discriminate]. Qed.

Lemma stalls_throw A (e : JsError) : stalls_polling n (@throw A e).
Proof. apply (stalls_of_answers _ is_post); [apply emits_throw | discriminate]. Qed.

Lemma stalls_get_creds : stalls_polling n get_creds.
Proof. apply (stalls_of_answers _ is_post); [apply emits_get_creds | discriminate]. Qed.

Lemma stalls_set_creds c : stalls_polling n (set_creds c).
Proof. apply (stalls_of_answers _ is_post); [apply emits_set_creds | discriminate]. Qed.

Lemma stalls_parsed A (r : Reply A) : stalls_polling n (parsed r).
Proof. destruct r; [apply stalls_throw | apply stalls_ret]. Qed.

Lemma stalls_perform A (ev : Event) (oracle : Trace -> Reply A) :
  stalls_polling n (perform ev oracle).
Proof.
  apply (stalls_of_answers _ (fun _ => true)); [apply emits_perform; reflexivity | ].
  intros s. unfold perform. destruct (oracle _); discriminate.
Qed.

Lemma stalls_log_event (ev : Event) : stalls_polling n (log_event ev).
Proof.
  apply (stalls_of_answers _ (fun _ => true)); [apply emits_log_event; reflexivity | ].
  discriminate.
Qed.

Lemma stalls_bind A B (m : M A) (k : A -> M B) :
  stalls_polling n m -> (forall a, stalls_polling n (k a)) -> stalls_polling n (bind m k).
Proof.
  intros Hm Hk s. unfold bind.
  destruct (Hm s) as [evs [Ht Hc]].
  destruct (m s) as [[a | e |] s1]; simpl in Ht, Hc.
  - destruct (Hk a s1) as [evs2 [Ht2 Hc2]].
    exists (evs ++ evs2). split; [rewrite Ht2, Ht, app_assoc; reflexivity | ].
    intros H. rewrite count_events_app. specialize (Hc2 H). lia.
  - exists evs. split; [exact Ht | discriminate].
  - exists evs. split; [exact Ht | intros _; apply Hc; reflexivity].
Qed.

Lemma stalls_try_catch A (m : M A) (h : JsError -> M A) :
  stalls_polling n m -> (forall e, stalls_polling n (h e)) ->
  stalls_polling n (try_catch m h).
Proof.
  intros Hm Hh s. unfold try_catch.
  destruct (Hm s) as [evs [Ht Hc]].
  destruct (m s) as [[a | e |] s1]; simpl in Ht, Hc.
  - exists evs. split; [exact Ht | discriminate].
  - destruct (Hh e s1) as [evs2 [Ht2 Hc2]].
    exists (evs ++ evs2). split; [rewrite Ht2, Ht, app_assoc; reflexivity | ].
    intros H. rewrite count_events_app. specialize (Hc2 H). lia.
  - exists evs. split; [exact Ht | intros _; apply Hc; reflexivity].
Qed.

Lemma stalls_attempt A (m : M A) : stalls_polling n m -> stalls_polling n (attempt m).
Proof.
  intros Hm. unfold attempt. apply stalls_try_catch.
  - apply stalls_bind; [exact Hm | intros; apply stalls_ret].
  - intros. apply stalls_ret.
Qed.

Lemma stalls_for_of A S (body : A -> S -> M (Ctl S)) (l : list A) :
  (forall x st, stalls_polling n (body x st)) ->
  forall st, stalls_polling n (for_of body l st).
Proof.
  intros Hb. induction l as [| x rest IH]; intros st; simpl.
  - apply stalls_ret.
  - apply stalls_bind; [apply Hb | ].
    intros [st1 | st1]; [apply IH | apply stalls_ret].
Qed.

Lemma stalls_for_each A (body : A -> M unit) (l : list A) :
  (forall x, stalls_polling n (body x)) -> stalls_polling n (for_each body l).
Proof.
  intros Hb. induction l as [| x rest IH]; simpl.
  - apply stalls_ret.
  - apply stalls_bind; [apply Hb | intros _; exact IH].
Qed.

End Stalls.

(** Steps through a computation built from the combinators above. *)
Ltac stalls_step :=
  first
    [ apply stalls_ret | apply stalls_throw
    | apply stalls_get_creds | apply stalls_set_creds | apply stalls_parsed
    | apply stalls_perform | apply stalls_log_event
    | apply stalls_bind; [ | intros ]
    | apply stalls_try_catch; [ | intros ]
    | apply stalls_attempt
    | match goal with
      | |- stalls_polling _ (if ?b then _ else _) => destruct b
      | |- stalls_polling _ (match ?x with _ => _ end) => destruct x
      | |- stalls_polling _ (let '(_, _) := ?x in _) => destruct x
      end ].

Ltac stalls_auto := repeat stalls_step.

Ltac stalls_with known := repeat first [known | stalls_step].

Section StallsOf.
Variable env : Env.
Variable fuel : nat.

(** The poll loop is out of fuel after as many polls as it had fuel. *)
Lemma stalls_checkMediaProcessingStatus mediaId tok p :
  stalls_polling fuel (MediaUpload.checkMediaProcessingStatus env fuel mediaId tok p).
Proof.
  revert p. induction fuel as [| n IH]; intros p s.
  - destruct (emits_checkMediaProcessingStatus env 0 mediaId tok p s) as [evs [Ht _]].
    exists evs. split; [exact Ht | intros _; apply Nat.le_0_l].
  - rewrite checkMediaProcessingStatus_step.
    destruct (state p =? "succeeded").
    { exists []. simpl. rewrite app_nil_r. split; [reflexivity | discriminate]. }
    pose proof (poll_status_trace env mediaId tok p s) as Ht.
    destruct (MediaUpload.poll_status env mediaId tok p s) as [[[p' |] | e |] s1] eqn:Hpoll;
      simpl in Ht.
    + destruct (IH p' s1) as [evs [Ht2 Hc2]].
      exists ([EvSleep (or_defaultZ (check_after_secs p) 1); EvUploadStatus tok mediaId]
              ++ evs).
      split; [rewrite Ht2, Ht, <- app_assoc; reflexivity | ].
      intros H. specialize (Hc2 H). rewrite count_events_app.
      unfold count_events at 1. simpl. lia.
    + eexists. split; [exact Ht | discriminate].
    + eexists. split; [exact Ht | discriminate].
    + exfalso. apply (poll_status_answers env mediaId tok p s). rewrite Hpoll. reflexivity.
Qed.

Lemma stalls_uploadMediaToTwitter url tok :
  stalls_polling fuel (MediaUpload.uploadMediaToTwitter env fuel url tok).
Proof.
  unfold MediaUpload.uploadMediaToTwitter, MediaUpload.upload_phases.
  stalls_with ltac:(apply stalls_checkMediaProcessingStatus).
Qed.

Lemma stalls_refresh_and_persist :
  stalls_polling fuel (Service.refresh_and_persist env).
Proof.
  unfold Service.refresh_and_persist, Service.updateTwitterCredentials,
    Utils.refreshTwitterAccessToken, Utils.refreshOAuthToken.
  stalls_auto.
Qed.

(** The recursion of [uploadMedia] never runs out of depth. *)
Lemma stalls_uploadMedia_rec depth url retryCount :
  2 - retryCount < depth ->
  stalls_polling fuel (Service.uploadMedia_rec env fuel depth url retryCount).
Proof.
  revert retryCount. induction depth as [| d IH]; intros retryCount Hdepth; [lia | ].
  simpl.
  stalls_step; [stalls_auto | ].
  stalls_step.
  - stalls_with ltac:(apply stalls_uploadMediaToTwitter).
  - stalls_step; [stalls_auto | ].
    destruct (Service.isAuthError e && truthy (refreshToken a0)
              && (retryCount <? 2)%nat) eqn:Hcond; [ | stalls_auto].
    apply andb_true_iff in Hcond. destruct Hcond as [_ Hcount].
    apply Nat.ltb_lt in Hcount.
    stalls_step; [ | apply IH; lia].
    stalls_with ltac:(apply stalls_refresh_and_persist).
Qed.

Lemma stalls_prepareTweetPayload options tok :
  stalls_polling fuel (Service.prepareTweetPayload env fuel options tok).
Proof.
  unfold Service.prepareTweetPayload, Service.uploadMedia.
  stalls_with ltac:(apply stalls_uploadMedia_rec; lia).
Qed.

Lemma stalls_utils_publishTweet tok payload :
  stalls_polling fuel (Utils.publishTweet env tok payload).
Proof. unfold Utils.publishTweet. stalls_auto. Qed.

Lemma stalls_publishTweetWithRefresh options :
  stalls_polling fuel (Service.publishTweetWithRefresh env fuel options).
Proof.
  unfold Service.publishTweetWithRefresh, Service.first_attempt,
    Service.retry_attempt, Service.data_id.
  stalls_with ltac:(first [ apply stalls_prepareTweetPayload
                          | apply stalls_utils_publishTweet
                          | apply stalls_refresh_and_persist ]).
Qed.

Lemma stalls_verifyProjectAccess user projectId :
  stalls_polling fuel (Service.verifyProjectAccess env user projectId).
Proof. unfold Service.verifyProjectAccess. stalls_auto. Qed.

Lemma stalls_getTwitterCredentials user :
  stalls_polling fuel (Service.getTwitterCredentials env user).
Proof. unfold Service.getTwitterCredentials. stalls_auto. Qed.

Lemma stalls_getTweetGroup groupId :
  stalls_polling fuel (Groups.getTweetGroup env groupId).
Proof. unfold Groups.getTweetGroup. stalls_auto. Qed.

Lemma stalls_publishTweet user options :
  stalls_polling fuel (Service.publishTweet env fuel user options).
Proof.
  unfold Service.publishTweet, Service.publish_checks, Service.updateTweetStatus.
  stalls_with ltac:(first [ apply stalls_verifyProjectAccess
                          | apply stalls_getTwitterCredentials
                          | apply stalls_getTweetGroup
                          | apply stalls_publishTweetWithRefresh ]).
Qed.

Lemma stalls_thread_body projectId tweet st :
  stalls_polling fuel (Service.thread_body env fuel projectId tweet st).
Proof.
  unfold Service.thread_body, Service.updateTweetStatus.
  stalls_with ltac:(apply stalls_publishTweetWithRefresh).
Qed.

Lemma stalls_publishThreadTweets user projectId threadTweets :
  stalls_polling fuel (Service.publishThreadTweets env fuel user projectId threadTweets).
Proof.
  unfold Service.publishThreadTweets.
  stalls_with ltac:(first [ apply stalls_verifyProjectAccess
                          | apply stalls_getTwitterCredentials
                          | apply stalls_for_of; intros; apply stalls_thread_body ]).
Qed.

Lemma stalls_publishScheduledTweet tweet :
  stalls_polling fuel (Service.publishScheduledTweet env fuel tweet).
Proof.
  unfold Service.publishScheduledTweet, Service.updateTweetStatus.
  stalls_with ltac:(first [ apply stalls_getTweetGroup
                          | apply stalls_publishTweetWithRefresh ]).
Qed.

Lemma stalls_processAllScheduledTweets tweets threads user projectId :
  stalls_polling fuel
    (Service.processAllScheduledTweets env fuel tweets threads user projectId).
Proof.
  unfold Service.processAllScheduledTweets.
  stalls_with ltac:(first [ apply stalls_for_each; intros
                          | apply stalls_publishTweet
                          | apply stalls_publishThreadTweets ]).
Qed.

(** What never throws returns, or is out of fuel after its polls. *)
Lemma returns_unless_polling_of A (m : M A) :
  never_throws m -> stalls_polling fuel m -> returns_unless_polling fuel m.
Proof.
  intros Hnever Hstalls s.
  destruct (Hstalls s) as [evs [Ht Hc]].
  rewrite (events_since_app _ _ _ Ht).
  destruct (m s) as [[a | e |] s1] eqn:Hrun; simpl in *.
  - left. exists a. reflexivity.
  - exfalso. exact (Hnever _ _ _ Hrun).
  - right. split; [reflexivity | apply Hc; reflexivity].
Qed.

End StallsOf.

(** X6.  None of the publishing entry points rejects: whatever the provider,
    the image host and the store do, no run of [publishTweetWithRefresh], of
    the service's [publishTweet], of [publishThreadTweets], of
    [publishScheduledTweet] or of [processAllScheduledTweets] (given lists
    of tweet records: the [catch] that throws again is never entered) ends
    with an exception.  And the only way for a run not to return is the
    media poll loop: given a budget of [fuel] status polls for each upload,
    a run returns a result, or it has made at least [fuel] status polls. *)
Theorem publishing_never_rejects (env : Env) (fuel : nat) :
  ((forall options,
     never_throws (Service.publishTweetWithRefresh env fuel options))
  /\ (forall user options,
        never_throws (Service.publishTweet env fuel user options))
  /\ (forall user projectId threadTweets,
        never_throws (Service.publishThreadTweets env fuel user projectId threadTweets))
  /\ (forall tweet,
        never_throws (Service.publishScheduledTweet env fuel tweet))
  /\ (forall tweets threads user projectId,
        never_throws
          (Service.processAllScheduledTweets env fuel tweets threads user projectId)))
  /\ (forall options,
        returns_unless_polling fuel (Service.publishTweetWithRefresh env fuel options))
  /\ (forall user options,
        returns_unless_polling fuel (Service.publishTweet env fuel user options))
  /\ (forall user projectId threadTweets,
        returns_unless_polling fuel
          (Service.publishThreadTweets env fuel user projectId threadTweets))
  /\ (forall tweet,
        returns_unless_polling fuel (Service.publishScheduledTweet env fuel tweet))
  /\ (forall tweets threads user projectId,
        returns_unless_polling fuel
          (Service.processAllScheduledTweets env fuel tweets threads user projectId)).
Proof.
  assert (Hnever :
    (forall options,
       never_throws (Service.publishTweetWithRefresh env fuel options))
    /\ (forall user options,
          never_throws (Service.publishTweet env fuel user options))
    /\ (forall user projectId threadTweets,
          never_throws
            (Service.publishThreadTweets env fuel user projectId threadTweets))
    /\ (forall tweet,
          never_throws (Service.publishScheduledTweet env fuel tweet))
    /\ (forall tweets threads user projectId,
          never_throws
            (Service.processAllScheduledTweets env fuel tweets threads user
               projectId))).
  {
  split; [intros; apply never_throws_publishTweetWithRefresh | ].
  split; [intros; apply never_throws_publishTweet | ].
  split; [intros; apply never_throws_publishThreadTweets | ].
  split.
  - intros tweet. unfold Service.publishScheduledTweet.
    apply never_throws_try_catch. intros e. apply never_throws_ret.
  - intros tweets threads user projectId s e s'.
    unfold Service.processAllScheduledTweets, try_catch.
    assert (Hbody : never_throws
              (for_each (fun tweet =>
                           Service.publishTweet env fuel user
                             (Service.scheduled_options tweet) ;; ret tt) tweets ;;
               match threads with
               | Some (t :: ts) =>
                   Service.publishThreadTweets env fuel user projectId
                     (map processThreadTweet (t :: ts)) ;;
                   ret tt
               | _ => ret tt
               end)).
    { apply never_throws_bind.
      - apply never_throws_for_each. intros x.
        apply never_throws_bind; [apply never_throws_publishTweet | ].
        intros _. apply never_throws_ret.
      - intros _. destruct threads as [[| t ts] |]; try apply never_throws_ret.
        apply never_throws_bind; [apply never_throws_publishThreadTweets | ].
        intros _. apply never_throws_ret. }
    match goal with
    | |- context [match ?run with _ => _ end] => destruct run as [[a | e0 |] s1] eqn:Hrun
    end; try discriminate.
    exfalso. exact (Hbody _ _ _ Hrun). }
  split; [exact Hnever | ].
  destruct Hnever as [Hrefresh [Hpublish [Hthread [Hscheduled Hall]]]].
  split; [intros; apply returns_unless_polling_of;
          [apply Hrefresh | apply stalls_publishTweetWithRefresh] | ].
  split; [intros; apply returns_unless_polling_of;
          [apply Hpublish | apply stalls_publishTweet] | ].
  split; [intros; apply returns_unless_polling_of;
          [apply Hthread | apply stalls_publishThreadTweets] | ].
  split; [intros; apply returns_unless_polling_of;
          [apply Hscheduled | apply stalls_publishScheduledTweet] | ].
  intros; apply returns_unless_polling_of;
    [apply Hall | apply stalls_processAllScheduledTweets].
Qed.

(** ** Call budgets *)

Section AtMost.
Variable f : Event -> bool.

Lemma at_most_weaken A n n' (m : M A) : n <= n' -> at_most f n m -> at_most f n' m.
Proof.
  intros Hle Hm s. destruct (Hm s) as [evs [Ht Hc]]. exists evs. split; [exact Ht | lia].
Qed.

Lemma at_most_of_emits A (g : Event -> bool) (m : M A) :
  (forall ev, g ev = true -> f ev = false) -> emits g m -> at_most f 0 m.
Proof.
  intros Hgf Hm s. destruct (Hm s) as [evs [Ht Ho]]. exists evs.
  split; [exact Ht | ]. rewrite (count_events_none f g evs Hgf Ho). lia.
Qed.

Lemma at_most_ret A (a : A) : at_most f 0 (ret a).
Proof. intros s. exists []. simpl. rewrite app_nil_r. split; [reflexivity | apply Nat.le_refl]. Qed.

Lemma at_most_get_creds : at_most f 0 get_creds.
Proof. intros s. exists []. simpl. rewrite app_nil_r. split; [reflexivity | apply Nat.le_refl]. Qed.

Lemma at_most_bind A B n k (m : M A) (h : A -> M B) :
  at_most f n m -> (forall a, at_most f k (h a)) -> at_most f (n + k) (bind m h).
Proof.
  intros Hm Hh s. unfold bind.
  destruct (Hm s) as [evs [Ht Hc]].
  destruct (m s) as [[a | e |] s1]; simpl in Ht.
  - destruct (Hh a s1) as [evs2 [Ht2 Hc2]].
    exists (evs ++ evs2). rewrite Ht2, Ht, app_assoc.
    split; [reflexivity | rewrite count_events_app; lia].
  - exists evs. simpl. split; [exact Ht | lia].
  - exists evs. simpl. split; [exact Ht | lia].
Qed.

Lemma at_most_try_catch A n k (m : M A) (h : JsError -> M A) :
  at_most f n m -> (forall e, at_most f k (h e)) -> at_most f (n + k) (try_catch m h).
Proof.
  intros Hm Hh s. unfold try_catch.
  destruct (Hm s) as [evs [Ht Hc]].
  destruct (m s) as [[a | e |] s1]; simpl in Ht.
  - exists evs. simpl. split; [exact Ht | lia].
  - destruct (Hh e s1) as [evs2 [Ht2 Hc2]].
    exists (evs ++ evs2). rewrite Ht2, Ht, app_assoc.
    split; [reflexivity | rewrite count_events_app; lia].
  - exists evs. simpl. split; [exact Ht | lia].
Qed.

Lemma at_most_events_since A n (m : M A) (s : State) :
  at_most f n m -> count_events f (events_since s (snd (m s))) <= n.
Proof.
  intros Hm. destruct (Hm s) as [evs [Ht Hc]].
  rewrite (events_since_app _ _ _ Ht). exact Hc.
Qed.

End AtMost.

Lemma at_most_silent A (f : Event -> bool) (m : M A) :
  emits (fun _ => false) m -> at_most f 0 m.
Proof. apply at_most_of_emits. intros ev H. discriminate. Qed.

Section Budget.
Variable env : Env.
Variable fuel : nat.
Variable f : Event -> bool.
Variable options : TweetOptions.
Variables n p r : nat.
Hypothesis Hprepare :
  forall tok, at_most f n (Service.prepareTweetPayload env fuel options tok).
Hypothesis Hpost : forall tok payload, at_most f p (Utils.publishTweet env tok payload).
Hypothesis Hrefresh : at_most f r (Service.refresh_and_persist env).

Lemma at_most_first_attempt tok :
  at_most f (n + p) (Service.first_attempt env fuel options tok).
Proof.
  unfold Service.first_attempt.
  apply at_most_bind; [apply Hprepare | intros payload].
  apply at_most_weaken with (n := p + 0); [lia | ].
  apply at_most_bind; [apply Hpost | intros body].
  apply at_most_silent. unfold Service.data_id. emits_auto.
Qed.

Lemma at_most_retry_attempt :
  at_most f (r + (n + p)) (Service.retry_attempt env fuel options).
Proof.
  unfold Service.retry_attempt.
  apply at_most_bind; [apply Hrefresh | intros [newA newR]].
  apply at_most_bind; [apply Hprepare | intros payload].
  apply at_most_weaken with (n := p + 0); [lia | ].
  apply at_most_bind; [apply Hpost | intros body].
  apply at_most_silent. unfold Service.data_id. emits_auto.
Qed.

Lemma at_most_publishTweetWithRefresh :
  at_most f ((n + p) + (r + (n + p)))
          (Service.publishTweetWithRefresh env fuel options).
Proof.
  unfold Service.publishTweetWithRefresh.
  apply at_most_weaken with (n := 0 + ((n + p) + (r + (n + p)))); [lia | ].
  apply at_most_bind; [apply at_most_get_creds | intros c].
  apply at_most_try_catch; [apply at_most_first_attempt | intros e].
  apply at_most_weaken with (n := 0 + (r + (n + p))); [lia | ].
  apply at_most_bind; [apply at_most_get_creds | intros c'].
  destruct (_ && _).
  - apply at_most_weaken with (n := (r + (n + p)) + 0); [lia | ].
    apply at_most_try_catch; [apply at_most_retry_attempt | intros e'].
    apply at_most_ret.
  - apply at_most_weaken with (n := 0); [lia | apply at_most_ret].
Qed.

End Budget.

Section PublishBudget.
Variable env : Env.
Variable fuel : nat.

Lemma at_most_uploads_prepareTweetPayload f n options tok :
  (forall url, at_most f n (Service.uploadMedia env fuel url 0)) ->
  at_most f n (Service.prepareTweetPayload env fuel options tok).
Proof.
  intros Hupload. unfold Service.prepareTweetPayload.
  apply at_most_weaken with (n := n + 0); [lia | ].
  apply at_most_bind; [ | intros; apply at_most_ret].
  destruct (_ && _); [ | apply at_most_weaken with (n := 0); [lia | apply at_most_ret]].
  apply at_most_weaken with (n := n + 0); [lia | ].
  apply at_most_bind; [apply Hupload | intros media].
  apply at_most_silent. emits_auto.
Qed.

Lemma at_most_no_image f options tok :
  truthy (o_imageUrl options) = false ->
  at_most f 0 (Service.prepareTweetPayload env fuel options tok).
Proof.
  intros Hno s.
  destruct (prepareTweetPayload_trace env fuel options tok s) as [evs [Ht [_ Hnil]]].
  exists evs. split; [exact Ht | ]. rewrite (Hnil Hno). apply Nat.le_refl.
Qed.

Lemma at_most_one_post tok payload :
  at_most is_post 1 (Utils.publishTweet env tok payload).
Proof.
  intros s. exists [EvPostTweet tok payload].
  split; [apply utils_publishTweet_trace | apply Nat.le_refl].
Qed.

Lemma at_most_no_post_in (f : Event -> bool) tok payload :
  (forall ev, is_post ev = true -> f ev = false) ->
  at_most f 0 (Utils.publishTweet env tok payload).
Proof.
  intros Hf. apply at_most_of_emits with (g := is_post);
    [exact Hf | apply emits_utils_publishTweet].
Qed.

Lemma at_most_one_refresh f :
  (forall u a r, f (EvDbUpdateCredentials u a r) = false) ->
  at_most f 1 (Service.refresh_and_persist env).
Proof.
  intros Hf s.
  destruct (refresh_and_persist_trace env s) as [rest [Ht [Hrest _]]].
  eexists. split; [exact Ht | ].
  unfold count_events. simpl.
  assert (Hzero : filter f rest = []).
  { destruct Hrest as [-> | [u [a [r' ->]]]]; [reflexivity | ].
    simpl. rewrite Hf. reflexivity. }
  destruct (f _); simpl; rewrite Hzero; simpl; lia.
Qed.

Lemma at_most_no_refresh_in f :
  (forall c cs r, f (EvOAuthToken c cs r) = false) ->
  (forall u a r, f (EvDbUpdateCredentials u a r) = false) ->
  at_most f 0 (Service.refresh_and_persist env).
Proof.
  intros Hf1 Hf2 s.
  destruct (refresh_and_persist_trace env s) as [rest [Ht [Hrest _]]].
  eexists. split; [exact Ht | ].
  unfold count_events. simpl. rewrite Hf1.
  destruct Hrest as [-> | [u [a [r' ->]]]]; simpl; [ | rewrite Hf2]; apply Nat.le_refl.
Qed.

End PublishBudget.

(** X7.  One call of [publishTweetWithRefresh] makes at most two post calls,
    at most five token exchanges and at most six runs of the media upload:
    the publish itself retries once, and each of its two attempts may spend
    the retry budget of its upload.  Without an image there is no upload at
    all and at most one token exchange. *)
Theorem publish_call_budget
    (env : Env) (fuel : nat) (options : TweetOptions) (s : State) :
  let evs := events_since s (snd (Service.publishTweetWithRefresh env fuel options s)) in
  count_events is_post evs <= 2
  /\ count_events is_refresh evs <= 5
  /\ count_events is_upload_attempt evs <= 6
  /\ (truthy (o_imageUrl options) = false ->
      count_events is_refresh evs <= 1 /\ count_events is_media_event evs = 0).
Proof.
  intros evs. subst evs.
  assert (Huploads : forall url, at_most is_upload_attempt 3
                                   (Service.uploadMedia env fuel url 0)).
  { intros url s0.
    destruct (uploadMedia_rec_bound env fuel 3 url 0 s0) as [evs [Ht [Hu _]]].
    exists evs. split; [exact Ht | exact Hu]. }
  assert (Hrefreshes : forall url, at_most is_refresh 2
                                     (Service.uploadMedia env fuel url 0)).
  { intros url s0.
    destruct (uploadMedia_rec_bound env fuel 3 url 0 s0) as [evs [Ht [_ Hr]]].
    exists evs. split; [exact Ht | exact Hr]. }
  assert (Hnone : forall url, at_most is_post 0 (Service.uploadMedia env fuel url 0)).
  { intros url. apply at_most_of_emits with (g := is_upload_event);
      [apply upload_event_not_post | apply emits_uploadMedia_rec]. }
  split.
  { apply (at_most_events_since is_post _ 2 _ s).
    apply (at_most_publishTweetWithRefresh env fuel is_post options 0 1 0).
    - intros tok. apply at_most_uploads_prepareTweetPayload. exact Hnone.
    - apply at_most_one_post.
    - apply at_most_of_emits with (g := is_upload_event);
        [apply upload_event_not_post | apply emits_refresh_and_persist]. }
  split.
  { apply (at_most_events_since is_refresh _ 5 _ s).
    apply (at_most_publishTweetWithRefresh env fuel is_refresh options 2 0 1).
    - intros tok. apply at_most_uploads_prepareTweetPayload. exact Hrefreshes.
    - intros tok payload. apply at_most_no_post_in. intros [] H; try discriminate; reflexivity.
    - apply at_most_one_refresh. reflexivity. }
  split.
  { apply (at_most_events_since is_upload_attempt _ 6 _ s).
    apply (at_most_publishTweetWithRefresh env fuel is_upload_attempt options 3 0 0).
    - intros tok. apply at_most_uploads_prepareTweetPayload. exact Huploads.
    - intros tok payload. apply at_most_no_post_in. intros [] H; try discriminate; reflexivity.
    - apply at_most_no_refresh_in; reflexivity. }
  intros Hno. split.
  - apply (at_most_events_since is_refresh _ 1 _ s).
    apply (at_most_publishTweetWithRefresh env fuel is_refresh options 0 0 1).
    + intros tok. apply at_most_no_image. exact Hno.
    + intros tok payload. apply at_most_no_post_in. intros [] H; try discriminate; reflexivity.
    + apply at_most_one_refresh. reflexivity.
  - apply Nat.le_0_r. apply (at_most_events_since is_media_event _ 0 _ s).
    apply (at_most_publishTweetWithRefresh env fuel is_media_event options 0 0 0).
    + intros tok. apply at_most_no_image. exact Hno.
    + intros tok payload. apply at_most_no_post_in. intros [] H; try discriminate; reflexivity.
    + apply at_most_no_refresh_in; reflexivity.
Qed.

(** ** The upload inside a publish *)

Section UploadInPublish.
Variable env : Env.
Variable fuel : nat.

(** One turn of [uploadMedia]. *)
Lemma uploadMedia_rec_step depth url retryCount s :
  Service.uploadMedia_rec env fuel (S depth) url retryCount s
  = match MediaUpload.uploadMediaToTwitter env fuel url (accessToken (creds s)) s with
    | (Ok mediaId, s1) => (Ok (mkMedia mediaId), s1)
    | (Throw error, s1) =>
        if Service.isAuthError error && truthy (refreshToken (creds s1))
           && (retryCount <? 2)%nat
        then
          match Service.refresh_and_persist env s1 with
          | (Ok (newAccessToken, newRefreshToken), s2) =>
              Service.uploadMedia_rec env fuel depth url (retryCount + 1)
                (mkState (trace s2)
                   (mkCredentials newAccessToken (Some newRefreshToken)
                      (clientId (creds s2)) (clientSecret (creds s2))
                      (userId (creds s2))))
          | (Throw _, s2) =>
              (Throw (Error "Error refreshing Twitter token during media upload"), s2)
          | (OutOfFuel, s2) => (OutOfFuel, s2)
          end
        else (Throw (Error "Error uploading media"), s1)
    | (OutOfFuel, s1) => (OutOfFuel, s1)
    end.
Proof.
  cbn [Service.uploadMedia_rec].
  unfold bind, try_catch, get_creds, set_creds, ret, throw.
  destruct (MediaUpload.uploadMediaToTwitter env fuel url (accessToken (creds s)) s)
    as [[mediaId | error |] s1]; try reflexivity.
  destruct (Service.isAuthError error && truthy (refreshToken (creds s1))
            && (retryCount <? 2)%nat); [ | reflexivity].
  destruct (Service.refresh_and_persist env s1) as [[[a r] | e |] s2]; reflexivity.
Qed.

(** How [uploadMedia] can end: with a non-empty media id, or with one of its
    two errors. *)
Lemma uploadMedia_rec_outcome depth url retryCount s :
  match fst (Service.uploadMedia_rec env fuel depth url retryCount s) with
  | Ok media => media_id_string media <> ""
  | Throw e =>
      e = Error "Error uploading media"
      \/ e = Error "Error refreshing Twitter token during media upload"
  | OutOfFuel => True
  end.
Proof.
  revert retryCount s. induction depth as [| d IH]; intros retryCount s.
  - exact I.
  - rewrite uploadMedia_rec_step.
    destruct (MediaUpload.uploadMediaToTwitter env fuel url (accessToken (creds s)) s)
      as [[mediaId | error |] s1] eqn:Hup; simpl; [ | | exact I].
    + destruct (uploadMediaToTwitter_run env fuel url (accessToken (creds s)) s)
        as [evs [_ [_ [_ Hdone]]]].
      rewrite Hup in Hdone. apply (Hdone mediaId eq_refl).
    + destruct (_ && _); [ | simpl; left; reflexivity].
      destruct (Service.refresh_and_persist env s1) as [[[a r] | e |] s2]; simpl;
        [apply IH | right; reflexivity | exact I].
Qed.

Lemma prepareTweetPayload_failure options tok s e s1 :
  Service.prepareTweetPayload env fuel options tok s = (Throw e, s1) ->
  e = Error "Error uploading media"
  \/ e = Error "Error refreshing Twitter token during media upload".
Proof.
  unfold Service.prepareTweetPayload, Service.uploadMedia, bind, ret, throw.
  destruct (truthy (o_imageUrl options) && negb (tok =? "")); [ | discriminate].
  pose proof (uploadMedia_rec_outcome (S (2 - 0)) (or_default (o_imageUrl options) "")
                0 s) as Hout.
  destruct (Service.uploadMedia_rec env fuel (S (2 - 0))
              (or_default (o_imageUrl options) "") 0 s) as [[media | e0 |] s2];
    simpl in Hout.
  - apply String.eqb_neq in Hout. rewrite Hout. discriminate.
  - intros H. injection H as <- <-. exact Hout.
  - discriminate.
Qed.

End UploadInPublish.

(** X8.  When the media upload of the first attempt fails, for whatever
    reason, an authentication failure that the upload's own retries could
    not cure included, the publish ends there: no post call is made, no
    refresh is attempted at the level of the publish, and the result is the
    unsuccessful one with message 'Failed to publish tweet' and code
    api_error.  Its details are one of the two texts [uploadMedia] raises;
    the check for an empty media id in [prepareTweetPayload] never fires. *)
Theorem failed_upload_ends_the_publish
    (env : Env) (fuel : nat) (options : TweetOptions) (s s1 : State) (e : JsError) :
  Service.prepareTweetPayload env fuel options (accessToken (creds s)) s
  = (Throw e, s1) ->
  (message e = "Error uploading media"
   \/ message e = "Error refreshing Twitter token during media upload")
  /\ Service.publishTweetWithRefresh env fuel options s
     = (Ok (mkResult false None None "Failed to publish tweet"
              (Some (mkErrorInfo (Some (message e)) (Some (CodeStr "api_error"))
                                 None None))),
        s1)
  /\ count_events is_post (events_since s s1) = 0.
Proof.
  intros Hprep.
  pose proof (prepareTweetPayload_failure env fuel _ _ _ _ _ Hprep) as He.
  assert (Hfirst : Service.first_attempt env fuel options (accessToken (creds s)) s
                   = (Throw e, s1)).
  { unfold Service.first_attempt. apply bind_throw. exact Hprep. }
  split; [destruct He as [-> | ->]; simpl; tauto | ].
  split.
  - rewrite (publish_non_auth env fuel options s e s1 Hfirst);
      [ | destruct He as [-> | ->]; reflexivity].
    destruct He as [-> | ->]; reflexivity.
  - destruct (emits_prepareTweetPayload env fuel options (accessToken (creds s)) s)
      as [evs [Ht Ho]].
    rewrite Hprep in Ht. simpl in Ht.
    rewrite (events_since_app _ _ _ Ht).
    apply (count_events_none is_post is_upload_event evs upload_event_not_post Ho).
Qed.

Lemma failed_upload_ends_the_publish_witness :
  (message (Error "Error uploading media") = "Error uploading media"
   \/ message (Error "Error uploading media")
      = "Error refreshing Twitter token during media upload")
  /\ Service.publishTweetWithRefresh Sample.upload_unauthorized 0 Sample.pictured
       Sample.start
     = (Ok (mkResult false None None "Failed to publish tweet"
              (Some (mkErrorInfo (Some (message (Error "Error uploading media")))
                                 (Some (CodeStr "api_error")) None None))),
        mkState [EvFetchHead "https://img.example/a.png";
                 EvUploadInit "A1" "image/png" "1024";
                 EvOAuthToken "cid" "secret" (Some "R1");
                 EvDbUpdateCredentials "u1" "A2" "R2";
                 EvFetchHead "https://img.example/a.png";
                 EvUploadInit "A2" "image/png" "1024";
                 EvOAuthToken "cid" "secret" (Some "R2");
                 EvDbUpdateCredentials "u1" "A2" "R2";
                 EvFetchHead "https://img.example/a.png";
                 EvUploadInit "A2" "image/png" "1024"]
                (mkCredentials "A2" (Some "R2") "cid" "secret" (Some "u1")))
  /\ count_events is_post
       (events_since Sample.start
          (mkState [EvFetchHead "https://img.example/a.png";
                    EvUploadInit "A1" "image/png" "1024";
                    EvOAuthToken "cid" "secret" (Some "R1");
                    EvDbUpdateCredentials "u1" "A2" "R2";
                    EvFetchHead "https://img.example/a.png";
                    EvUploadInit "A2" "image/png" "1024";
                    EvOAuthToken "cid" "secret" (Some "R2");
                    EvDbUpdateCredentials "u1" "A2" "R2";
                    EvFetchHead "https://img.example/a.png";
                    EvUploadInit "A2" "image/png" "1024"]
                   (mkCredentials "A2" (Some "R2") "cid" "secret" (Some "u1")))) = 0.
Proof.
  apply (failed_upload_ends_the_publish Sample.upload_unauthorized 0 Sample.pictured
           Sample.start).
  vm_compute. reflexivity.
Defined.

(** ** Publishes that cannot refresh *)

Section SingleAttempt.
Variable env : Env.
Variable fuel : nat.

Lemma refresh_and_persist_without_user s :
  truthy (userId (creds s)) = false ->
  exists e,
    Service.refresh_and_persist env s
    = (Throw e,
       mkState (trace s ++ [EvOAuthToken (clientId (creds s)) (clientSecret (creds s))
                                         (refreshToken (creds s))])
               (creds s)).
Proof.
  intros Hno.
  destruct (refreshTwitterAccessToken_outcome env (creds s) s) as [Hs [Hfuel _]].
  destruct (Utils.refreshTwitterAccessToken env (creds s) s)
    as [[[[a r] ex] | e |] s2] eqn:Hrun; simpl in Hs, Hfuel.
  - exists (Error "User ID is required for token refresh").
    rewrite (refresh_and_persist_no_user env s s2 a r ex Hrun);
      [rewrite Hs; reflexivity | rewrite Hs; exact Hno].
  - exists e. unfold Service.refresh_and_persist.
    rewrite bind_get_creds. rewrite (bind_throw _ _ _ _ _ _ _ Hrun).
    rewrite Hs. reflexivity.
  - exfalso. apply Hfuel. reflexivity.
Qed.

Lemma steps_count_nothing f steps :
  only is_upload_step steps ->
  (forall ev, is_upload_step ev = true -> f ev = false) ->
  count_events f steps = 0.
Proof. intros Ho Hf. exact (count_events_none f is_upload_step steps Hf Ho). Qed.

Lemma upload_step_not_post ev : is_upload_step ev = true -> is_post ev = false.
Proof. destruct ev; simpl; intros H; try discriminate; reflexivity. Qed.

Lemma upload_step_not_write ev : is_upload_step ev = true -> is_store_write ev = false.
Proof. destruct ev; simpl; intros H; try discriminate; reflexivity. Qed.

Lemma uploadMedia_rec_single depth url retryCount s :
  truthy (refreshToken (creds s)) = false \/ truthy (userId (creds s)) = false ->
  exists evs,
    trace (snd (Service.uploadMedia_rec env fuel (S depth) url retryCount s))
    = trace s ++ evs
    /\ creds (snd (Service.uploadMedia_rec env fuel (S depth) url retryCount s))
       = creds s
    /\ single_run_counts evs
    /\ (truthy (refreshToken (creds s)) = false -> count_events is_refresh evs = 0)
    /\ (forall media,
          fst (Service.uploadMedia_rec env fuel (S depth) url retryCount s) = Ok media ->
          count_events is_refresh evs = 0).
Proof.
  intros Hcannot. rewrite uploadMedia_rec_step.
  destruct (uploadMediaToTwitter_headed env fuel url (accessToken (creds s)) s)
    as [steps [Ht Ho]].
  destruct (uploadMediaToTwitter_run env fuel url (accessToken (creds s)) s)
    as [evs0 [_ [Hc _]]].
  assert (Hsteps : single_run_counts (EvFetchHead url :: steps)
                   /\ count_events is_refresh (EvFetchHead url :: steps) = 0).
  { unfold single_run_counts.
    change (EvFetchHead url :: steps) with ([EvFetchHead url] ++ steps).
    rewrite !count_events_app.
    rewrite (steps_count_nothing is_upload_attempt steps Ho (upload_step_not_attempt)).
    rewrite (steps_count_nothing is_refresh steps Ho (upload_step_not_refresh)).
    rewrite (steps_count_nothing is_post steps Ho upload_step_not_post).
    rewrite (steps_count_nothing is_store_write steps Ho upload_step_not_write).
    unfold count_events. simpl. lia. }
  destruct (MediaUpload.uploadMediaToTwitter env fuel url (accessToken (creds s)) s)
    as [[mediaId | error |] s1]; simpl in Ht, Hc.
  - exists (EvFetchHead url :: steps). simpl.
    split; [exact Ht | ]. split; [exact Hc | ]. split; [apply Hsteps | ].
    split; intros; apply Hsteps.
  - destruct (Service.isAuthError error && truthy (refreshToken (creds s1))
              && (retryCount <? 2)%nat) eqn:Hcond.
    + apply andb_true_iff in Hcond. destruct Hcond as [Hcond _].
      apply andb_true_iff in Hcond. destruct Hcond as [_ Htoken].
      rewrite Hc in Htoken.
      destruct Hcannot as [Hno | Hno]; [congruence | ].
      destruct (refresh_and_persist_without_user s1) as [e He];
        [rewrite Hc; exact Hno | ].
      rewrite He. simpl.
      exists ((EvFetchHead url :: steps)
              ++ [EvOAuthToken (clientId (creds s1)) (clientSecret (creds s1))
                               (refreshToken (creds s1))]).
      split; [rewrite Ht, <- app_assoc; reflexivity | ].
      split; [exact Hc | ].
      split; [ | split; [congruence | intros; discriminate]].
      destruct Hsteps as [[Ha [Hr [Hp Hw]]] Hr0].
      unfold single_run_counts. rewrite !count_events_app.
      revert Ha Hr Hp Hw Hr0.
      generalize (count_events is_upload_attempt (EvFetchHead url :: steps))
                 (count_events is_refresh (EvFetchHead url :: steps))
                 (count_events is_post (EvFetchHead url :: steps))
                 (count_events is_store_write (EvFetchHead url :: steps)).
      intros. unfold count_events. simpl. lia.
    + exists (EvFetchHead url :: steps). simpl.
      split; [exact Ht | ]. split; [exact Hc | ]. split; [apply Hsteps | ].
      split; intros; apply Hsteps.
  - exists (EvFetchHead url :: steps). simpl.
    split; [exact Ht | ]. split; [exact Hc | ]. split; [apply Hsteps | ].
    split; intros; apply Hsteps.
Qed.

Lemma prepareTweetPayload_single options tok s :
  truthy (refreshToken (creds s)) = false \/ truthy (userId (creds s)) = false ->
  exists evs,
    trace (snd (Service.prepareTweetPayload env fuel options tok s)) = trace s ++ evs
    /\ creds (snd (Service.prepareTweetPayload env fuel options tok s)) = creds s
    /\ single_run_counts evs
    /\ (truthy (refreshToken (creds s)) = false -> count_events is_refresh evs = 0)
    /\ (forall payload,
          fst (Service.prepareTweetPayload env fuel options tok s) = Ok payload ->
          count_events is_refresh evs = 0).
Proof.
  intros Hcannot.
  unfold Service.prepareTweetPayload, Service.uploadMedia, bind, ret, throw.
  destruct (truthy (o_imageUrl options) && negb (tok =? "")).
  - destruct (uploadMedia_rec_single (2 - 0) (or_default (o_imageUrl options) "") 0 s
                Hcannot) as [evs [Ht [Hc [Hcounts [Hnone Hok]]]]].
    destruct (Service.uploadMedia_rec env fuel (S (2 - 0))
                (or_default (o_imageUrl options) "") 0 s) as [[media | e |] s1];
      simpl in *.
    + destruct (media_id_string media =? ""); simpl;
        (exists evs; split; [exact Ht | ]; split; [exact Hc | ];
         split; [exact Hcounts | ]; split; [exact Hnone | ];
         intros; apply (Hok media); reflexivity).
    + exists evs. split; [exact Ht | ]. split; [exact Hc | ].
      split; [exact Hcounts | ]. split; [exact Hnone | intros; discriminate].
    + exists evs. split; [exact Ht | ]. split; [exact Hc | ].
      split; [exact Hcounts | ]. split; [exact Hnone | intros; discriminate].
  - simpl. exists []. rewrite app_nil_r.
    split; [reflexivity | ]. split; [reflexivity | ].
    split; [unfold single_run_counts, count_events; simpl; lia | ].
    split; intros; reflexivity.
Qed.

End SingleAttempt.

Section SinglePublish.
Variable env : Env.
Variable fuel : nat.

Lemma type_error_is_no_auth_error :
  Service.isAuthError (TypeError "undefined" "id") = false.
Proof. vm_compute. reflexivity. Qed.

Lemma publish_single_attempt options s :
  truthy (refreshToken (creds s)) = false \/ truthy (userId (creds s)) = false ->
  exists evs,
    trace (snd (Service.publishTweetWithRefresh env fuel options s)) = trace s ++ evs
    /\ creds (snd (Service.publishTweetWithRefresh env fuel options s)) = creds s
    /\ count_events is_upload_attempt evs <= 1
    /\ count_events is_refresh evs <= 1
    /\ count_events is_post evs <= 1
    /\ count_events is_store_write evs = 0
    /\ (truthy (refreshToken (creds s)) = false ->
        count_events is_refresh evs = 0
        /\ forall res,
             fst (Service.publishTweetWithRefresh env fuel options s) = Ok res ->
             success res = false ->
             res_message res = "Failed to publish tweet"
             /\ option_map err_code (error res) = Some (Some (CodeStr "api_error")))
    /\ (forall res,
          fst (Service.publishTweetWithRefresh env fuel options s) = Ok res ->
          success res = true ->
          count_events is_refresh evs = 0).
Proof.
  intros Hcannot.
  destruct (prepareTweetPayload_single env fuel options (accessToken (creds s)) s Hcannot)
    as [evs [Ht [Hc [[Ha [Hr [Hp Hw]]] [Hnone Hok]]]]].
  pose proof (prepareTweetPayload_failure env fuel options (accessToken (creds s)) s)
    as Hfail.
  unfold Service.publishTweetWithRefresh, Service.first_attempt, try_catch, bind,
    get_creds.
  destruct (Service.prepareTweetPayload env fuel options (accessToken (creds s)) s)
    as [[payload | e |] s1]; cbn [fst snd] in *.
  - specialize (Hok payload eq_refl).
    pose proof (utils_publishTweet_trace env (accessToken (creds s)) payload s1)
      as [Ht2 Hc2].
    assert (Hcounts : forall last,
              count_events is_upload_attempt last = 0 ->
              count_events is_post last <= 1 ->
              count_events is_store_write last = 0 ->
              count_events is_upload_attempt (evs ++ last) <= 1
              /\ count_events is_refresh (evs ++ last)
                 = count_events is_refresh last
              /\ count_events is_post (evs ++ last) <= 1
              /\ count_events is_store_write (evs ++ last) = 0).
    { intros last H1 H2 H3. rewrite !count_events_app. lia. }
    destruct (Utils.publishTweet env (accessToken (creds s)) payload s1)
      as [[body | e |] s2]; cbn [fst snd] in *.
    + destruct (Hcounts [EvPostTweet (accessToken (creds s)) payload])
        as [H1 [H2 [H3 H4]]]; try (unfold count_events; simpl; lia).
      unfold Service.data_id.
      destruct (pj_data body) as [id |]; unfold ret, throw; cbn [fst snd].
      * exists (evs ++ [EvPostTweet (accessToken (creds s)) payload]).
        split; [rewrite Ht2, Ht, app_assoc; reflexivity | ].
        split; [congruence | ].
        split; [exact H1 | ]. split; [rewrite H2; unfold count_events; simpl; lia | ].
        split; [exact H3 | ]. split; [exact H4 | ].
        split; [intros _; split; [exact H2 | ] | intros; exact H2].
        intros res Hres Hfalse. injection Hres as <-. discriminate.
      * rewrite type_error_is_no_auth_error. cbn [andb]. unfold ret. cbn [fst snd].
        exists (evs ++ [EvPostTweet (accessToken (creds s)) payload]).
        split; [rewrite Ht2, Ht, app_assoc; reflexivity | ].
        split; [congruence | ].
        split; [exact H1 | ]. split; [rewrite H2; unfold count_events; simpl; lia | ].
        split; [exact H3 | ]. split; [exact H4 | ].
        split; [intros _; split; [exact H2 | ] | intros; exact H2].
        intros res Hres _. injection Hres as <-. split; reflexivity.
    + destruct (Service.isAuthError e && truthy (refreshToken (creds s2))) eqn:Hcond.
      * apply andb_true_iff in Hcond. destruct Hcond as [_ Htoken].
        rewrite Hc2, Hc in Htoken.
        destruct Hcannot as [Hno | Hno]; [congruence | ].
        destruct (refresh_and_persist_without_user env s2) as [e' He'];
          [rewrite Hc2, Hc; exact Hno | ].
        unfold Service.retry_attempt.
        rewrite (bind_throw _ _ _ _ _ _ _ He'). unfold ret. cbn [fst snd trace creds].
        destruct (Hcounts [EvPostTweet (accessToken (creds s)) payload;
                           EvOAuthToken (clientId (creds s2)) (clientSecret (creds s2))
                                        (refreshToken (creds s2))])
          as [H1 [H2 [H3 H4]]]; try (unfold count_events; simpl; lia).
        exists (evs ++ [EvPostTweet (accessToken (creds s)) payload;
                        EvOAuthToken (clientId (creds s2)) (clientSecret (creds s2))
                                     (refreshToken (creds s2))]).
        split; [rewrite Ht2, Ht, <- !app_assoc; reflexivity | ].
        split; [congruence | ].
        split; [exact H1 | ]. split; [rewrite H2; unfold count_events; simpl; lia | ].
        split; [exact H3 | ]. split; [exact H4 | ].
        split; [intros Hn; congruence | ].
        intros res Hres Htrue. injection Hres as <-. discriminate.
      * unfold ret. cbn [fst snd].
        destruct (Hcounts [EvPostTweet (accessToken (creds s)) payload])
          as [H1 [H2 [H3 H4]]]; try (unfold count_events; simpl; lia).
        exists (evs ++ [EvPostTweet (accessToken (creds s)) payload]).
        split; [rewrite Ht2, Ht, app_assoc; reflexivity | ].
        split; [congruence | ].
        split; [exact H1 | ]. split; [rewrite H2; unfold count_events; simpl; lia | ].
        split; [exact H3 | ]. split; [exact H4 | ].
        split; [intros _; split; [exact H2 | ] | intros; exact H2].
        intros res Hres _. injection Hres as <-. split; reflexivity.
    + destruct (Hcounts [EvPostTweet (accessToken (creds s)) payload])
        as [H1 [H2 [H3 H4]]]; try (unfold count_events; simpl; lia).
      exists (evs ++ [EvPostTweet (accessToken (creds s)) payload]).
      split; [rewrite Ht2, Ht, app_assoc; reflexivity | ].
      split; [congruence | ].
      split; [exact H1 | ]. split; [rewrite H2; unfold count_events; simpl; lia | ].
      split; [exact H3 | ]. split; [exact H4 | ].
      split; [intros _; split; [exact H2 | ] | intros; discriminate].
      intros; discriminate.
  - assert (Hno_auth : Service.isAuthError e = false).
    { destruct (Hfail e s1 eq_refl) as [-> | ->]; reflexivity. }
    rewrite Hno_auth. cbn [andb]. unfold ret. cbn [fst snd].
    exists evs. split; [exact Ht | ]. split; [exact Hc | ].
    split; [exact Ha | ]. split; [exact Hr | ]. split; [lia | ]. split; [exact Hw | ].
    split.
    + intros Hn. split; [apply Hnone; exact Hn | ].
      intros res Hres _. injection Hres as <-. split; reflexivity.
    + intros res Hres Htrue. injection Hres as <-. discriminate.
  - exists evs. split; [exact Ht | ]. split; [exact Hc | ].
    split; [exact Ha | ]. split; [exact Hr | ]. split; [lia | ]. split; [exact Hw | ].
    split; [intros Hn; split; [apply Hnone; exact Hn | intros; discriminate] | ].
    intros; discriminate.
Qed.

End SinglePublish.

(** X9.  With no refresh token in the credentials, [publishTweetWithRefresh]
    is a single attempt: it exchanges no token, writes nothing to the store,
    runs the media upload at most once and posts at most once, and leaves
    the credentials in memory as they were.  A failure, an authentication
    failure included, is then reported with message 'Failed to publish
    tweet' and code api_error, never as an expired connection. *)
Theorem no_refresh_token_single_attempt
    (env : Env) (fuel : nat) (options : TweetOptions) (s : State) :
  truthy (refreshToken (creds s)) = false ->
  creds (snd (Service.publishTweetWithRefresh env fuel options s)) = creds s
  /\ count_events is_refresh
       (events_since s (snd (Service.publishTweetWithRefresh env fuel options s))) = 0
  /\ count_events is_store_write
       (events_since s (snd (Service.publishTweetWithRefresh env fuel options s))) = 0
  /\ count_events is_upload_attempt
       (events_since s (snd (Service.publishTweetWithRefresh env fuel options s))) <= 1
  /\ count_events is_post
       (events_since s (snd (Service.publishTweetWithRefresh env fuel options s))) <= 1
  /\ forall res,
       fst (Service.publishTweetWithRefresh env fuel options s) = Ok res ->
       success res = false ->
       res_message res = "Failed to publish tweet"
       /\ option_map err_code (error res) = Some (Some (CodeStr "api_error")).
Proof.
  intros Hno.
  destruct (publish_single_attempt env fuel options s (or_introl Hno))
    as [evs [Ht [Hc [Ha [Hr [Hp [Hw [Hnone _]]]]]]]].
  rewrite (events_since_app _ _ _ Ht).
  destruct (Hnone Hno) as [Hr0 Hres].
  repeat (split; [assumption | ]). exact Hres.
Qed.

Lemma no_refresh_token_single_attempt_witness :
  creds (snd (Service.publishTweetWithRefresh Sample.post_expired 0 Sample.plain
                (mkState [] (mkCredentials "A1" None "cid" "secret" (Some "u1")))))
  = mkCredentials "A1" None "cid" "secret" (Some "u1")
  /\ Service.publishTweetWithRefresh Sample.post_expired 0 Sample.plain
       (mkState [] (mkCredentials "A1" None "cid" "secret" (Some "u1")))
     = (Ok (mkResult false None None "Failed to publish tweet"
              (Some (mkErrorInfo (Some "Unauthorized") (Some (CodeStr "api_error"))
                                 None None))),
        mkState [EvPostTweet "A1" (mkPayload "hello" None None)]
                (mkCredentials "A1" None "cid" "secret" (Some "u1"))).
Proof.
  split.
  - apply (no_refresh_token_single_attempt Sample.post_expired 0 Sample.plain
             (mkState [] (mkCredentials "A1" None "cid" "secret" (Some "u1")))).
    reflexivity.
  - vm_compute. reflexivity.
Defined.

(** X10.  With no user id attached to the credentials, nothing is ever
    written to the credentials store: a token exchange may still be made,
    once, but its result is dropped ('User ID is required for token
    refresh'), so the publish posts at most once, runs the upload at most
    once, and cannot succeed once it has exchanged a token. *)
Theorem no_user_id_no_persisted_refresh
    (env : Env) (fuel : nat) (options : TweetOptions) (s : State) :
  truthy (userId (creds s)) = false ->
  creds (snd (Service.publishTweetWithRefresh env fuel options s)) = creds s
  /\ count_events is_store_write
       (events_since s (snd (Service.publishTweetWithRefresh env fuel options s))) = 0
  /\ count_events is_refresh
       (events_since s (snd (Service.publishTweetWithRefresh env fuel options s))) <= 1
  /\ count_events is_upload_attempt
       (events_since s (snd (Service.publishTweetWithRefresh env fuel options s))) <= 1
  /\ count_events is_post
       (events_since s (snd (Service.publishTweetWithRefresh env fuel options s))) <= 1
  /\ forall res,
       fst (Service.publishTweetWithRefresh env fuel options s) = Ok res ->
       success res = true ->
       count_events is_refresh
         (events_since s (snd (Service.publishTweetWithRefresh env fuel options s))) = 0.
Proof.
  intros Hno.
  destruct (publish_single_attempt env fuel options s (or_intror Hno))
    as [evs [Ht [Hc [Ha [Hr [Hp [Hw [_ Hok]]]]]]]].
  rewrite (events_since_app _ _ _ Ht).
  repeat (split; [assumption | ]). exact Hok.
Qed.

Lemma no_user_id_no_persisted_refresh_witness :
  creds (snd (Service.publishTweetWithRefresh Sample.post_expired 0 Sample.plain
                (mkState [] (mkCredentials "A1" (Some "R1") "cid" "secret" None))))
  = mkCredentials "A1" (Some "R1") "cid" "secret" None
  /\ Service.publishTweetWithRefresh Sample.post_expired 0 Sample.plain
       (mkState [] (mkCredentials "A1" (Some "R1") "cid" "secret" None))
     = (Ok (Service.token_expired_result
              (Error "User ID is required for token refresh")),
        mkState [EvPostTweet "A1" (mkPayload "hello" None None);
                 EvOAuthToken "cid" "secret" (Some "R1")]
                (mkCredentials "A1" (Some "R1") "cid" "secret" None)).
Proof.
  split.
  - apply (no_user_id_no_persisted_refresh Sample.post_expired 0 Sample.plain
             (mkState [] (mkCredentials "A1" (Some "R1") "cid" "secret" None))).
    reflexivity.
  - vm_compute. reflexivity.
Defined.

(** ** What a success means *)

Section Success.
Variable env : Env.
Variable fuel : nat.

Lemma utils_publishTweet_ok tok payload s body s' :
  Utils.publishTweet env tok payload s = (Ok body, s') ->
  s' = mkState (trace s ++ [EvPostTweet tok payload]) (creds s)
  /\ exists resp,
       net_post env (trace s ++ [EvPostTweet tok payload]) = inr resp
       /\ post_ok resp = true
       /\ post_json resp = inr body.
Proof.
  unfold Utils.publishTweet, bind, perform, parsed, throw, ret.
  destruct (net_post env (trace s ++ [EvPostTweet tok payload])) as [e | resp];
    [discriminate | ].
  destruct (post_ok resp) eqn:Hok; simpl.
  - destruct (post_json resp) as [e | b] eqn:Hjson; [discriminate | ].
    intros H. injection H as <- <-. split; [reflexivity | ].
    exists resp. auto.
  - destruct (post_json resp); discriminate.
Qed.

Lemma first_attempt_ok options tok s res s' :
  Service.first_attempt env fuel options tok s = (Ok res, s') ->
  exists payload s1 body,
    Service.prepareTweetPayload env fuel options tok s = (Ok payload, s1)
    /\ Utils.publishTweet env tok payload s1 = (Ok body, s')
    /\ pj_data body = Some (twitterTweetId res)
    /\ success res = true.
Proof.
  unfold Service.first_attempt, bind.
  destruct (Service.prepareTweetPayload env fuel options tok s)
    as [[payload | e |] s1] eqn:Hprep; try discriminate.
  destruct (Utils.publishTweet env tok payload s1) as [[body | e |] s2] eqn:Hpost;
    try discriminate.
  unfold Service.data_id. destruct (pj_data body) as [id |] eqn:Hid;
    unfold ret, throw; try discriminate.
  intros H. injection H as <- <-.
  exists payload, s1, body. repeat split; assumption.
Qed.

Lemma retry_attempt_ok options s res s' :
  Service.retry_attempt env fuel options s = (Ok res, s') ->
  exists newAccess newRefresh s3 payload s4 body,
    Service.refresh_and_persist env s = (Ok (newAccess, newRefresh), s3)
    /\ Service.prepareTweetPayload env fuel options newAccess s3 = (Ok payload, s4)
    /\ Utils.publishTweet env newAccess payload s4 = (Ok body, s')
    /\ pj_data body = Some (twitterTweetId res)
    /\ success res = true.
Proof.
  unfold Service.retry_attempt, bind.
  destruct (Service.refresh_and_persist env s) as [[[a r] | e |] s3] eqn:Hrefresh;
    try discriminate.
  destruct (Service.prepareTweetPayload env fuel options a s3)
    as [[payload | e |] s4] eqn:Hprep; try discriminate.
  destruct (Utils.publishTweet env a payload s4) as [[body | e |] s5] eqn:Hpost;
    try discriminate.
  unfold Service.data_id. destruct (pj_data body) as [id |] eqn:Hid;
    unfold ret, throw; try discriminate.
  intros H. injection H as <- <-.
  exists a, r, s3, payload, s4, body. repeat split; assumption.
Qed.

(** A refresh that returns has stored the pair it returns, under the user id
    of the credentials, and the store has accepted it. *)
Lemma refresh_and_persist_stored s newAccess newRefresh s' :
  Service.refresh_and_persist env s = (Ok (newAccess, newRefresh), s') ->
  exists user,
    userId (creds s) = Some user
    /\ trace s'
       = trace s ++ [EvOAuthToken (clientId (creds s)) (clientSecret (creds s))
                                  (refreshToken (creds s));
                     EvDbUpdateCredentials user newAccess newRefresh]
    /\ db_update_credentials env (trace s') = inr tt
    /\ creds s' = creds s.
Proof.
  unfold Service.refresh_and_persist. rewrite bind_get_creds.
  destruct (refreshTwitterAccessToken_outcome env (creds s) s) as [Hs _].
  unfold bind at 1.
  destruct (Utils.refreshTwitterAccessToken env (creds s) s)
    as [[[[a r] ex] | e |] s2]; try discriminate.
  simpl in Hs. subst s2. rewrite bind_get_creds. cbn [creds].
  destruct (userId (creds s)) as [user |] eqn:Huser; [ | discriminate].
  simpl. destruct (user =? "") eqn:Hempty; simpl; [discriminate | ].
  unfold Service.updateTwitterCredentials, bind, perform, ret. cbn [trace creds].
  rewrite <- app_assoc. simpl.
  destruct (db_update_credentials env _) as [e | []] eqn:Hstore; [discriminate | ].
  intros H. injection H as <- <- <-.
  exists user. cbn [trace creds]. auto.
Qed.

End Success.

Lemma publishTweetWithRefresh_success
    (env : Env) (fuel : nat) (options : TweetOptions) (s s' : State)
    (res : PublishResult) :
  Service.publishTweetWithRefresh env fuel options s = (Ok res, s') ->
  success res = true ->
  exists pre tok payload resp body,
    trace s' = pre ++ [EvPostTweet tok payload]
    /\ net_post env (trace s') = inr resp
    /\ post_ok resp = true
    /\ post_json resp = inr body
    /\ pj_data body = Some (twitterTweetId res)
    /\ p_text payload = o_text options
    /\ p_in_reply_to_tweet_id payload = reply_target options
    /\ (tok = accessToken (creds s)
        \/ exists user newRefresh,
             In (EvDbUpdateCredentials user tok newRefresh) (events_since s s')).
Proof.
  intros Hrun Hsuccess.
  unfold Service.publishTweetWithRefresh in Hrun.
  rewrite bind_get_creds in Hrun. unfold try_catch in Hrun.
  destruct (Service.first_attempt env fuel options (accessToken (creds s)) s)
    as [[res1 | e |] s1] eqn:Hfirst; [ | | discriminate].
  - injection Hrun as <- <-.
    destruct (first_attempt_ok env fuel _ _ _ _ _ Hfirst)
      as [payload [s0 [body [Hprep [Hpost [Hid _]]]]]].
    destruct (utils_publishTweet_ok env _ _ _ _ _ Hpost) as [Hs1 [resp [Hresp [Hok Hjson]]]].
    destruct (prepareTweetPayload_reply env fuel _ _ _ _ _ Hprep) as [Hreply Htext].
    exists (trace s0), (accessToken (creds s)), payload, resp, body.
    subst s1. cbn [trace]. auto 10.
  - rewrite bind_get_creds in Hrun.
    destruct (Service.isAuthError e && truthy (refreshToken (creds s1)));
      [ | injection Hrun as <- <-; discriminate].
    destruct (Service.retry_attempt env fuel options s1) as [[res2 | e' |] s2] eqn:Hretry;
      [ | injection Hrun as <- <-; discriminate | discriminate].
    injection Hrun as <- <-.
    destruct (retry_attempt_ok env fuel _ _ _ _ Hretry)
      as [a [r [s3 [payload [s4 [body [Hrefresh [Hprep [Hpost [Hid _]]]]]]]]]].
    destruct (utils_publishTweet_ok env _ _ _ _ _ Hpost) as [Hs2 [resp [Hresp [Hok Hjson]]]].
    destruct (prepareTweetPayload_reply env fuel _ _ _ _ _ Hprep) as [Hreply Htext].
    destruct (refresh_and_persist_stored env _ _ _ _ Hrefresh)
      as [user [_ [Ht3 _]]].
    exists (trace s4), a, payload, resp, body.
    subst s2. cbn [trace].
    do 7 (split; [assumption || reflexivity | ]).
    right. exists user, r.
    destruct (emits_first_attempt env fuel options (accessToken (creds s)) s)
      as [evs1 [Ht1 _]].
    rewrite Hfirst in Ht1. simpl in Ht1.
    destruct (emits_prepareTweetPayload env fuel options a s3) as [evs4 [Ht4 _]].
    rewrite Hprep in Ht4. simpl in Ht4.
    assert (Htrace : trace s4 ++ [EvPostTweet a payload]
                     = trace s ++ (evs1 ++ [EvOAuthToken (clientId (creds s1))
                                                         (clientSecret (creds s1))
                                                         (refreshToken (creds s1));
                                            EvDbUpdateCredentials user a r]
                                   ++ evs4 ++ [EvPostTweet a payload])).
    { rewrite Ht4, Ht3, Ht1. rewrite <- !app_assoc. reflexivity. }
    rewrite (events_since_app s (mkState (trace s4 ++ [EvPostTweet a payload]) (creds s4))
               _ Htrace).
    apply in_or_app. right. simpl. right. left. reflexivity.
Qed.

(** X11.  A publish that reports success has ended with a post call that the
    provider accepted: that call is the last thing the publish did, its
    payload carries the text and the reply target of the options, and the
    tweet id reported is the id of the provider's answer.  The token it was
    sent with is the access token the publish started with or, after a
    refresh, a token that had just been stored for the user. *)
Theorem successful_publish_ends_with_accepted_post
    (env : Env) (fuel : nat) (options : TweetOptions) (s s' : State)
    (res : PublishResult) :
  Service.publishTweetWithRefresh env fuel options s = (Ok res, s') ->
  success res = true ->
  exists pre tok payload resp body,
    trace s' = pre ++ [EvPostTweet tok payload]
    /\ net_post env (trace s') = inr resp
    /\ post_ok resp = true
    /\ post_json resp = inr body
    /\ pj_data body = Some (twitterTweetId res)
    /\ p_text payload = o_text options
    /\ p_in_reply_to_tweet_id payload = reply_target options
    /\ (tok = accessToken (creds s)
        \/ exists user newRefresh,
             In (EvDbUpdateCredentials user tok newRefresh) (events_since s s')).
Proof. exact (publishTweetWithRefresh_success env fuel options s s' res). Qed.

Lemma successful_publish_ends_with_accepted_post_witness :
  exists pre tok payload resp body,
    trace (mkState [EvPostTweet "A1" (mkPayload "hello" None None);
                    EvOAuthToken "cid" "secret" (Some "R1");
                    EvDbUpdateCredentials "u1" "A2" "R2";
                    EvPostTweet "A2" (mkPayload "hello" None None)]
                   Sample.creds1)
    = pre ++ [EvPostTweet tok payload]
    /\ net_post Sample.post_expired
         (trace (mkState [EvPostTweet "A1" (mkPayload "hello" None None);
                          EvOAuthToken "cid" "secret" (Some "R1");
                          EvDbUpdateCredentials "u1" "A2" "R2";
                          EvPostTweet "A2" (mkPayload "hello" None None)]
                         Sample.creds1)) = inr resp
    /\ post_ok resp = true
    /\ post_json resp = inr body
    /\ pj_data body
       = Some (twitterTweetId
                 (mkResult true (Some "t1") None
                    "Tweet published successfully after refreshing credentials" None))
    /\ p_text payload = o_text Sample.plain
    /\ p_in_reply_to_tweet_id payload = reply_target Sample.plain
    /\ (tok = accessToken (creds Sample.start)
        \/ exists user newRefresh,
             In (EvDbUpdateCredentials user tok newRefresh)
                (events_since Sample.start
                   (mkState [EvPostTweet "A1" (mkPayload "hello" None None);
                             EvOAuthToken "cid" "secret" (Some "R1");
                             EvDbUpdateCredentials "u1" "A2" "R2";
                             EvPostTweet "A2" (mkPayload "hello" None None)]
                            Sample.creds1))).
Proof.
  apply (successful_publish_ends_with_accepted_post Sample.post_expired 0 Sample.plain
           Sample.start).
  - vm_compute. reflexivity.
  - reflexivity.
Defined.

(** ** The service's [publishTweet]: what its checks guarantee *)

Section Checks.
Variable env : Env.
Variable fuel : nat.

Lemma access_read_is_store_read ev : is_access_read ev = true -> is_store_read ev = true.
Proof. destruct ev; simpl; intros H; try discriminate; reflexivity. Qed.

Lemma bind_inv A B (m : M A) (k : A -> M B) s b s' :
  bind m k s = (Ok b, s') -> exists a s1, m s = (Ok a, s1) /\ k a s1 = (Ok b, s').
Proof.
  unfold bind. destruct (m s) as [[a | e |] s1]; try discriminate.
  intros H. exists a, s1. auto.
Qed.

(** What it means that the checks have passed. *)
Lemma publish_checks_passed user options s tweetOptions s1 :
  Service.publish_checks env user options s = (Ok (inr tweetOptions), s1) ->
  has_required_fields options = true
  /\ (exists v s0,
        Service.verifyProjectAccess env user (po_projectId options) s = (Ok v, s0)
        /\ isAuthorized v = true)
  /\ exists reads snapshot,
       trace s1
       = trace s ++ reads
         ++ [EvDbGetCredentials user;
             EvDbGetTweet (po_projectId options) (po_tweetId options)]
       /\ only is_store_read reads
       /\ db_tweet env (trace s1) = inr snapshot
       /\ snapshot <> NotExists
       /\ userId (creds s1) = Some user
       /\ accessToken (creds s1) <> "".
Proof.
  unfold Service.publish_checks, has_required_fields.
  destruct ((po_tweetId options =? "") || (po_projectId options =? "")
            || (po_text options =? "")); [discriminate | ].
  intros H.
  apply bind_inv in H. destruct H as [v [s0 [Hv H]]].
  destruct (isAuthorized v) eqn:Hauth; simpl in H; [ | discriminate].
  apply bind_inv in H. destruct H as [disabled [s2 [Hgroup H]]].
  destruct disabled; [discriminate | ].
  apply bind_inv in H. destruct H as [r [s3 [Hcreds H]]].
  destruct r as [c |]; [ | discriminate].
  apply bind_inv in H. destruct H as [snapshot [s4 [Htweet H]]].
  destruct (emits_verifyProjectAccess env user (po_projectId options) s)
    as [evs1 [Ht1 Ho1]].
  rewrite Hv in Ht1. simpl in Ht1.
  assert (Hreads2 : exists evs2, trace s2 = trace s0 ++ evs2 /\ only is_store_read evs2).
  { match type of Hgroup with
    | ?m s0 = _ => assert (Hem : emits is_store_read m)
    end.
    { destruct (truthy (po_groupId options)); [ | emits_auto].
      emits_step; [apply emits_getTweetGroup | intros; emits_auto]. }
    destruct (Hem s0) as [evs2 Hevs2]. rewrite Hgroup in Hevs2. exists evs2. exact Hevs2. }
  destruct Hreads2 as [evs2 [Ht2 Ho2]].
  destruct (getTwitterCredentials_run env user s2) as [r [Hrun Hfrom]].
  rewrite Hcreds in Hrun. injection Hrun as <- ->.
  destruct (Hfrom c eq_refl) as [Htoken _].
  unfold perform in Htweet. cbn [trace creds] in Htweet.
  destruct (db_tweet env _) as [e | snapshot'] eqn:Hanswer; [discriminate | ].
  injection Htweet as <- <-.
  assert (Hshape : (trace s2 ++ [EvDbGetCredentials user])
                   ++ [EvDbGetTweet (po_projectId options) (po_tweetId options)]
                   = trace s ++ (evs1 ++ evs2)
                     ++ [EvDbGetCredentials user;
                         EvDbGetTweet (po_projectId options) (po_tweetId options)]).
  { rewrite Ht2, Ht1, <- !app_assoc. reflexivity. }
  assert (Hreads : only is_store_read (evs1 ++ evs2)).
  { apply only_app; [ | exact Ho2].
    unfold only in *. eapply Forall_impl; [ | exact Ho1].
    intros ev. apply access_read_is_store_read. }
  destruct snapshot' as [| | doc]; [discriminate | | ];
    unfold bind, set_creds, ret in H; cbn [trace creds] in H;
    (injection H as <- <-;
     split; [reflexivity | ];
     split; [exists v, s0; auto | ];
     eexists (evs1 ++ evs2), _; cbn [trace creds];
     split; [exact Hshape | ];
     split; [exact Hreads | ];
     split; [exact Hanswer | ];
     split; [discriminate | ];
     split; [reflexivity | exact Htoken]).
Qed.

(** Until the checks have passed, the publish only reads the store. *)
Lemma publishTweet_before_checks user options s :
  (forall tweetOptions s1,
     Service.publish_checks env user options s <> (Ok (inr tweetOptions), s1)) ->
  only is_store_read
       (events_since s (snd (Service.publishTweet env fuel user options s))).
Proof.
  intros Hnot.
  destruct (emits_publish_checks env user options s) as [evs [Ht Ho]].
  unfold Service.publishTweet, try_catch, bind.
  destruct (Service.publish_checks env user options s) as [[[early | t] | e |] s1];
    simpl in Ht; simpl; try (rewrite (events_since_app _ _ _ Ht); exact Ho).
  exfalso. exact (Hnot t s1 eq_refl).
Qed.

End Checks.

Section Persisted.
Variable env : Env.
Variable fuel : nat.

Lemma publish_checks_early user options s early s1 :
  Service.publish_checks env user options s = (Ok (inl early), s1) ->
  success early = false.
Proof.
  unfold Service.publish_checks.
  destruct ((po_tweetId options =? "") || (po_projectId options =? "")
            || (po_text options =? ""));
    [intros H; injection H as <- <-; reflexivity | ].
  intros H.
  apply bind_inv in H. destruct H as [v [s0 [Hv H]]].
  destruct (negb (isAuthorized v)); [injection H as <- <-; reflexivity | ].
  apply bind_inv in H. destruct H as [disabled [s2 [Hgroup H]]].
  destruct disabled; [injection H as <- <-; reflexivity | ].
  apply bind_inv in H. destruct H as [r [s3 [Hcreds H]]].
  destruct r as [c |]; [ | injection H as <- <-; reflexivity].
  apply bind_inv in H. destruct H as [snapshot [s4 [Htweet H]]].
  destruct snapshot; [injection H as <- <-; reflexivity | | ];
    unfold bind, set_creds, ret in H; discriminate.
Qed.

Lemma store_read_not_write ev : is_store_read ev = true -> is_store_write ev = false.
Proof. destruct ev; simpl; intros H; try discriminate; reflexivity. Qed.

End Persisted.

(** X12.  When the service's [publishTweet] reports a success with a tweet
    id, the store has accepted the update of the tweet: the last thing the
    publish did is the update of that tweet of that project with the
    provider's id, and it went through.  The text it records as published is
    the text of the caller's options. *)
Theorem reported_success_is_persisted
    (env : Env) (fuel : nat) (user : string) (options : PublishOptions)
    (s s' : State) (res : PublishResult) (id : string) :
  Service.publishTweet env fuel user options s = (Ok res, s') ->
  success res = true ->
  twitterTweetId res = Some id ->
  id <> "" ->
  exists pre,
    trace s'
    = pre ++ [EvDbUpdateTweet (po_projectId options) (po_tweetId options) id
                              (po_text options)]
    /\ db_update_tweet env (trace s') = inr tt.
Proof.
  intros Hrun Hsuccess Hid Hne.
  unfold Service.publishTweet, try_catch in Hrun.
  match type of Hrun with
  | match ?body with _ => _ end = _ => destruct body as [[r | e |] s2] eqn:Hbody
  end; [ | | discriminate].
  - injection Hrun as <- <-.
    apply bind_inv in Hbody. destruct Hbody as [checked [s1 [Hchecks Hk]]].
    destruct checked as [early | tweetOptions].
    + injection Hk as <- <-.
      rewrite (publish_checks_early env _ _ _ _ _ Hchecks) in Hsuccess. discriminate.
    + apply bind_inv in Hk. destruct Hk as [publishResult [s3 [Hpublish Hk]]].
      apply bind_inv in Hk. destruct Hk as [u [s4 [Hupdate Hk]]].
      injection Hk as <- <-.
      rewrite Hsuccess, Hid in Hupdate. simpl in Hupdate.
      apply String.eqb_neq in Hne. rewrite Hne in Hupdate. simpl in Hupdate.
      unfold Service.updateTweetStatus, perform in Hupdate.
      destruct (db_update_tweet env _) as [e | []] eqn:Hstore; [discriminate | ].
      injection Hupdate as <-. subst s4. cbn [trace].
      exists (trace s3). split; [reflexivity | exact Hstore].
  - injection Hrun as <- <-. discriminate.
Qed.

Lemma reported_success_is_persisted_witness :
  exists pre,
    trace (mkState [EvDbGetProject "p1"; EvDbGetCredentials "u1"; EvDbGetTweet "p1" "a";
                    EvPostTweet "A1" (mkPayload "hello" None None);
                    EvDbUpdateTweet "p1" "a" "t1" "hello"]
                   Sample.creds1)
    = pre ++ [EvDbUpdateTweet
                (po_projectId (mkPublishOptions "a" "p1" "hello" None None None None))
                (po_tweetId (mkPublishOptions "a" "p1" "hello" None None None None))
                "t1"
                (po_text (mkPublishOptions "a" "p1" "hello" None None None None))]
    /\ db_update_tweet Sample.quiet
         (trace (mkState [EvDbGetProject "p1"; EvDbGetCredentials "u1";
                          EvDbGetTweet "p1" "a";
                          EvPostTweet "A1" (mkPayload "hello" None None);
                          EvDbUpdateTweet "p1" "a" "t1" "hello"]
                         Sample.creds1)) = inr tt.
Proof.
  apply (reported_success_is_persisted Sample.quiet 0 "u1"
           (mkPublishOptions "a" "p1" "hello" None None None None) Sample.start
           _ (mkResult true (Some "t1") (Some "t1") "Tweet published successfully" None)).
  - vm_compute. reflexivity.
  - reflexivity.
  - reflexivity.
  - discriminate.
Defined.

(** X13.  The service's [publishTweet] lets nothing out before its checks
    have passed.  If a publish has made any network call or written anything
    to the store, then the required fields were there, access to the project
    was granted, and the publish began with reads of the store only, the
    last two of them the user's credentials and the tweet itself, which the
    store reported as existing; everything else came after. *)
Theorem nothing_leaves_before_the_checks
    (env : Env) (fuel : nat) (user : string) (options : PublishOptions) (s : State) :
  count_events (fun ev => is_network_call ev || is_store_write ev)
    (events_since s (snd (Service.publishTweet env fuel user options s))) <> 0 ->
  has_required_fields options = true
  /\ (exists v s0,
        Service.verifyProjectAccess env user (po_projectId options) s = (Ok v, s0)
        /\ isAuthorized v = true)
  /\ exists reads snapshot rest,
       events_since s (snd (Service.publishTweet env fuel user options s))
       = reads
         ++ [EvDbGetCredentials user;
             EvDbGetTweet (po_projectId options) (po_tweetId options)]
         ++ rest
       /\ only is_store_read reads
       /\ db_tweet env
            (trace s ++ reads
             ++ [EvDbGetCredentials user;
                 EvDbGetTweet (po_projectId options) (po_tweetId options)])
          = inr snapshot
       /\ snapshot <> NotExists.
Proof.
  intros Hsome.
  destruct (Service.publish_checks env user options s)
    as [[[early | tweetOptions] | e |] s1] eqn:Hchecks.
  2: {
    destruct (publish_checks_passed env _ _ _ _ _ Hchecks)
      as [Hfields [Haccess [reads [snapshot [Ht [Ho [Hsnap [Hexists _]]]]]]]].
    split; [exact Hfields | ]. split; [exact Haccess | ].
    assert (Hrest : exists rest,
              trace (snd (Service.publishTweet env fuel user options s))
              = trace s1 ++ rest).
    { unfold Service.publishTweet, try_catch.
      rewrite (bind_ok _ _ _ _ _ _ _ Hchecks).
      match goal with
      | |- context [match ?k s1 with _ => _ end] =>
          assert (Hem : emits (fun _ => true) k)
      end.
      { emits_step.
        - eapply emits_weaken; [ | apply emits_publishTweetWithRefresh]. reflexivity.
        - emits_step; [ | emits_auto].
          destruct (_ && _); [ | emits_auto].
          unfold Service.updateTweetStatus. emits_auto. }
      destruct (Hem s1) as [rest [Hr _]].
      match goal with
      | |- context [match ?k s1 with _ => _ end] =>
          destruct (k s1) as [[r | e |] s2]
      end; simpl in *; exists rest; exact Hr. }
    destruct Hrest as [rest Hrest].
    exists reads, snapshot, rest.
    split.
    - apply events_since_app. rewrite Hrest, Ht, <- !app_assoc. reflexivity.
    - split; [exact Ho | ]. rewrite <- Ht. split; assumption. }
  all: exfalso; apply Hsome;
    apply (count_events_none _ is_store_read);
    [intros ev Hev; rewrite (store_read_not_network ev Hev),
                      (store_read_not_write ev Hev); reflexivity
    | apply publishTweet_before_checks; intros t s2; rewrite Hchecks; discriminate].
Qed.

Lemma nothing_leaves_before_the_checks_witness :
  has_required_fields (mkPublishOptions "a" "p1" "hello" None None None None) = true
  /\ (exists v s0,
        Service.verifyProjectAccess Sample.quiet "u1"
          (po_projectId (mkPublishOptions "a" "p1" "hello" None None None None))
          Sample.start = (Ok v, s0)
        /\ isAuthorized v = true)
  /\ exists reads snapshot rest,
       events_since Sample.start
         (snd (Service.publishTweet Sample.quiet 0 "u1"
                 (mkPublishOptions "a" "p1" "hello" None None None None) Sample.start))
       = reads
         ++ [EvDbGetCredentials "u1";
             EvDbGetTweet
               (po_projectId (mkPublishOptions "a" "p1" "hello" None None None None))
               (po_tweetId (mkPublishOptions "a" "p1" "hello" None None None None))]
         ++ rest
       /\ only is_store_read reads
       /\ db_tweet Sample.quiet
            (trace Sample.start ++ reads
             ++ [EvDbGetCredentials "u1";
                 EvDbGetTweet
                   (po_projectId (mkPublishOptions "a" "p1" "hello" None None None None))
                   (po_tweetId (mkPublishOptions "a" "p1" "hello" None None None None))])
          = inr snapshot
       /\ snapshot <> NotExists.
Proof.
  apply (nothing_leaves_before_the_checks Sample.quiet 0 "u1"
           (mkPublishOptions "a" "p1" "hello" None None None None) Sample.start).
  vm_compute. discriminate.
Defined.

(** ** The order of a thread *)

Lemma insert_by_filter A (key : A -> Z) (k : Z) (x : A) (l : list A) :
  filter (fun a => (key a =? k)%Z) (insert_by key x l)
  = if (key x =? k)%Z then x :: filter (fun a => (key a =? k)%Z) l
    else filter (fun a => (key a =? k)%Z) l.
Proof.
  induction l as [| y rest IH]; simpl.
  - destruct (key x =? k)%Z; reflexivity.
  - destruct (key x <=? key y)%Z eqn:Hle; simpl.
    + destruct (key x =? k)%Z; reflexivity.
    + rewrite IH.
      destruct (key x =? k)%Z eqn:Hx; [ | reflexivity].
      destruct (key y =? k)%Z eqn:Hy; [ | reflexivity].
      apply Z.eqb_eq in Hx. apply Z.eqb_eq in Hy. apply Z.leb_gt in Hle. lia.
Qed.

Lemma sort_by_filter A (key : A -> Z) (k : Z) (l : list A) :
  filter (fun a => (key a =? k)%Z) (sort_by key l)
  = filter (fun a => (key a =? k)%Z) l.
Proof.
  unfold sort_by. induction l as [| x rest IH]; simpl; [reflexivity | ].
  rewrite insert_by_filter, IH. reflexivity.
Qed.

Lemma insert_by_map A B (g : A -> B) (key : B -> Z) (x : A) (l : list A) :
  insert_by key (g x) (map g l) = map g (insert_by (fun a => key (g a)) x l).
Proof.
  induction l as [| y rest IH]; simpl; [reflexivity | ].
  destruct (key (g x) <=? key (g y))%Z; simpl; [reflexivity | ].
  rewrite IH. reflexivity.
Qed.

Lemma sort_by_map A B (g : A -> B) (key : B -> Z) (l : list A) :
  sort_by key (map g l) = map g (sort_by (fun a => key (g a)) l).
Proof.
  unfold sort_by. induction l as [| x rest IH]; simpl; [reflexivity | ].
  rewrite IH. apply insert_by_map.
Qed.

Lemma sort_by_ext A (key1 key2 : A -> Z) (l : list A) :
  (forall a, key1 a = key2 a) -> sort_by key1 l = sort_by key2 l.
Proof.
  intros Hext. unfold sort_by. induction l as [| x rest IH]; simpl; [reflexivity | ].
  rewrite IH. generalize (fold_right (insert_by key2) [] rest). intros acc.
  induction acc as [| y acc IHacc]; simpl; [reflexivity | ].
  rewrite !Hext, IHacc. reflexivity.
Qed.

(** X14.  [publishThreadTweets] publishes the tweets in the order of their
    positions, a missing position counting as 0: the order it uses is a
    rearrangement of the tweets it was given, ascending in position, and it
    is stable, so tweets with the same position keep the order in which
    they were given. *)
Theorem thread_order_is_a_stable_sort (threadTweets : list ThreadTweet) :
  let position := fun t => or_defaultZ (threadPosition t) 0 in
  Permutation (Service.sortedTweets threadTweets) threadTweets
  /\ @Sorted ThreadTweet (fun a b => (position a <= position b)%Z)
       (Service.sortedTweets threadTweets)
  /\ forall k,
       filter (fun t => (position t =? k)%Z) (Service.sortedTweets threadTweets)
       = filter (fun t => (position t =? k)%Z) threadTweets.
Proof.
  intros position.
  split; [apply sort_by_perm | ].
  split; [apply sortedTweets_sorted | ].
  intros k. unfold Service.sortedTweets. apply (sort_by_filter _ position).
Qed.

(** X15.  [processThreadTweet] keeps the order of a thread: a missing
    position becomes 0, which is how the sort reads a missing position
    anyway, so sorting the processed tweets gives the processed tweets in
    the order of their stored positions.  What it drops is the reply target:
    a processed tweet is published as a reply to the previous id at hand
    and, with none at hand, as a reply to nothing, whatever reply target
    was stored. *)
Theorem processThreadTweet_keeps_the_order (data : list TweetData) :
  Service.sortedTweets (map processThreadTweet data)
  = map processThreadTweet
        (sort_by (fun d => or_defaultZ (d_threadPosition d) 0) data)
  /\ forall d previous,
       reply_target (Service.publishOptions (processThreadTweet d) previous)
       = if truthy previous then previous else None.
Proof.
  split.
  - unfold Service.sortedTweets. rewrite sort_by_map.
    f_equal. apply sort_by_ext. intros d. simpl. unfold or_defaultZ.
    destruct (d_threadPosition d) as [z |]; [ | reflexivity].
    destruct (z =? 0)%Z eqn:Hz; [reflexivity | rewrite Hz; reflexivity].
  - intros d previous. unfold reply_target, Service.publishOptions.
    cbn [o_replyToTweetId processThreadTweet tw_replyToTweetId].
    destruct (truthy previous) eqn:Hprevious; [rewrite Hprevious | ]; reflexivity.
Qed.

(** ** Threads that are already published *)

Section PublishedThread.
Variable env : Env.
Variable fuel : nat.

Lemma for_of_all_published projectId tweets st s :
  forallb (fun t => tw_status t =? TweetStatus_PUBLISHED) tweets = true ->
  exists st',
    for_of (Service.thread_body env fuel projectId) tweets st s
    = (Ok (Continue st'), s)
    /\ Service.results st' = Service.results st.
Proof.
  revert st. induction tweets as [| t rest IH]; intros st Hall; simpl.
  - exists st. split; reflexivity.
  - simpl in Hall. apply andb_true_iff in Hall. destruct Hall as [Ht Hrest].
    apply String.eqb_eq in Ht.
    unfold bind. rewrite (thread_body_published env fuel projectId t st s Ht).
    destruct (IH (Service.mkLoop (tw_publishedTweetId t) (Service.results st)) Hrest)
      as [st' [Hrun Hres]].
    exists st'. split; [exact Hrun | exact Hres].
Qed.

Lemma sortedTweets_all_published tweets :
  forallb (fun t => tw_status t =? TweetStatus_PUBLISHED) tweets = true ->
  forallb (fun t => tw_status t =? TweetStatus_PUBLISHED) (Service.sortedTweets tweets)
  = true.
Proof.
  intros Hall. apply forallb_forall. intros t Hin.
  rewrite forallb_forall in Hall. apply Hall.
  eapply Permutation_in; [apply sort_by_perm | exact Hin].
Qed.

End PublishedThread.

(** X16.  Publishing a thread all of whose tweets are already published
    posts nothing again: whatever the store answers, the call makes no
    network call and writes nothing to the store.  Once access is granted
    and the credentials are found, it reports success with the message
    'Thread published successfully (0 tweets)' and an empty list of
    results. *)
Theorem published_thread_is_not_posted_again
    (env : Env) (fuel : nat) (user projectId : string)
    (threadTweets : list ThreadTweet) (s : State) :
  forallb (fun t => tw_status t =? TweetStatus_PUBLISHED) threadTweets = true ->
  only is_store_read
    (events_since s
       (snd (Service.publishThreadTweets env fuel user projectId threadTweets s)))
  /\ (forall v s1 c s2,
        threadTweets <> [] ->
        Service.verifyProjectAccess env user projectId s = (Ok v, s1) ->
        isAuthorized v = true ->
        Service.getTwitterCredentials env user s1 = (Ok (Some c), s2) ->
        Service.publishThreadTweets env fuel user projectId threadTweets s
        = (Ok (mkThreadResult true "Thread published successfully (0 tweets)"
                 (Some []) None),
           mkState (trace s2) c)).
Proof.
  intros Hall.
  pose proof (sortedTweets_all_published threadTweets Hall) as Hsorted.
  assert (Hloop : forall s0, exists previous,
            for_of (Service.thread_body env fuel projectId)
                   (Service.sortedTweets threadTweets) (Service.mkLoop None []) s0
            = (Ok (Continue (Service.mkLoop previous [])), s0)).
  { intros s0.
    destruct (for_of_all_published env fuel projectId _ (Service.mkLoop None []) s0 Hsorted)
      as [[previous r] [Hrun Hres]].
    simpl in Hres. subst r. exists previous. exact Hrun. }
  split.
  - assert (Hem : emits is_store_read
                    (Service.publishThreadTweets env fuel user projectId threadTweets)).
    { unfold Service.publishThreadTweets.
      emits_step; [ | emits_auto].
      emits_step.
      { eapply emits_weaken; [ | apply emits_verifyProjectAccess].
        intros [] H; try discriminate; reflexivity. }
      destruct (negb _); [emits_auto | ].
      emits_step.
      { eapply emits_weaken; [ | apply emits_getTwitterCredentials].
        intros [] H; try discriminate; reflexivity. }
      destruct a0 as [c |]; [ | emits_auto].
      destruct threadTweets as [| t ts]; [emits_auto | ].
      emits_step; [emits_auto | ].
      emits_step; [ | emits_auto].
      intros s0. destruct (Hloop s0) as [previous Hrun].
      exists []. rewrite Hrun. simpl. rewrite app_nil_r.
      split; [reflexivity | constructor]. }
    apply emits_events_since. exact Hem.
  - intros v s1 c s2 Hne Hv Hauth Hc.
    unfold Service.publishThreadTweets, try_catch.
    rewrite (bind_ok _ _ _ _ _ _ _ Hv). rewrite Hauth. cbn [negb].
    rewrite (bind_ok _ _ _ _ _ _ _ Hc).
    destruct threadTweets as [| t ts]; [congruence | ].
    destruct (Hloop (mkState (trace s2) c)) as [previous Hrun].
    unfold bind, set_creds. rewrite Hrun. reflexivity.
Qed.

Lemma published_thread_is_not_posted_again_witness :
  only is_store_read
    (events_since Sample.start
       (snd (Service.publishThreadTweets Sample.quiet 0 "u1" "p1"
               [Sample.published "a" "one" 1 "t1"; Sample.published "b" "two" 2 "t2"]
               Sample.start)))
  /\ (forall v s1 c s2,
        [Sample.published "a" "one" 1 "t1"; Sample.published "b" "two" 2 "t2"] <> [] ->
        Service.verifyProjectAccess Sample.quiet "u1" "p1" Sample.start = (Ok v, s1) ->
        isAuthorized v = true ->
        Service.getTwitterCredentials Sample.quiet "u1" s1 = (Ok (Some c), s2) ->
        Service.publishThreadTweets Sample.quiet 0 "u1" "p1"
          [Sample.published "a" "one" 1 "t1"; Sample.published "b" "two" 2 "t2"]
          Sample.start
        = (Ok (mkThreadResult true "Thread published successfully (0 tweets)"
                 (Some []) None),
           mkState (trace s2) c)).
Proof.
  apply (published_thread_is_not_posted_again Sample.quiet 0 "u1" "p1"
           [Sample.published "a" "one" 1 "t1"; Sample.published "b" "two" 2 "t2"]
           Sample.start).
  reflexivity.
Defined.

(** ** Scheduled tweets *)

(** X17.  When [publishScheduledTweet] answers true, the tweet is on the
    provider and in the store: the last two things it did are a post call
    with the text of the tweet, which the provider accepted, and the update
    of the tweet of that project with the id the provider gave, which the
    store accepted. *)
Theorem scheduled_tweet_true_means_posted_and_persisted
    (env : Env) (fuel : nat) (tweet : TweetData) (s s' : State) :
  Service.publishScheduledTweet env fuel tweet s = (Ok true, s') ->
  exists pre tok payload id resp body,
    trace s'
    = pre ++ [EvPostTweet tok payload;
              EvDbUpdateTweet (d_projectId tweet) (d_id tweet) id (d_text tweet)]
    /\ id <> ""
    /\ p_text payload = d_text tweet
    /\ net_post env (pre ++ [EvPostTweet tok payload]) = inr resp
    /\ post_ok resp = true
    /\ post_json resp = inr body
    /\ pj_data body = Some (Some id)
    /\ db_update_tweet env (trace s') = inr tt.
Proof.
  intros Hrun.
  unfold Service.publishScheduledTweet, try_catch in Hrun.
  match type of Hrun with
  | match ?body with _ => _ end = _ => destruct body as [[r | e |] s2] eqn:Hbody
  end; [ | discriminate | discriminate].
  injection Hrun as -> <-.
  apply bind_inv in Hbody. destruct Hbody as [disabled [s1 [Hgroup Hk]]].
  destruct disabled; [discriminate | ].
  rewrite bind_get_creds in Hk.
  apply bind_inv in Hk. destruct Hk as [u [s3 [Hset Hk]]].
  apply bind_inv in Hk. destruct Hk as [publishResult [s4 [Hpublish Hk]]].
  destruct (success publishResult && truthy (twitterTweetId publishResult)) eqn:Hcond;
    [ | discriminate].
  apply andb_true_iff in Hcond. destruct Hcond as [Hsuccess Hid].
  apply bind_inv in Hk. destruct Hk as [u' [s5 [Hupdate Hk]]].
  injection Hk as <-.
  destruct (publishTweetWithRefresh_success env fuel _ _ _ _ Hpublish Hsuccess)
    as [pre [tok [payload [resp [body [Ht [Hresp [Hok [Hjson [Hdata [Htext _]]]]]]]]]]].
  destruct (twitterTweetId publishResult) as [id |] eqn:Hres; [ | discriminate].
  apply truthy_some in Hid.
  assert (Hne : (id =? "") = false) by (apply String.eqb_neq; exact Hid).
  unfold Service.updateTweetStatus, perform in Hupdate.
  simpl in Hupdate. rewrite Hne in Hupdate.
  destruct (db_update_tweet env _) as [e | []] eqn:Hstore; [discriminate | ].
  injection Hupdate as _ <-. cbn [trace].
  rewrite Ht in Hstore, Hresp |- *. rewrite <- app_assoc in Hstore |- *.
  simpl in Hstore |- *.
  exists pre, tok, payload, id, resp, body.
  repeat split; assumption.
Qed.

Lemma scheduled_tweet_true_means_posted_and_persisted_witness :
  exists pre tok payload id resp body,
    trace (mkState [EvPostTweet "A1" (mkPayload "hello" None None);
                    EvDbUpdateTweet "p1" "a" "t1" "hello"]
                   Sample.creds1)
    = pre ++ [EvPostTweet tok payload;
              EvDbUpdateTweet
                (d_projectId (mkTweetData "a" "p1" (Some "u1") "hello" None None
                                "scheduled" None None None None))
                (d_id (mkTweetData "a" "p1" (Some "u1") "hello" None None
                         "scheduled" None None None None))
                id
                (d_text (mkTweetData "a" "p1" (Some "u1") "hello" None None
                           "scheduled" None None None None))]
    /\ id <> ""
    /\ p_text payload
       = d_text (mkTweetData "a" "p1" (Some "u1") "hello" None None
                   "scheduled" None None None None)
    /\ net_post Sample.quiet (pre ++ [EvPostTweet tok payload]) = inr resp
    /\ post_ok resp = true
    /\ post_json resp = inr body
    /\ pj_data body = Some (Some id)
    /\ db_update_tweet Sample.quiet
         (trace (mkState [EvPostTweet "A1" (mkPayload "hello" None None);
                          EvDbUpdateTweet "p1" "a" "t1" "hello"]
                         Sample.creds1)) = inr tt.
Proof.
  apply (scheduled_tweet_true_means_posted_and_persisted Sample.quiet 0
           (mkTweetData "a" "p1" (Some "u1") "hello" None None "scheduled" None None
                        None None)
           Sample.start).
  vm_compute. reflexivity.
Defined.

(** X18.  A scheduled tweet whose group exists and is disabled is skipped:
    [publishScheduledTweet] answers false, the reading of the group is the
    only thing it does, and the credentials it was given are not touched.
    The same holds when the group cannot be read. *)
Theorem scheduled_tweet_of_disabled_group_is_skipped
    (env : Env) (fuel : nat) (tweet : TweetData) (s : State) :
  truthy (d_groupId tweet) = true ->
  (db_group env (trace s ++ [EvDbGetGroup (or_default (d_groupId tweet) "")])
   = inr (ExistsData (mkGroup (Some false)))
   \/ exists e,
        db_group env (trace s ++ [EvDbGetGroup (or_default (d_groupId tweet) "")])
        = inl e) ->
  Service.publishScheduledTweet env fuel tweet s
  = (Ok false,
     mkState (trace s ++ [EvDbGetGroup (or_default (d_groupId tweet) "")]) (creds s)).
Proof.
  intros Hgroup Hanswer.
  unfold Service.publishScheduledTweet, try_catch, bind.
  rewrite Hgroup. unfold Groups.getTweetGroup, bind, perform.
  destruct Hanswer as [-> | [e ->]]; reflexivity.
Qed.

Lemma scheduled_tweet_of_disabled_group_is_skipped_witness :
  Service.publishScheduledTweet Sample.group_disabled 0
    (mkTweetData "a" "p1" (Some "u1") "hello" None None "scheduled" None None None
                 (Some "g1"))
    Sample.start
  = (Ok false,
     mkState (trace Sample.start
              ++ [EvDbGetGroup
                    (or_default
                       (d_groupId (mkTweetData "a" "p1" (Some "u1") "hello" None None
                                     "scheduled" None None None (Some "g1"))) "")])
             (creds Sample.start)).
Proof.
  apply (scheduled_tweet_of_disabled_group_is_skipped Sample.group_disabled 0
           (mkTweetData "a" "p1" (Some "u1") "hello" None None "scheduled" None None
                        None (Some "g1"))
           Sample.start).
  - reflexivity.
  - left. reflexivity.
Defined.

(** ** Grouping tweets by user *)

Lemma get_push_group (user user' : string) (t : TweetData) (g : TweetsByUser) :
  get_group user (push_group user' t g)
  = if user' =? user then
      Some (match get_group user g with
            | Some ts => ts ++ [t]
            | None => [t]
            end)
    else get_group user g.
Proof.
  induction g as [| [u ts] rest IH]; simpl.
  - reflexivity.
  - destruct (u =? user') eqn:Hpush; simpl.
    + apply String.eqb_eq in Hpush. subst u.
      destruct (user' =? user); reflexivity.
    + destruct (u =? user) eqn:Hget.
      * apply String.eqb_eq in Hget. subst u.
        rewrite String.eqb_sym, Hpush. reflexivity.
      * exact IH.
Qed.

(** What a group holds once [tweets] have been filed on top of what it held. *)
Lemma groupTweetsByUser_from_spec (tweets : list TweetData) (g : TweetsByUser) :
  (forall t, In t tweets -> is_inherited (or_default (d_userId t) "") = false) ->
  exists g',
    Service.groupTweetsByUser_from g tweets = inr g'
    /\ forall user,
         get_group user g'
         = match get_group user g, filter (filed_under user) tweets with
           | None, [] => None
           | None, ts => Some ts
           | Some ts0, ts => Some (ts0 ++ ts)
           end.
Proof.
  revert g. induction tweets as [| t rest IH]; intros g Hnames; simpl.
  - exists g. split; [reflexivity | ].
    intros user. destruct (get_group user g); [rewrite app_nil_r | ]; reflexivity.
  - assert (Hrest : forall t', In t' rest ->
                      is_inherited (or_default (d_userId t') "") = false).
    { intros t' Hin. apply Hnames. right. exact Hin. }
    destruct (truthy (d_userId t)) eqn:Htruthy; cbn [negb].
    + assert (Hfiled : forall user,
                filed_under user t = (or_default (d_userId t) "" =? user)).
      { intros user. unfold filed_under.
        destruct (d_userId t) as [u |]; [ | discriminate].
        simpl in *. destruct (u =? ""); [discriminate | reflexivity]. }
      rewrite (Hnames t (or_introl eq_refl)).
      destruct (IH (push_group (or_default (d_userId t) "") t g) Hrest)
        as [g' [Hrun Hget]].
      exists g'. split; [exact Hrun | ].
      intros user. rewrite Hget, get_push_group. cbn [filter]. rewrite Hfiled.
      destruct (or_default (d_userId t) "" =? user).
      * destruct (get_group user g) as [ts0 |]; [rewrite <- app_assoc | ]; reflexivity.
      * reflexivity.
    + assert (Hfiled : forall user, filed_under user t = false).
      { intros user. unfold filed_under.
        destruct (d_userId t) as [u |]; [ | reflexivity].
        simpl in *. destruct (u =? ""); [reflexivity | discriminate]. }
      destruct (IH g Hrest) as [g' [Hrun Hget]].
      exists g'. split; [exact Hrun | ].
      intros user. rewrite Hget. cbn [filter]. rewrite Hfiled. reflexivity.
Qed.

(** X19.  [groupTweetsByUser] files every tweet that has a user id under that
    id and drops the others: provided no user id is a name that every object
    inherits, the group of a user holds exactly the tweets of that user, in
    the order in which they were given, and a user without tweets has no
    group. *)
Theorem tweets_are_grouped_by_user (tweets : list TweetData) :
  (forall t, In t tweets -> is_inherited (or_default (d_userId t) "") = false) ->
  exists g,
    Service.groupTweetsByUser tweets = inr g
    /\ forall user,
         get_group user g
         = match filter (filed_under user) tweets with
           | [] => None
           | ts => Some ts
           end.
Proof.
  intros Hnames.
  destruct (groupTweetsByUser_from_spec tweets [] Hnames) as [g [Hrun Hget]].
  exists g. split; [exact Hrun | ].
  intros user. rewrite Hget. reflexivity.
Qed.

Lemma tweets_are_grouped_by_user_witness :
  exists g,
    Service.groupTweetsByUser
      [mkTweetData "a" "p1" (Some "u1") "one" None None "scheduled" None None None None;
       mkTweetData "b" "p1" None "two" None None "scheduled" None None None None;
       mkTweetData "c" "p2" (Some "u2") "three" None None "scheduled" None None None None;
       mkTweetData "d" "p1" (Some "u1") "four" None None "scheduled" None None None None]
    = inr g
    /\ forall user,
         get_group user g
         = match filter (filed_under user)
                   [mkTweetData "a" "p1" (Some "u1") "one" None None "scheduled" None
                                None None None;
                    mkTweetData "b" "p1" None "two" None None "scheduled" None None
                                None None;
                    mkTweetData "c" "p2" (Some "u2") "three" None None "scheduled" None
                                None None None;
                    mkTweetData "d" "p1" (Some "u1") "four" None None "scheduled" None
                                None None None] with
           | [] => None
           | ts => Some ts
           end.
Proof.
  apply tweets_are_grouped_by_user.
  intros t Hin. simpl in Hin.
  destruct Hin as [<- | [<- | [<- | [<- | []]]]]; reflexivity.
Defined.

(** X20.  A tweet whose user id is a name that every object inherits
    (constructor, toString, __proto__, ...) breaks the grouping: the lookup
    on the fresh object finds the inherited value, no list is created for
    the user, and [groupTweetsByUser] throws instead of returning. *)
Theorem inherited_user_id_breaks_grouping (tweets : list TweetData) (t : TweetData) :
  In t tweets ->
  truthy (d_userId t) = true ->
  is_inherited (or_default (d_userId t) "") = true ->
  exists e, Service.groupTweetsByUser tweets = inl e.
Proof.
  intros Hin Htruthy Hname. unfold Service.groupTweetsByUser.
  generalize (@nil (string * list TweetData)).
  induction tweets as [| t' rest IH]; intros g; [destruct Hin | ].
  simpl.
  destruct (truthy (d_userId t')) eqn:Ht'; simpl.
  - destruct (is_inherited (or_default (d_userId t') "")) eqn:Hn'.
    + eexists. reflexivity.
    + destruct Hin as [-> | Hin]; [congruence | ]. apply IH. exact Hin.
  - destruct Hin as [-> | Hin]; [congruence | ]. apply IH. exact Hin.
Qed.

Lemma inherited_user_id_breaks_grouping_witness :
  exists e,
    Service.groupTweetsByUser
      [mkTweetData "a" "p1" (Some "u1") "one" None None "scheduled" None None None None;
       mkTweetData "b" "p1" (Some "constructor") "two" None None "scheduled" None None
                   None None]
    = inl e.
Proof.
  apply (inherited_user_id_breaks_grouping _
           (mkTweetData "b" "p1" (Some "constructor") "two" None None "scheduled" None
                        None None None)).
  - simpl. right. left. reflexivity.
  - reflexivity.
  - reflexivity.
Defined.

(** ** Processing all scheduled tweets *)

Section AfterTheAccessCheck.
Variable env : Env.
Variable fuel : nat.

(** A kind of events that takes in everything a publish does after it has
    read the project. *)
Variable g : Event -> bool.
Hypothesis Hpublish : forall ev, is_publish_event ev = true -> g ev = true.
Hypothesis Hworkspace : forall w, g (EvDbGetWorkspace w) = true.
Hypothesis Hgroup : forall i, g (EvDbGetGroup i) = true.
Hypothesis Hcredentials : forall u, g (EvDbGetCredentials u) = true.
Hypothesis Htweet : forall p t, g (EvDbGetTweet p t) = true.
Hypothesis Hupdate : forall p t i x, g (EvDbUpdateTweet p t i x) = true.

Lemma verifyProjectAccess_headed user projectId :
  emits_headed (EvDbGetProject projectId) g
               (Service.verifyProjectAccess env user projectId).
Proof.
  unfold Service.verifyProjectAccess.
  apply headed_try_catch; [ | intros; emits_auto].
  apply headed_perform_bind. intros a.
  emits_auto; apply emits_perform; apply Hworkspace.
Qed.

Lemma emits_publish_after options :
  emits g (Service.publishTweetWithRefresh env fuel options).
Proof. eapply emits_weaken; [exact Hpublish | apply emits_publishTweetWithRefresh]. Qed.

Lemma publishTweet_headed user options :
  has_required_fields options = true ->
  emits_headed (EvDbGetProject (po_projectId options)) g
               (Service.publishTweet env fuel user options).
Proof.
  intros Hfields. unfold has_required_fields in Hfields.
  apply negb_true_iff in Hfields.
  unfold Service.publishTweet, Service.publish_checks. rewrite Hfields.
  apply headed_try_catch; [ | intros; emits_auto].
  apply headed_bind.
  - apply headed_bind; [apply verifyProjectAccess_headed | intros v].
    destruct (negb (isAuthorized v)); [emits_auto | ].
    emits_step.
    { destruct (truthy (po_groupId options)); [ | emits_auto].
      unfold Groups.getTweetGroup.
      emits_auto; apply emits_perform; apply Hgroup. }
    destruct a; [emits_auto | ].
    emits_step.
    { unfold Service.getTwitterCredentials.
      emits_auto; apply emits_perform; apply Hcredentials. }
    destruct a as [c |]; [ | emits_auto].
    emits_step; [apply emits_perform; apply Htweet | ].
    destruct a; emits_auto.
  - intros [early | tweetOptions]; [emits_auto | ].
    emits_step; [apply emits_publish_after | ].
    emits_step; [ | emits_auto].
    destruct (_ && _); [ | emits_auto].
    unfold Service.updateTweetStatus. apply emits_perform. apply Hupdate.
Qed.

Lemma publishTweet_without_fields user options s :
  has_required_fields options = false ->
  snd (Service.publishTweet env fuel user options s) = s.
Proof.
  intros Hfields. unfold has_required_fields in Hfields.
  apply negb_false_iff in Hfields.
  unfold Service.publishTweet, Service.publish_checks, try_catch, bind.
  rewrite Hfields. reflexivity.
Qed.

Lemma emits_thread_body_after projectId tweet st :
  emits g (Service.thread_body env fuel projectId tweet st).
Proof.
  unfold Service.thread_body, Service.updateTweetStatus.
  destruct (tw_status tweet =? TweetStatus_PUBLISHED); [emits_auto | ].
  emits_step; [apply emits_attempt; apply emits_publish_after | ].
  destruct a as [error | result]; [emits_auto | ].
  destruct (success result && truthy (twitterTweetId result)); [ | emits_auto].
  emits_step; [ | destruct a; emits_auto].
  apply emits_attempt. apply emits_perform. apply Hupdate.
Qed.

Lemma publishThreadTweets_headed user projectId threadTweets :
  emits_headed (EvDbGetProject projectId) g
               (Service.publishThreadTweets env fuel user projectId threadTweets).
Proof.
  unfold Service.publishThreadTweets.
  apply headed_try_catch; [ | intros; emits_auto].
  apply headed_bind; [apply verifyProjectAccess_headed | intros v].
  destruct (negb (isAuthorized v)); [emits_auto | ].
  emits_step.
  { unfold Service.getTwitterCredentials.
    emits_auto; apply emits_perform; apply Hcredentials. }
  destruct a as [c |]; [ | emits_auto].
  destruct threadTweets as [| t ts]; [emits_auto | ].
  emits_step; [emits_auto | ].
  emits_step; [ | emits_auto].
  apply emits_for_of. intros x st. apply emits_thread_body_after.
Qed.

End AfterTheAccessCheck.

Section ProcessAll.
Variable env : Env.
Variable fuel : nat.

Lemma headed_reads_one_project A projectId (m : M A) s :
  emits_headed (EvDbGetProject projectId) (fun ev => negb (is_project_read ev)) m ->
  exists evs,
    trace (snd (m s)) = trace s ++ evs /\ count_events is_project_read evs = 1.
Proof.
  intros Hm. destruct (Hm s) as [rest [Ht Ho]].
  exists (EvDbGetProject projectId :: rest). split; [exact Ht | ].
  change (EvDbGetProject projectId :: rest) with ([EvDbGetProject projectId] ++ rest).
  rewrite count_events_app.
  rewrite (count_events_none is_project_read (fun ev => negb (is_project_read ev)) rest);
    [reflexivity | | exact Ho].
  intros ev H. apply negb_true_iff in H. exact H.
Qed.

Lemma publish_event_no_project_read ev :
  is_publish_event ev = true -> negb (is_project_read ev) = true.
Proof. destruct ev; simpl; intros H; try discriminate; reflexivity. Qed.

Lemma publishTweet_reads_project user options s :
  exists evs,
    trace (snd (Service.publishTweet env fuel user options s)) = trace s ++ evs
    /\ count_events is_project_read evs
       = if has_required_fields options then 1 else 0.
Proof.
  destruct (has_required_fields options) eqn:Hfields.
  - apply (headed_reads_one_project _ (po_projectId options)).
    apply publishTweet_headed; auto using publish_event_no_project_read.
  - exists []. rewrite (publishTweet_without_fields env fuel user options s Hfields).
    rewrite app_nil_r. split; reflexivity.
Qed.

Lemma for_each_publishTweet_reads user tweets s s' :
  for_each (fun tweet =>
              Service.publishTweet env fuel user (Service.scheduled_options tweet) ;;
              ret tt) tweets s = (Ok tt, s') ->
  exists evs,
    trace s' = trace s ++ evs
    /\ count_events is_project_read evs
       = length (filter (fun tweet => has_required_fields (Service.scheduled_options tweet))
                        tweets).
Proof.
  revert s. induction tweets as [| t rest IH]; intros s Hrun; simpl in Hrun.
  - injection Hrun as <-. exists []. rewrite app_nil_r. split; reflexivity.
  - apply bind_inv in Hrun. destruct Hrun as [u [s1 [Hone Hrest]]].
    apply bind_inv in Hone. destruct Hone as [r [s0 [Hpublish Hret]]].
    injection Hret as _ <-.
    destruct (publishTweet_reads_project user (Service.scheduled_options t) s)
      as [evs1 [Ht1 Hc1]].
    rewrite Hpublish in Ht1. simpl in Ht1.
    destruct (IH s0 Hrest) as [evs2 [Ht2 Hc2]].
    exists (evs1 ++ evs2). split; [rewrite Ht2, Ht1, app_assoc; reflexivity | ].
    rewrite count_events_app, Hc1, Hc2. simpl.
    destruct (has_required_fields (Service.scheduled_options t)); reflexivity.
Qed.

End ProcessAll.

(** X21.  [processAllScheduledTweets] attempts every tweet, whatever became
    of the ones before it: a run that returns has checked access to a
    project once for each tweet that has an id, a project and a text, and
    once more for the thread when there is one. *)
Theorem every_scheduled_tweet_is_attempted
    (env : Env) (fuel : nat) (tweets : list TweetData)
    (threads : option (list TweetData)) (user projectId : string) (s s' : State) :
  Service.processAllScheduledTweets env fuel tweets threads user projectId s
  = (Ok tt, s') ->
  count_events is_project_read (events_since s s')
  = length (filter (fun tweet => has_required_fields (Service.scheduled_options tweet))
                   tweets)
    + match threads with
      | Some (_ :: _) => 1
      | _ => 0
      end.
Proof.
  intros Hrun.
  unfold Service.processAllScheduledTweets, try_catch in Hrun.
  match type of Hrun with
  | match ?body with _ => _ end = _ => destruct body as [[[] | e |] s2] eqn:Hbody
  end; [ | discriminate | discriminate].
  injection Hrun as <-.
  apply bind_inv in Hbody. destruct Hbody as [u [s1 [Hsingles Hthread]]].
  destruct u.
  destruct (for_each_publishTweet_reads env fuel user tweets s s1 Hsingles)
    as [evs1 [Ht1 Hc1]].
  destruct threads as [[| t ts] |].
  - injection Hthread as <-. rewrite (events_since_app _ _ _ Ht1). lia.
  - apply bind_inv in Hthread. destruct Hthread as [r [s3 [Hpublish Hret]]].
    injection Hret as <-.
    destruct (headed_reads_one_project _ projectId
                (Service.publishThreadTweets env fuel user projectId
                   (map processThreadTweet (t :: ts))) s1) as [evs2 [Ht2 Hc2]].
    { apply publishThreadTweets_headed; auto using publish_event_no_project_read. }
    rewrite Hpublish in Ht2. simpl in Ht2.
    assert (Ht : trace s3 = trace s ++ (evs1 ++ evs2))
      by (rewrite Ht2, Ht1, app_assoc; reflexivity).
    rewrite (events_since_app _ _ _ Ht), count_events_app. lia.
  - injection Hthread as <-. rewrite (events_since_app _ _ _ Ht1). lia.
Qed.

Lemma every_scheduled_tweet_is_attempted_witness :
  exists s',
    Service.processAllScheduledTweets Sample.forbidden 0
      [mkTweetData "a" "p1" (Some "u1") "one" None None "scheduled" None None None None;
       mkTweetData "b" "p1" (Some "u1") "" None None "scheduled" None None None None;
       mkTweetData "c" "p1" (Some "u1") "three" None None "scheduled" None None None None]
      (Some [mkTweetData "d" "p1" (Some "u1") "four" (Some 1%Z) None "scheduled" None
                         None None None])
      "u1" "p1" Sample.start
    = (Ok tt, s')
    /\ count_events is_project_read (events_since Sample.start s') = 3.
Proof.
  eexists. split.
  - vm_compute. reflexivity.
  - apply (every_scheduled_tweet_is_attempted Sample.forbidden 0
             [mkTweetData "a" "p1" (Some "u1") "one" None None "scheduled" None None
                          None None;
              mkTweetData "b" "p1" (Some "u1") "" None None "scheduled" None None
                          None None;
              mkTweetData "c" "p1" (Some "u1") "three" None None "scheduled" None None
                          None None]
             (Some [mkTweetData "d" "p1" (Some "u1") "four" (Some 1%Z) None "scheduled"
                                None None None None])
             "u1" "p1" Sample.start).
    vm_compute. reflexivity.
Defined.

(** ** Threads and the user id *)

Section ThreadUser.
Variable env : Env.
Variable fuel : nat.

Lemma count_events_le f g (l : Trace) :
  (forall ev, f ev = true -> g ev = true) -> count_events f l <= count_events g l.
Proof.
  intros Hfg. unfold count_events. induction l as [| ev rest IH]; simpl; [lia | ].
  destruct (f ev) eqn:Hf.
  - rewrite (Hfg ev Hf). simpl. lia.
  - destruct (g ev); simpl; lia.
Qed.

Lemma credentials_write_is_store_write ev :
  is_credentials_write ev = true -> is_store_write ev = true.
Proof. destruct ev; simpl; intros H; try discriminate; reflexivity. Qed.

Lemma thread_body_without_user projectId tweet st s :
  truthy (userId (creds s)) = false ->
  exists evs,
    trace (snd (Service.thread_body env fuel projectId tweet st s)) = trace s ++ evs
    /\ creds (snd (Service.thread_body env fuel projectId tweet st s)) = creds s
    /\ count_events is_credentials_write evs = 0.
Proof.
  intros Hno. unfold Service.thread_body.
  destruct (tw_status tweet =? TweetStatus_PUBLISHED).
  { exists []. simpl. rewrite app_nil_r. auto. }
  destruct (publish_single_attempt env fuel
              (Service.publishOptions tweet (Service.previousTweetId st)) s
              (or_intror Hno)) as [evs [Ht [Hc [_ [_ [_ [Hw _]]]]]]].
  assert (Hzero : count_events is_credentials_write evs = 0).
  { pose proof (count_events_le is_credentials_write is_store_write evs
                  credentials_write_is_store_write). lia. }
  unfold bind. rewrite attempt_run.
  destruct (Service.publishTweetWithRefresh env fuel
              (Service.publishOptions tweet (Service.previousTweetId st)) s)
    as [[result | e |] s1]; simpl in Ht, Hc; cbn beta iota.
  - destruct (success result && truthy (twitterTweetId result)).
    + rewrite attempt_run.
      unfold Service.updateTweetStatus, perform.
      destruct (db_update_tweet env _); cbn beta iota; unfold ret; cbn [fst snd trace creds];
        (eexists; split; [rewrite Ht, <- app_assoc; reflexivity | ];
         split; [exact Hc | ];
         rewrite count_events_app, Hzero; reflexivity).
    + unfold ret. cbn [fst snd]. exists evs. auto.
  - unfold ret. cbn [fst snd]. exists evs. auto.
  - cbn [fst snd]. exists evs. auto.
Qed.

Lemma for_of_without_user projectId tweets st s :
  truthy (userId (creds s)) = false ->
  exists evs,
    trace (snd (for_of (Service.thread_body env fuel projectId) tweets st s))
    = trace s ++ evs
    /\ count_events is_credentials_write evs = 0.
Proof.
  revert st s. induction tweets as [| t rest IH]; intros st s Hno; simpl.
  - exists []. rewrite app_nil_r. auto.
  - destruct (thread_body_without_user projectId t st s Hno) as [evs1 [Ht1 [Hc1 Hz1]]].
    unfold bind.
    destruct (Service.thread_body env fuel projectId t st s) as [[[st1 | st1] | e |] s1];
      simpl in Ht1, Hc1; try solve [exists evs1; auto].
    destruct (IH st1 s1) as [evs2 [Ht2 Hz2]]; [rewrite Hc1; exact Hno | ].
    exists (evs1 ++ evs2). split; [rewrite Ht2, Ht1, app_assoc; reflexivity | ].
    rewrite count_events_app. lia.
Qed.

End ThreadUser.

(** X22.  [publishThreadTweets] publishes with the credentials as the store
    holds them and never attaches the user id to them, as the service's
    [publishTweet] does.  So when the stored credentials carry no user id of
    their own, a thread never writes a refreshed token pair back to the
    store, whatever the provider answers. *)
Theorem thread_needs_stored_user_id_to_persist_tokens
    (env : Env) (fuel : nat) (user projectId : string)
    (threadTweets : list ThreadTweet) (s : State) :
  (forall tr doc,
     db_credentials env tr = inr (ExistsData doc) -> truthy (doc_userId doc) = false) ->
  count_events is_credentials_write
    (events_since s
       (snd (Service.publishThreadTweets env fuel user projectId threadTweets s))) = 0.
Proof.
  intros Hstored.
  assert (Hrun : exists evs,
            trace (snd (Service.publishThreadTweets env fuel user projectId
                          threadTweets s)) = trace s ++ evs
            /\ count_events is_credentials_write evs = 0).
  { unfold Service.publishThreadTweets, try_catch, bind.
    destruct (emits_verifyProjectAccess env user projectId s) as [evs1 [Ht1 Ho1]].
    assert (Hz1 : count_events is_credentials_write evs1 = 0).
    { apply (count_events_none _ is_access_read); [ | exact Ho1].
      intros [] H; try discriminate; reflexivity. }
    destruct (Service.verifyProjectAccess env user projectId s) as [[v | e |] s1];
      simpl in Ht1; unfold ret; cbn [fst snd]; try solve [exists evs1; auto].
    destruct (negb (isAuthorized v)); cbn [fst snd]; [exists evs1; auto | ].
    destruct (getTwitterCredentials_run env user s1) as [r [Hcreds Hfrom]].
    rewrite Hcreds.
    assert (Ht2 : trace s1 ++ [EvDbGetCredentials user]
                  = trace s ++ (evs1 ++ [EvDbGetCredentials user]))
      by (rewrite Ht1, app_assoc; reflexivity).
    assert (Hz2 : count_events is_credentials_write (evs1 ++ [EvDbGetCredentials user]) = 0)
      by (rewrite count_events_app, Hz1; reflexivity).
    destruct r as [c |]; cbn [fst snd trace];
      [ | exists (evs1 ++ [EvDbGetCredentials user]); auto].
    destruct threadTweets as [| t ts]; cbn [fst snd trace];
      [exists (evs1 ++ [EvDbGetCredentials user]); auto | ].
    unfold set_creds. cbn [trace creds].
    destruct (Hfrom c eq_refl) as [_ [doc [Hdoc [_ [_ [_ [_ Huser]]]]]]].
    destruct (for_of_without_user env fuel projectId (Service.sortedTweets (t :: ts))
                (Service.mkLoop None [])
                (mkState (trace s1 ++ [EvDbGetCredentials user]) c))
      as [evs3 [Ht3 Hz3]].
    { cbn [creds]. rewrite <- Huser. exact (Hstored _ _ Hdoc). }
    cbn [trace] in Ht3.
    destruct (for_of (Service.thread_body env fuel projectId)
                (Service.sortedTweets (t :: ts)) (Service.mkLoop None [])
                (mkState (trace s1 ++ [EvDbGetCredentials user]) c))
      as [[final | e |] s3]; cbn [fst snd] in *;
      (exists ((evs1 ++ [EvDbGetCredentials user]) ++ evs3);
       split; [rewrite Ht3, Ht1, <- !app_assoc; reflexivity | ];
       rewrite count_events_app; lia). }
  destruct Hrun as [evs [Ht Hz]].
  rewrite (events_since_app _ _ _ Ht). exact Hz.
Qed.

Lemma thread_needs_stored_user_id_to_persist_tokens_witness :
  count_events is_credentials_write
    (events_since Sample.start
       (snd (Service.publishThreadTweets ThreadSample.no_stored_user 0 "u1" "p1"
               [Sample.draft "a" "one" 1] Sample.start))) = 0.
Proof.
  apply (thread_needs_stored_user_id_to_persist_tokens ThreadSample.no_stored_user 0
           "u1" "p1" [Sample.draft "a" "one" 1] Sample.start).
  intros tr doc H. unfold ThreadSample.no_stored_user in H. simpl in H.
  injection H as <-. reflexivity.
Defined.

(** ** The media of a payload *)

(** X23.  The media of a prepared payload: with an image URL (and an access
    token) the media upload runs and the payload carries exactly the one
    media id it gave, which is not empty, whatever media ids the caller
    passed; without an image URL nothing is uploaded, the payload carries
    the caller's media ids, and an empty list of media ids is left out. *)
Theorem payload_media_is_the_uploaded_image
    (env : Env) (fuel : nat) (options : TweetOptions) (tok : string)
    (s s1 : State) (payload : TweetPayload) :
  Service.prepareTweetPayload env fuel options tok s = (Ok payload, s1) ->
  (truthy (o_imageUrl options) = true ->
   tok <> "" ->
   exists id,
     id <> ""
     /\ p_media_ids payload = Some [id]
     /\ Service.uploadMedia env fuel (or_default (o_imageUrl options) "") 0 s
        = (Ok (mkMedia id), s1))
  /\ (truthy (o_imageUrl options) = false ->
      s1 = s
      /\ p_media_ids payload
         = match o_mediaIds options with
           | Some (m :: ms) => Some (m :: ms)
           | _ => None
           end).
Proof.
  unfold Service.prepareTweetPayload. intros Hrun.
  apply bind_inv in Hrun. destruct Hrun as [mediaIds [s2 [Hmedia Hret]]].
  injection Hret as <- <-. cbn [p_media_ids].
  split.
  - intros Himage Htok. apply String.eqb_neq in Htok.
    rewrite Himage, Htok in Hmedia. cbn [negb andb] in Hmedia.
    apply bind_inv in Hmedia. destruct Hmedia as [[id] [s3 [Hupload Hcheck]]].
    cbn [media_id_string] in Hcheck.
    destruct (id =? "") eqn:Hid; [discriminate | ].
    injection Hcheck as <- <-.
    exists id. split; [apply String.eqb_neq; exact Hid | ].
    split; [reflexivity | exact Hupload].
  - intros Himage. rewrite Himage in Hmedia. cbn [andb] in Hmedia.
    injection Hmedia as <- <-. split; reflexivity.
Qed.

Lemma payload_media_is_the_uploaded_image_witness :
  (truthy (o_imageUrl (mkOptions "hello" (Some ["m7"; "m8"]) None
                                 (Some "https://img.example/a.png"))) = true ->
   "A1" <> "" ->
   exists id,
     id <> ""
     /\ p_media_ids (mkPayload "hello" (Some ["m1"]) None) = Some [id]
     /\ Service.uploadMedia Sample.quiet 0
          (or_default (o_imageUrl (mkOptions "hello" (Some ["m7"; "m8"]) None
                                             (Some "https://img.example/a.png"))) "")
          0 Sample.start
        = (Ok (mkMedia id),
           mkState [EvFetchHead "https://img.example/a.png";
                    EvUploadInit "A1" "image/png" "1024";
                    EvFetchImage "https://img.example/a.png";
                    EvUploadAppend "A1" "m1" "bytes";
                    EvUploadFinalize "A1" "m1"] Sample.creds1))
  /\ (truthy (o_imageUrl (mkOptions "hello" (Some ["m7"; "m8"]) None
                                    (Some "https://img.example/a.png"))) = false ->
      mkState [EvFetchHead "https://img.example/a.png";
               EvUploadInit "A1" "image/png" "1024";
               EvFetchImage "https://img.example/a.png";
               EvUploadAppend "A1" "m1" "bytes";
               EvUploadFinalize "A1" "m1"] Sample.creds1 = Sample.start
      /\ p_media_ids (mkPayload "hello" (Some ["m1"]) None)
         = match o_mediaIds (mkOptions "hello" (Some ["m7"; "m8"]) None
                                       (Some "https://img.example/a.png")) with
           | Some (m :: ms) => Some (m :: ms)
           | _ => None
           end).
Proof.
  apply (payload_media_is_the_uploaded_image Sample.quiet 0
           (mkOptions "hello" (Some ["m7"; "m8"]) None (Some "https://img.example/a.png"))
           "A1" Sample.start).
  vm_compute. reflexivity.
Defined.
